(** * kanataxa/msgpack: the encode/decode engine, embedded and verified

    A shallow embedding of [encoder.go] and [decoder.go]: the type-directed
    [Encoder], the tag-directed [Decoder] with its leaf decoders, the struct
    binder and the extension codec.  Wire bytes are integers in [0, 256)
    held in [Z]; Go strings are [string]s (byte sequences); stateful code is
    written in a small state-and-error monad over the encoder (destination
    and scratch pool) or the decoder (buffered reader and scratch pool). *)

From stdpp Require Import base option list strings gmap.
From Stdlib Require Import ZArith Lia Ascii String.

Local Open Scope Z_scope.
Set Warnings "-register-all".

(** ** Machine integers *)

Module Wire.

(** Go conversions to an unsigned width: the value modulo 2^w. *)
Definition to_uint (w : Z) (n : Z) : Z := n mod 2 ^ w.
Definition uint8 : Z → Z := to_uint 8.
Definition uint16 : Z → Z := to_uint 16.
Definition uint32 : Z → Z := to_uint 32.
Definition uint64 : Z → Z := to_uint 64.

(** Go conversions to a signed width: two's complement reinterpretation. *)
Definition to_int (w : Z) (n : Z) : Z :=
  let u := n mod 2 ^ w in
  if u <? 2 ^ (w - 1) then u else u - 2 ^ w.
Definition int8 : Z → Z := to_int 8.
Definition int16 : Z → Z := to_int 16.
Definition int32 : Z → Z := to_int 32.
Definition int64 : Z → Z := to_int 64.

Definition MaxUint8 : Z := 2 ^ 8 - 1.
Definition MaxUint16 : Z := 2 ^ 16 - 1.
Definition MaxUint32 : Z := 2 ^ 32 - 1.

(** The [w] low-order bytes of [n], most significant first. *)
Fixpoint big_endian (w : nat) (n : Z) : list Z :=
  match w with
  | O => []
  | S w' => Z.land (Z.shiftr n (8 * Z.of_nat w')) 255 :: big_endian w' n
  end.

(** The unsigned integer held big-endian in a byte sequence. *)
Definition from_big_endian (bs : list Z) : Z :=
  fold_left (λ acc b, Z.lor (Z.shiftl acc 8) b) bs 0.

(** The bytes of a Go string, and the string made of some bytes. *)
Definition bytes_of_string (s : string) : list Z :=
  (λ a, Z.of_N (N_of_ascii a)) <$> list_ascii_of_string s.
Definition string_of_bytes (bs : list Z) : string :=
  string_of_list_ascii ((λ b, ascii_of_N (Z.to_N b)) <$> bs).

(** [len(s)] of a Go string or slice. *)
Definition len {A} (l : list A) : Z := Z.of_nat (List.length l).
Definition strlen (s : string) : Z := Z.of_nat (String.length s).

End Wire.
Import Wire.

(** ** Tag catalogue *)

Module Code.
(** Modelled from the spec: the format-byte constants of the tag catalogue
    (section 3); the file that declares [Code] is not part of the sources at
    hand. *)
Definition Nil : Z := 0xc0.
Definition False : Z := 0xc2.
Definition True : Z := 0xc3.
Definition Bin8 : Z := 0xc4.
Definition Bin16 : Z := 0xc5.
Definition Bin32 : Z := 0xc6.
Definition Ext8 : Z := 0xc7.
Definition Ext16 : Z := 0xc8.
Definition Ext32 : Z := 0xc9.
Definition Float : Z := 0xca.
Definition Double : Z := 0xcb.
Definition Uint8 : Z := 0xcc.
Definition Uint16 : Z := 0xcd.
Definition Uint32 : Z := 0xce.
Definition Uint64 : Z := 0xcf.
Definition Int8 : Z := 0xd0.
Definition Int16 : Z := 0xd1.
Definition Int32 : Z := 0xd2.
Definition Int64 : Z := 0xd3.
Definition FixExt1 : Z := 0xd4.
Definition FixExt2 : Z := 0xd5.
Definition FixExt4 : Z := 0xd6.
Definition FixExt8 : Z := 0xd7.
Definition FixExt16 : Z := 0xd8.
Definition Str8 : Z := 0xd9.
Definition Str16 : Z := 0xda.
Definition Str32 : Z := 0xdb.
Definition Array16 : Z := 0xdc.
Definition Array32 : Z := 0xdd.
Definition Map16 : Z := 0xde.
Definition Map32 : Z := 0xdf.
Definition FixMap0 : Z := 0x80.
Definition FixMap15 : Z := 0x8f.
Definition FixArray0 : Z := 0x90.
Definition FixArray15 : Z := 0x9f.
Definition FixStr0 : Z := 0xa0.
Definition FixStr31 : Z := 0xbf.

(** Modelled from the spec: the catalogue's predicate "is in the Map
    family" (sections 3 and 4.1): FixMap, Map16 or Map32. *)
Definition IsMapFamily (c : Z) : bool :=
  ((FixMap0 <=? c) && (c <=? FixMap15)) || (c =? Map16) || (c =? Map32).

(** The two fix-int ranges of the catalogue. *)
Definition IsPositiveFixInt (c : Z) : bool := (0x00 <=? c) && (c <=? 0x7f).
Definition IsNegativeFixInt (c : Z) : bool := (0xe0 <=? c) && (c <=? 0xff).
End Code.

(** ** Errors *)

(** A Go [error] value that is not nil.  Messages keep the format string of
    the source; the formatted arguments are left out. *)
Inductive error : Type :=
| Errorf (msg : string)
| Wrapped (msg : string) (cause : error)
| EOF
| ErrUnexpectedEOF
| ErrInvalidUnreadByte
| InvalidDecodeError
| UserError (msg : string).

(** [errors.Wrap] and [errors.Wrapf] of github.com/pkg/errors: a nil error
    stays nil. *)
Definition Wrap (err : option error) (msg : string) : option error :=
  match err with
  | None => None
  | Some e => Some (Wrapped msg e)
  end.
Definition Wrapf := Wrap.

(** What a call comes to: a normal return, a returned error, or a panic. *)
Inductive outcome (A : Type) : Type :=
| Ok (a : A)
| Fail (e : error)
| Panic (msg : string)
| OutOfFuel.
Arguments Ok {A} a.
Arguments Fail {A} e.
Arguments Panic {A} msg.
Arguments OutOfFuel {A}.

(** A computation over a state [S]: the outcome and the state it leaves. *)
Definition M (S A : Type) : Type := S → outcome A * S.

Definition ret {S A} (a : A) : M S A := λ s, (Ok a, s).
Definition fail {S A} (e : error) : M S A := λ s, (Fail e, s).
Definition panic {S A} (msg : string) : M S A := λ s, (Panic msg, s).
Definition bind {S A B} (m : M S A) (k : A → M S B) : M S B :=
  λ s, match m s with
       | (Ok a, s') => k a s'
       | (Fail e, s') => (Fail e, s')
       | (Panic msg, s') => (Panic msg, s')
       | (OutOfFuel, s') => (OutOfFuel, s')
       end.

(** Go's [return v, err]: an error when [err] is not nil, the value otherwise. *)
Definition return_with {S A} (a : A) (err : option error) : M S A :=
  match err with
  | None => ret a
  | Some e => fail e
  end.

(** Runs [m] and hands its error (nil on success) to the caller, as in
    [if err := m; err != nil]. *)
Definition catch {S A} (m : M S A) : M S (option error * option A) :=
  λ s, match m s with
       | (Ok a, s') => (Ok (None, Some a), s')
       | (Fail e, s') => (Ok (Some e, None), s')
       | (Panic msg, s') => (Panic msg, s')
       | (OutOfFuel, s') => (OutOfFuel, s')
       end.

Declare Scope go_scope.
Delimit Scope go_scope with go.
Notation "x <- m ;; k" := (bind m (λ x, k))
  (at level 100, m at next level, right associativity) : go_scope.
Notation "m ;; k" := (bind m (λ _, k))
  (at level 100, right associativity) : go_scope.
Local Open Scope go_scope.

(** ** The scratch-buffer pool *)

(** The pool of [bytes.Buffer]s of github.com/lestrrat/go-bufferpool, a
    [sync.Pool]: [Get] hands out a buffer the pool holds, or a new one when
    it holds none; [Release] resets a buffer and puts it back.  Buffers live
    in a store and are named by handles, so that a buffer written after its
    release is the one the pool hands out next.  Of the orders in which a
    [sync.Pool] may hand out what it holds, the model takes latest first. *)
Record Pool : Type := mkPool {
  bufs : gmap nat (list Z);   (* the contents of the buffers, by handle *)
  allocated : nat;            (* how many buffers were ever allocated *)
  free : list nat             (* the handles the pool holds, latest first *)
}.

Definition empty_pool : Pool := mkPool ∅ 0 [].

Definition pool_get (p : Pool) : nat * Pool :=
  match free p with
  | h :: rest => (h, mkPool (bufs p) (allocated p) rest)
  | [] =>
      (allocated p,
       mkPool (<[allocated p := []]> (bufs p)) (S (allocated p)) [])
  end.

Definition buf_bytes (p : Pool) (h : nat) : list Z := default [] (bufs p !! h).

Definition buf_set (h : nat) (data : list Z) (p : Pool) : Pool :=
  mkPool (<[h := data]> (bufs p)) (allocated p) (free p).

Definition buf_write (h : nat) (data : list Z) (p : Pool) : Pool :=
  buf_set h (buf_bytes p h ++ data) p.

(** [Release] resets the buffer and puts it back. *)
Definition pool_release (h : nat) (p : Pool) : Pool :=
  mkPool (<[h := []]> (bufs p)) (allocated p) (h :: free p).

(** ** Host types and values *)

(** The widths of Go's integer types; [int] and [uint] have 64 bits (the
    source compares a [len] with [math.MaxUint32], which only a 64-bit [int]
    admits). *)
Inductive width : Type := W8 | W16 | W32 | W64 | Wplatform.

Definition bits (w : width) : Z :=
  match w with
  | W8 => 8
  | W16 => 16
  | W32 => 32
  | W64 | Wplatform => 64
  end.

(** Go types, as [reflect.Type] shows them: the basic types, slices, maps,
    pointers, the empty interface and defined struct types.  Defined types
    other than structs are not modelled. *)
Inductive GoType : Type :=
| TBool
| TInt (w : width)
| TUint (w : width)
| TFloat32
| TFloat64
| TString
| TSlice (elem : GoType)
| TMap (key elem : GoType)
| TPtr (elem : GoType)
| TInterface
| TStruct (name : string) (fields : list StructField)
with StructField : Type :=
| mkField (Name PkgPath Tag : string) (Typ : GoType).

(** [Tag] holds the value of the field tag's [msgpack] key ([Tag.Get]). *)
Definition Name (f : StructField) : string := let 'mkField n _ _ _ := f in n.
Definition PkgPath (f : StructField) : string := let 'mkField _ p _ _ := f in p.
Definition Tag (f : StructField) : string := let 'mkField _ _ t _ := f in t.
Definition Typ (f : StructField) : GoType := let 'mkField _ _ _ t := f in t.

(** Host values with their dynamic type.  A variable of interface type holds
    the value itself ([VNil] when it is nil); [VNilOf T] is the nil slice, map
    or pointer of type [T]; a [[]byte] is a [VBytes], never a [VSlice]; the
    pairs of a map come in the order in which the map is iterated. *)
Inductive Value : Type :=
| VNil
| VBool (b : bool)
| VInt (w : width) (n : Z)
| VUint (w : width) (n : Z)
| VFloat32 (bits : Z)
| VFloat64 (bits : Z)
| VString (s : string)
| VBytes (b : list Z)
| VSlice (elem : GoType) (l : list Value)
| VMap (key elem : GoType) (m : list (Value * Value))
| VStruct (name : string) (fields : list StructField) (vals : list Value)
| VPtr (elem : GoType) (v : Value)
| VNilOf (T : GoType).

Definition width_eqb (a b : width) : bool :=
  match a, b with
  | W8, W8 | W16, W16 | W32, W32 | W64, W64 | Wplatform, Wplatform => true
  | _, _ => false
  end.

(** Identity of types; two defined struct types are identical when they are
    the same declaration, that is, carry the same name. *)
Fixpoint type_eqb (a b : GoType) : bool :=
  match a, b with
  | TBool, TBool | TFloat32, TFloat32 | TFloat64, TFloat64
  | TString, TString | TInterface, TInterface => true
  | TInt w, TInt w' | TUint w, TUint w' => width_eqb w w'
  | TSlice e, TSlice e' | TPtr e, TPtr e' => type_eqb e e'
  | TMap k e, TMap k' e' => type_eqb k k' && type_eqb e e'
  | TStruct n _, TStruct n' _ => String.eqb n n'
  | _, _ => false
  end.

Module reflect.

Inductive Kind : Type :=
| Invalid | Bool
| Int | Int8 | Int16 | Int32 | Int64
| Uint | Uint8 | Uint16 | Uint32 | Uint64
| Float32 | Float64 | String
| Slice | Map | Ptr | Interface | Struct.

Definition Kind_eqb (a b : Kind) : bool :=
  match a, b with
  | Invalid, Invalid | Bool, Bool | Int, Int | Int8, Int8 | Int16, Int16
  | Int32, Int32 | Int64, Int64 | Uint, Uint | Uint8, Uint8 | Uint16, Uint16
  | Uint32, Uint32 | Uint64, Uint64 | Float32, Float32 | Float64, Float64
  | String, String | Slice, Slice | Map, Map | Ptr, Ptr
  | Interface, Interface | Struct, Struct => true
  | _, _ => false
  end.

(** [Type.Kind]. *)
Definition KindOf (T : GoType) : Kind :=
  match T with
  | TBool => Bool
  | TInt W8 => Int8 | TInt W16 => Int16 | TInt W32 => Int32
  | TInt W64 => Int64 | TInt Wplatform => Int
  | TUint W8 => Uint8 | TUint W16 => Uint16 | TUint W32 => Uint32
  | TUint W64 => Uint64 | TUint Wplatform => Uint
  | TFloat32 => Float32
  | TFloat64 => Float64
  | TString => String
  | TSlice _ => Slice
  | TMap _ _ => Map
  | TPtr _ => Ptr
  | TInterface => Interface
  | TStruct _ _ => Struct
  end.

(** [Value.Type] of [reflect.ValueOf v]; [None] for the invalid Value that
    [ValueOf(nil)] is. *)
Definition TypeOf (v : Value) : option GoType :=
  match v with
  | VNil => None
  | VBool _ => Some TBool
  | VInt w _ => Some (TInt w)
  | VUint w _ => Some (TUint w)
  | VFloat32 _ => Some TFloat32
  | VFloat64 _ => Some TFloat64
  | VString _ => Some TString
  | VBytes _ => Some (TSlice (TUint W8))
  | VSlice e _ => Some (TSlice e)
  | VMap k e _ => Some (TMap k e)
  | VStruct n fs _ => Some (TStruct n fs)
  | VPtr e _ => Some (TPtr e)
  | VNilOf T => Some T
  end.

Definition IsValid (v : Value) : bool :=
  match v with
  | VNil => false
  | _ => true
  end.

(** [Value.Kind]. *)
Definition ValueKind (v : Value) : Kind :=
  match TypeOf v with
  | None => Invalid
  | Some T => KindOf T
  end.

(** [reflect.Zero(T)]. *)
Fixpoint Zero (T : GoType) : Value :=
  match T with
  | TBool => VBool false
  | TInt w => VInt w 0
  | TUint w => VUint w 0
  | TFloat32 => VFloat32 0
  | TFloat64 => VFloat64 0
  | TString => VString EmptyString
  | TSlice _ | TMap _ _ | TPtr _ => VNilOf T
  | TInterface => VNil
  | TStruct n fs =>
      VStruct n fs
        ((fix zeros (l : list StructField) : list Value :=
            match l with
            | [] => []
            | mkField _ _ _ t :: l' => Zero t :: zeros l'
            end) fs)
  end.

(** *** Conversions ([Type.ConvertibleTo], [Value.Convert]) *)

Definition is_int_kind (k : Kind) : bool :=
  match k with
  | Int | Int8 | Int16 | Int32 | Int64 => true
  | _ => false
  end.
Definition is_uint_kind (k : Kind) : bool :=
  match k with
  | Uint | Uint8 | Uint16 | Uint32 | Uint64 => true
  | _ => false
  end.
Definition is_float_kind (k : Kind) : bool :=
  match k with
  | Float32 | Float64 => true
  | _ => false
  end.

(** Two field lists that make identical underlying struct types: the same
    names and types in the same order; tags do not count. *)
Fixpoint identical_fields (fs fs' : list StructField) : bool :=
  match fs, fs' with
  | [], [] => true
  | f :: l, f' :: l' =>
      String.eqb (Name f) (Name f') && String.eqb (PkgPath f) (PkgPath f')
      && type_eqb (Typ f) (Typ f') && identical_fields l l'
  | _, _ => false
  end.

Definition haveIdenticalUnderlyingType (T V : GoType) : bool :=
  match T, V with
  | TStruct _ fs, TStruct _ fs' => identical_fields fs fs'
  | _, _ => type_eqb T V
  end.

(** [src.ConvertibleTo(dst)], after [convertOp]: the numeric conversions,
    integer to string, string to and from byte and rune slices, identical
    underlying types, pointers to such, and any type to the empty interface. *)
Definition ConvertibleTo (src dst : GoType) : bool :=
  let sk := KindOf src in
  let dk := KindOf dst in
  (if is_int_kind sk || is_uint_kind sk then
     is_int_kind dk || is_uint_kind dk || is_float_kind dk || Kind_eqb dk String
   else if is_float_kind sk then
     is_int_kind dk || is_uint_kind dk || is_float_kind dk
   else
     match src, dst with
     | TString, TSlice (TUint W8) | TString, TSlice (TInt W32)
     | TSlice (TUint W8), TString | TSlice (TInt W32), TString => true
     | _, _ => false
     end)
  || haveIdenticalUnderlyingType dst src
  || match src, dst with
     | TPtr s, TPtr d => haveIdenticalUnderlyingType d s
     | _, _ => false
     end
  || Kind_eqb dk Interface.

Definition RuneError : Z := 0xFFFD.

(** The UTF-8 bytes of [string(rune(x))]; what is not a code point gives
    those of U+FFFD. *)
Definition EncodeRune (x : Z) : list Z :=
  if (x <? 0) || (0x10FFFF <? x) || ((0xD800 <=? x) && (x <=? 0xDFFF)) then
    [0xEF; 0xBF; 0xBD]
  else if x <? 0x80 then [x]
  else if x <? 0x800 then
    [Z.lor 0xC0 (Z.shiftr x 6); Z.lor 0x80 (Z.land x 0x3F)]
  else if x <? 0x10000 then
    [Z.lor 0xE0 (Z.shiftr x 12); Z.lor 0x80 (Z.land (Z.shiftr x 6) 0x3F);
     Z.lor 0x80 (Z.land x 0x3F)]
  else
    [Z.lor 0xF0 (Z.shiftr x 18); Z.lor 0x80 (Z.land (Z.shiftr x 12) 0x3F);
     Z.lor 0x80 (Z.land (Z.shiftr x 6) 0x3F); Z.lor 0x80 (Z.land x 0x3F)].

Definition continuation (b : Z) : bool := (0x80 <=? b) && (b <=? 0xBF).

(** [utf8.DecodeRune]: the first rune of a byte sequence and its width; an
    ill-formed prefix gives U+FFFD and width 1. *)
Definition DecodeRune (bs : list Z) : Z * nat :=
  match bs with
  | [] => (RuneError, 0%nat)
  | b0 :: rest =>
      if b0 <? 0x80 then (b0, 1%nat)
      else if (0xC2 <=? b0) && (b0 <=? 0xDF) then
        match rest with
        | b1 :: _ =>
            if continuation b1 then
              (Z.lor (Z.shiftl (Z.land b0 0x1F) 6) (Z.land b1 0x3F), 2%nat)
            else (RuneError, 1%nat)
        | _ => (RuneError, 1%nat)
        end
      else if (0xE0 <=? b0) && (b0 <=? 0xEF) then
        match rest with
        | b1 :: b2 :: _ =>
            let lo := if b0 =? 0xE0 then 0xA0 else 0x80 in
            let hi := if b0 =? 0xED then 0x9F else 0xBF in
            if (lo <=? b1) && (b1 <=? hi) && continuation b2 then
              (Z.lor (Z.shiftl (Z.land b0 0x0F) 12)
                 (Z.lor (Z.shiftl (Z.land b1 0x3F) 6) (Z.land b2 0x3F)), 3%nat)
            else (RuneError, 1%nat)
        | _ => (RuneError, 1%nat)
        end
      else if (0xF0 <=? b0) && (b0 <=? 0xF4) then
        match rest with
        | b1 :: b2 :: b3 :: _ =>
            let lo := if b0 =? 0xF0 then 0x90 else 0x80 in
            let hi := if b0 =? 0xF4 then 0x8F else 0xBF in
            if (lo <=? b1) && (b1 <=? hi) && continuation b2 && continuation b3
            then
              (Z.lor (Z.shiftl (Z.land b0 0x07) 18)
                 (Z.lor (Z.shiftl (Z.land b1 0x3F) 12)
                    (Z.lor (Z.shiftl (Z.land b2 0x3F) 6) (Z.land b3 0x3F))),
               4%nat)
            else (RuneError, 1%nat)
        | _ => (RuneError, 1%nat)
        end
      else (RuneError, 1%nat)
  end.

(** The runes of a string, [[]rune(s)]. *)
Fixpoint runes_of (fuel : nat) (bs : list Z) : list Z :=
  match fuel, bs with
  | S fuel', _ :: _ =>
      let '(x, w) := DecodeRune bs in x :: runes_of fuel' (drop w bs)
  | _, _ => []
  end.

(** Conversions between integers and IEEE 754 floats and between the two
    float sizes, on bit patterns: round to nearest, ties to even.  A float
    that does not fit the integer type converts as on amd64. *)
Record format : Type := mkFormat { mant_bits : Z; exp_bits : Z }.
Definition binary32 : format := mkFormat 23 8.
Definition binary64 : format := mkFormat 52 11.
Definition bias (f : format) : Z := 2 ^ (exp_bits f - 1) - 1.
Definition emin (f : format) : Z := 1 - bias f - mant_bits f.
Definition sign_bit (f : format) (neg : bool) : Z :=
  if neg then 2 ^ (mant_bits f + exp_bits f) else 0.
Definition infinity (f : format) (neg : bool) : Z :=
  sign_bit f neg + (2 ^ exp_bits f - 1) * 2 ^ mant_bits f.

(** A float: not a number (with its fraction bits), an infinity, or plus or
    minus [m * 2 ^ e]. *)
Inductive float : Type :=
| NaN (neg : bool) (frac : Z)
| Inf (neg : bool)
| Finite (neg : bool) (m e : Z).

Definition float_of_bits (f : format) (b : Z) : float :=
  let neg := Z.testbit b (mant_bits f + exp_bits f) in
  let ex := Z.land (Z.shiftr b (mant_bits f)) (2 ^ exp_bits f - 1) in
  let frac := Z.land b (2 ^ mant_bits f - 1) in
  if ex =? 2 ^ exp_bits f - 1 then
    if frac =? 0 then Inf neg else NaN neg frac
  else if ex =? 0 then Finite neg frac (emin f)
  else Finite neg (frac + 2 ^ mant_bits f) (ex - 1 + emin f).

(** [m / 2 ^ k] rounded to the nearest integer, ties to even. *)
Definition round_shift (m k : Z) : Z :=
  if k <=? 0 then m * 2 ^ (- k)
  else
    let q := Z.shiftr m k in
    let rem := Z.land m (2 ^ k - 1) in
    let half := 2 ^ (k - 1) in
    if (half <? rem) || ((rem =? half) && Z.odd q) then q + 1 else q.

(** The bits of [m * 2 ^ e] rounded to the format. *)
Definition bits_of_finite (f : format) (neg : bool) (m e : Z) : Z :=
  if m =? 0 then sign_bit f neg
  else
    let e' := Z.max (e + Z.log2 m - mant_bits f) (emin f) in
    let q := round_shift m (e' - e) in
    let b := (e' - emin f) * 2 ^ mant_bits f + q in
    if (2 ^ exp_bits f - 1) * 2 ^ mant_bits f <=? b then infinity f neg
    else sign_bit f neg + b.

Definition bits_of_float (f : format) (x : float) : Z :=
  match x with
  | NaN neg frac =>
      infinity f neg + Z.lor (2 ^ (mant_bits f - 1)) (Z.land frac (2 ^ mant_bits f - 1))
  | Inf neg => infinity f neg
  | Finite neg m e => bits_of_finite f neg m e
  end.

Definition int64_to_float64 (n : Z) : Z :=
  bits_of_finite binary64 (n <? 0) (Z.abs n) 0.
Definition uint64_to_float64 (n : Z) : Z := bits_of_finite binary64 false n 0.

Definition float32_to_float64 (b : Z) : Z :=
  bits_of_float binary64
    (match float_of_bits binary32 b with
     | NaN neg frac => NaN neg (Z.shiftl frac 29)
     | x => x
     end).
Definition float64_to_float32 (b : Z) : Z :=
  bits_of_float binary32
    (match float_of_bits binary64 b with
     | NaN neg frac => NaN neg (Z.shiftr frac 29)
     | x => x
     end).

(** The integer part of a finite float, if it has one. *)
Definition truncate (x : float) : option Z :=
  match x with
  | Finite neg m e =>
      let t := if 0 <=? e then m * 2 ^ e else Z.shiftr m (- e) in
      Some (if neg then - t else t)
  | _ => None
  end.

Definition float64_to_int64 (b : Z) : Z :=
  match truncate (float_of_bits binary64 b) with
  | Some t => if (- 2 ^ 63 <=? t) && (t <? 2 ^ 63) then t else - 2 ^ 63
  | None => - 2 ^ 63
  end.
Definition float64_to_uint64 (b : Z) : Z :=
  match truncate (float_of_bits binary64 b) with
  | Some t =>
      if (- 2 ^ 63 <=? t) && (t <? 2 ^ 64) then t mod 2 ^ 64 else 2 ^ 63
  | None => 2 ^ 63
  end.

(** [makeInt(bits, t)] and [makeFloat(f, t)]. *)
Definition makeInt (n : Z) (t : GoType) : Value :=
  match t with
  | TInt w => VInt w (to_int (bits w) n)
  | TUint w => VUint w (to_uint (bits w) n)
  | _ => VNil
  end.

Definition makeFloat (f64 : Z) (t : GoType) : Value :=
  match t with
  | TFloat32 => VFloat32 (float64_to_float32 f64)
  | TFloat64 => VFloat64 f64
  | _ => VNil
  end.

(** A value given its new type by [cvtDirect]: a struct takes the name
    and fields of the target, anything else is unchanged. *)
Definition retype (v : Value) (t : GoType) : Value :=
  match v, t with
  | VStruct _ _ vals, TStruct n fs => VStruct n fs vals
  | VNilOf _, _ => VNilOf t
  | _, _ => v
  end.

(** [v.Convert(t)] where [v]'s type is convertible to [t]; a value put
    into an interface stays what it is. *)
Definition Convert (v : Value) (t : GoType) : Value :=
  let dk := KindOf t in
  if Kind_eqb dk Interface then v else
  match v with
  | VInt _ n | VUint _ n =>
      if is_int_kind dk || is_uint_kind dk then makeInt n t
      else if is_float_kind dk then
        makeFloat (match v with
                   | VInt _ _ => int64_to_float64 n
                   | _ => uint64_to_float64 n
                   end) t
      else if Kind_eqb dk String then VString (string_of_bytes (EncodeRune n))
      else v
  | VFloat32 _ | VFloat64 _ =>
      let f64 := match v with
                 | VFloat32 f => float32_to_float64 f
                 | VFloat64 f => f
                 | _ => 0
                 end in
      if is_int_kind dk then makeInt (float64_to_int64 f64) t
      else if is_uint_kind dk then makeInt (float64_to_uint64 f64) t
      else if is_float_kind dk then makeFloat f64 t
      else v
  | VString s =>
      match t with
      | TSlice (TUint W8) => VBytes (bytes_of_string s)
      | TSlice (TInt W32) =>
          VSlice (TInt W32)
            (VInt W32 <$> runes_of (String.length s) (bytes_of_string s))
      | _ => v
      end
  | VBytes b =>
      match t with
      | TString => VString (string_of_bytes b)
      | _ => v
      end
  | VSlice (TInt W32) l =>
      match t with
      | TString =>
          VString (string_of_bytes
                     (mjoin ((λ x, match x with
                                   | VInt _ n => EncodeRune n
                                   | _ => []
                                   end) <$> l)))
      | _ => v
      end
  | VPtr _ x =>
      match t with
      | TPtr e => VPtr e (retype x e)
      | _ => v
      end
  | VNilOf (TSlice _) =>
      match t with
      | TString => VString EmptyString
      | _ => VNilOf t
      end
  | _ => retype v t
  end.

End reflect.

(** ** Encoder and decoder state, user capabilities *)

(** An [Encoder]: the bytes its destination has received, and the
    process-wide scratch pool.  The destination is an in-memory sink: its
    writes append and report no error. *)
Record Encoder : Type := mkEncoder {
  dst : list Z;
  epool : Pool
}.

(** A [bufio.Reader] over a finite stream: the bytes not yet read, and the
    last byte read, which [UnreadByte] can push back ([None] when there is
    none to push back). *)
Record bufio_Reader : Type := mkReader {
  unread : list Z;
  lastByte : option Z
}.

(** A [Decoder]: its buffered reader [r], and the process-wide scratch pool. *)
Record Decoder : Type := mkDecoder {
  r : bufio_Reader;
  dpool : Pool
}.

Definition NewDecoder (stream : list Z) (p : Pool) : Decoder :=
  mkDecoder (mkReader stream None) p.

(** The extension registry and the methods of user types.  The registry is
    populated before the engine runs and only read by it.  A user type's
    [EncodeMsgpackExt] is given by the bytes it writes and the error it
    returns; its [DecodeMsgpackExt] maps the bytes the bounded reader can
    deliver to the number of bytes it reads and the value it leaves in its
    receiver, or its error. *)
Record Env : Type := mkEnv {
  extEncodeRegistry : GoType → option Z;
  extDecodeRegistry : gmap Z GoType;
  EncodeMsgpackExt : GoType → option (Value → list Z * option error);
  EncodeMsgpack : GoType → option (Value → M Encoder unit);
  DecodeMsgpack : GoType → option (M Decoder Value);
  DecodeMsgpackExt : GoType → option (list Z → nat * (Value + error))
}.

(** Running [m] with an error wrapped by [errors.Wrap]. *)
Definition wrap {S A} (m : M S A) (msg : string) : M S A :=
  λ s, match m s with
       | (Fail e, s') => (Fail (Wrapped msg e), s')
       | other => other
       end.

(** Running [m] and dropping its error, as a call whose result is not
    looked at. *)
Definition unchecked {S A} (m : M S A) : M S unit :=
  λ s, match m s with
       | (Ok _, s') | (Fail _, s') => (Ok tt, s')
       | (Panic msg, s') => (Panic msg, s')
       | (OutOfFuel, s') => (OutOfFuel, s')
       end.

(** [defer cleanup; body]: the cleanup runs when the body is left, however
    it is left. *)
Definition defer {S A} (cleanup : S → S) (body : M S A) : M S A :=
  λ s, let '(o, s') := body s in (o, cleanup s').

(** ** The writer *)

Module Writer.

(** Modelled from the spec: the byte-stream writer (section 4.2), big-endian,
    with its tag-and-integer conveniences; [Writer] is declared outside the
    sources at hand. *)
Definition Write (bs : list Z) : M Encoder unit :=
  λ e, (Ok tt, mkEncoder (dst e ++ bs) (epool e)).
Definition WriteByte (b : Z) : M Encoder unit := Write [b].
Definition WriteUint8 (n : Z) : M Encoder unit := Write (big_endian 1 n).
Definition WriteUint16 (n : Z) : M Encoder unit := Write (big_endian 2 n).
Definition WriteUint32 (n : Z) : M Encoder unit := Write (big_endian 4 n).
Definition WriteUint64 (n : Z) : M Encoder unit := Write (big_endian 8 n).
Definition WriteByteUint8 (b n : Z) : M Encoder unit :=
  Write (b :: big_endian 1 n).
Definition WriteByteUint16 (b n : Z) : M Encoder unit :=
  Write (b :: big_endian 2 n).
Definition WriteByteUint32 (b n : Z) : M Encoder unit :=
  Write (b :: big_endian 4 n).
Definition WriteByteUint64 (b n : Z) : M Encoder unit :=
  Write (b :: big_endian 8 n).
Definition WriteString (s : string) : M Encoder unit :=
  Write (bytes_of_string s).

(** Modelled from the spec: [WriteArrayHeader], the array header of section
    4.5 (FixArray below 16, then Array16 and Array32, a failure beyond). *)
Definition WriteArrayHeader (l : Z) : M Encoder unit :=
  if l <? 16 then WriteByte (Z.lor Code.FixArray0 (uint8 l))
  else if l <=? MaxUint16 then WriteByteUint16 Code.Array16 (uint16 l)
  else if l <=? MaxUint32 then WriteByteUint32 Code.Array32 (uint32 l)
  else fail (Errorf "msgpack: array is too long").

(** Modelled from the spec: [WriteMapHeader], the map header of section 4.5
    (FixMap below 16, then Map16 and Map32, a failure beyond). *)
Definition WriteMapHeader (l : Z) : M Encoder unit :=
  if l <? 16 then WriteByte (Z.lor Code.FixMap0 (uint8 l))
  else if l <=? MaxUint16 then WriteByteUint16 Code.Map16 (uint16 l)
  else if l <=? MaxUint32 then WriteByteUint32 Code.Map32 (uint32 l)
  else fail (Errorf "msgpack: map is too long").

End Writer.

(** ** Scalar encoders *)

Definition EncodeNil : M Encoder unit := Writer.WriteByte Code.Nil.

Definition EncodeBool (b : bool) : M Encoder unit :=
  let code := if b then Code.True else Code.False in
  Writer.WriteByte code.

(** Floats are held by their bit patterns ([math.Float32bits]). *)
Definition EncodeFloat32 (f : Z) : M Encoder unit :=
  wrap (Writer.WriteByteUint32 Code.Float f) "msgpack: failed to write Float".

Definition EncodeFloat64 (f : Z) : M Encoder unit :=
  wrap (Writer.WriteByteUint64 Code.Double f) "msgpack: failed to write Double".

Definition EncodeUint8 (i : Z) : M Encoder unit :=
  wrap (Writer.WriteByteUint8 Code.Uint8 i) "msgpack: failed to write Uint8".

Definition EncodeUint16 (i : Z) : M Encoder unit :=
  wrap (Writer.WriteByteUint16 Code.Uint16 i) "msgpack: failed to write Uint16".

Definition EncodeUint32 (i : Z) : M Encoder unit :=
  wrap (Writer.WriteByteUint32 Code.Uint32 i) "msgpack: failed to write Uint32".

Definition EncodeUint64 (i : Z) : M Encoder unit :=
  wrap (Writer.WriteByteUint64 Code.Uint64 i) "msgpack: failed to write Uint64".

Definition EncodeInt8 (i : Z) : M Encoder unit :=
  wrap (Writer.WriteByteUint8 Code.Int8 (uint8 i))
       "msgpack: failed to write Int8".

Definition EncodeInt16 (i : Z) : M Encoder unit :=
  wrap (Writer.WriteByteUint16 Code.Int16 (uint16 i))
       "msgpack: failed to write Int16".

Definition EncodeInt32 (i : Z) : M Encoder unit :=
  wrap (Writer.WriteByteUint32 Code.Int32 (uint32 i))
       "msgpack: failed to write Int32".

Definition EncodeInt64 (i : Z) : M Encoder unit :=
  wrap (Writer.WriteByteUint64 Code.Int64 (uint64 i))
       "msgpack: failed to write Int64".

Definition writePreamble (code : Z) (w : Z) (l : Z) : M Encoder unit :=
  wrap (Writer.WriteByte code) "msgpack: failed to write code" ;;
  if w =? 1 then
    wrap (Writer.WriteUint8 (uint8 l)) "msgpack: failed to write length"
  else if w =? 2 then
    wrap (Writer.WriteUint16 (uint16 l)) "msgpack: failed to write length"
  else if w =? 4 then
    wrap (Writer.WriteUint32 (uint32 l)) "msgpack: failed to write length"
  else ret tt.

Definition EncodeBytes (b : list Z) : M Encoder unit :=
  let l := len b in
  cw <- (if l <=? MaxUint8 then ret (Code.Bin8, 1)
         else if l <=? MaxUint16 then ret (Code.Bin16, 2)
         else if l <=? MaxUint32 then ret (Code.Bin32, 4)
         else fail (Errorf "msgpack: string is too long (len=%d)")) ;;
  wrap (writePreamble cw.1 cw.2 l) "msgpack: failed to write []byte preamble" ;;
  unchecked (Writer.Write b).

Definition EncodeString (s : string) : M Encoder unit :=
  let l := strlen s in
  (if l <? 32 then
     unchecked (Writer.WriteByte (Z.lor Code.FixStr0 (uint8 l)))
   else if l <=? MaxUint8 then
     unchecked (Writer.WriteByte Code.Str8) ;;
     unchecked (Writer.WriteUint8 (uint8 l))
   else if l <=? MaxUint16 then
     unchecked (Writer.WriteByte Code.Str16) ;;
     unchecked (Writer.WriteUint16 (uint16 l))
   else if l <=? MaxUint32 then
     unchecked (Writer.WriteByte Code.Str32) ;;
     unchecked (Writer.WriteUint32 (uint32 l))
   else fail (Errorf "msgpack: string is too long (len=%d)")) ;;
  unchecked (Writer.WriteString s).

(** ** Extension encoder *)

(** Both the encoder and the decoder reach the process-wide pool. *)
Class HasPool (S : Type) : Type := {
  the_pool : S → Pool;
  with_pool : Pool → S → S
}.
#[export] Instance Encoder_pool : HasPool Encoder :=
  {| the_pool := epool; with_pool p e := mkEncoder (dst e) p |}.
#[export] Instance Decoder_pool : HasPool Decoder :=
  {| the_pool := dpool; with_pool p d := mkDecoder (r d) p |}.

Module bufferpool.
Definition Get {S} `{HasPool S} : M S nat :=
  λ s, let '(h, p) := pool_get (the_pool s) in (Ok h, with_pool p s).
Definition Release {S} `{HasPool S} (buf : nat) (s : S) : S :=
  with_pool (pool_release buf (the_pool s)) s.
End bufferpool.

(** The methods of a scratch [bytes.Buffer]. *)
Definition buf_Write {S} `{HasPool S} (buf : nat) (bs : list Z) : M S unit :=
  λ s, (Ok tt, with_pool (buf_write buf bs (the_pool s)) s).
Definition buf_Len {S} `{HasPool S} (buf : nat) : M S Z :=
  λ s, (Ok (len (buf_bytes (the_pool s) buf)), s).
Definition buf_Bytes {S} `{HasPool S} (buf : nat) : M S (list Z) :=
  λ s, (Ok (buf_bytes (the_pool s) buf), s).
Definition buf_String {S} `{HasPool S} (buf : nat) : M S string :=
  λ s, (Ok (string_of_bytes (buf_bytes (the_pool s) buf)), s).
(** [buf.WriteTo(e.dst)] drains the buffer into the destination. *)
Definition buf_WriteTo_dst (buf : nat) : M Encoder unit :=
  λ e, (Ok tt, mkEncoder (dst e ++ buf_bytes (epool e) buf)
                         (buf_set buf [] (epool e))).

(** An [EncodeMsgpackExter] at hand: what its [EncodeMsgpackExt] writes to
    the writer it is given, and the error it returns. *)
Definition EncodeMsgpackExter : Type := list Z * option error.

Definition EncodeExt (typ : Z) (v : EncodeMsgpackExter) : M Encoder unit :=
  buf <- bufferpool.Get ;;
  defer (bufferpool.Release buf) (
    buf_Write buf v.1 ;;
    return_with tt
      (Wrapf v.2 "msgpack: failed during call to EncodeMsgpackExt for %s") ;;
    l <- buf_Len buf ;;
    (if l =? 1 then
       wrap (Writer.WriteByte Code.FixExt1) "msgpack: failed to write fixext1 code"
     else if l =? 2 then
       wrap (Writer.WriteByte Code.FixExt2) "msgpack: failed to write fixext2 code"
     else if l =? 4 then
       wrap (Writer.WriteByte Code.FixExt4) "msgpack: failed to write fixext4 code"
     else if l =? 8 then
       wrap (Writer.WriteByte Code.FixExt8) "msgpack: failed to write fixext8 code"
     else if l =? 16 then
       wrap (Writer.WriteByte Code.FixExt16) "msgpack: failed to write fixext16 code"
     else if l <=? MaxUint8 then
       wrap (Writer.WriteByte Code.Ext8) "msgpack: failed to write ext8 code" ;;
       wrap (Writer.WriteByte (uint8 l))
            "msgpack: failed to write ext8 payload length"
     else if l <=? MaxUint16 then
       wrap (Writer.WriteByte Code.Ext16) "msgpack: failed to write ext16 code" ;;
       wrap (Writer.WriteUint16 (uint16 l))
            "msgpack: failed to write ext16 payload length"
     else if l <=? MaxUint32 then
       wrap (Writer.WriteByte Code.Ext32) "msgpack: failed to write ext32 code" ;;
       wrap (Writer.WriteUint32 (uint32 l))
            "msgpack: failed to write ext32 payload length"
     else fail (Errorf "msgpack: extension payload too large: %d bytes")) ;;
    wrap (Writer.WriteByte (uint8 typ)) "msgpack: failed to write typ code" ;;
    wrap (buf_WriteTo_dst buf) "msgpack: failed to write extention payload").

(** ** Struct tags and zero values *)

(** [strings.Split(s, ",")]. *)
Fixpoint Split_comma (s : string) : list string :=
  match s with
  | EmptyString => [EmptyString]
  | String c s' =>
      if Ascii.eqb c "," then EmptyString :: Split_comma s'
      else match Split_comma s' with
           | x :: xs => String c x :: xs
           | [] => [String c EmptyString]
           end
  end.

Definition parseMsgpackTag (rv : StructField) : string * bool :=
  let tag := Tag rv in
  if String.eqb tag "" then (Name rv, false)
  else
    let l := Split_comma tag in
    let name :=
      match l with
      | l0 :: _ => if negb (String.eqb l0 "") then l0 else Name rv
      | [] => Name rv
      end in
    let omitempty :=
      match l with
      | _ :: l1 :: _ => String.eqb l1 "omitempty"
      | _ => false
      end in
    (name, omitempty).

(** [reflect.DeepEqual(field.Interface(), reflect.Zero(T).Interface())] for
    a field of declared type [T] that holds [v]: floats compare by [==]
    (both zeros are equal), a non-nil slice, map or pointer differs from the
    nil one, an interface is equal to nil only when it is nil. *)
Fixpoint DeepEqualZero (T : GoType) (v : Value) {struct v} : bool :=
  match T, v with
  | TInterface, VNil => true
  | TInterface, _ => false
  | _, VBool b => negb b
  | _, VInt _ n | _, VUint _ n => n =? 0
  | _, VFloat32 f => (f =? 0) || (f =? 2 ^ 31)
  | _, VFloat64 f => (f =? 0) || (f =? 2 ^ 63)
  | _, VString s => String.eqb s ""
  | _, VNilOf _ => true
  | _, VStruct _ fs vals =>
      (fix all (fs : list StructField) (vs : list Value) {struct vs} : bool :=
         match fs, vs with
         | f :: fs', x :: vs' => DeepEqualZero (Typ f) x && all fs' vs'
         | _, _ => true
         end) fs vals
  | _, _ => false
  end.

(** ** The encoder façade and the composite encoders *)

Definition forM_ {S A} (f : A → M S unit) : list A → M S unit :=
  fix go (l : list A) : M S unit :=
    match l with
    | [] => ret tt
    | x :: l' => f x ;; go l'
    end.

Section Encoding.
Context (env : Env).

Definition isExtType (t : GoType) : option Z := extEncodeRegistry env t.

(** The [EncodeMsgpack] method of [t], when [t] implements
    [EncodeMsgpacker]. *)
Definition isEncodeMsgpacker (t : GoType) : option (Value → M Encoder unit) :=
  EncodeMsgpack env t.

Definition EncodeArrayHeader (l : Z) : M Encoder unit :=
  wrap (Writer.WriteArrayHeader l) "msgpack: failed to write array header".

(** The element kinds for which [EncodeArray] and [EncodeMap] have a typed
    loop of their own. *)
Definition has_fast_path (k : reflect.Kind) : bool :=
  match k with
  | reflect.String | reflect.Bool
  | reflect.Int | reflect.Int8 | reflect.Int16 | reflect.Int32 | reflect.Int64
  | reflect.Uint | reflect.Uint8 | reflect.Uint16 | reflect.Uint32
  | reflect.Uint64 | reflect.Float32 | reflect.Float64 => true
  | _ => false
  end.

(** Modelled from the spec: the typed loops [encodeArrayString],
    [encodeArrayInt8], ... are not in the sources at hand; by section 4.5
    their output equals the generic path's, so each element is encoded by the
    encoder of its type. *)
Definition encodeArrayTyped (enc : Value → M Encoder unit) (l : list Value)
  : M Encoder unit :=
  forM_ enc l.

(** The composite encoders call back into [Encode]; they take it as [enc]
    and the knot is tied in [Encode] below. *)
Definition EncodeArray_ (enc : Value → M Encoder unit) (v : Value)
  : M Encoder unit :=
  match v with
  | VBytes b =>
      (* element kind Uint8: the typed loop, over the bytes themselves *)
      EncodeArrayHeader (len b) ;;
      forM_ EncodeUint8 b
  | VSlice elem l =>
      EncodeArrayHeader (len l) ;;
      if has_fast_path (reflect.KindOf elem) then encodeArrayTyped enc l
      else forM_ (λ x, wrap (enc x) "msgpack: failed to write array payload") l
  | VNilOf (TSlice _) => EncodeArrayHeader 0
  | _ => fail (Errorf "msgpack: argument must be an array or a slice")
  end.

Definition encodeMapPair (enc : Value → M Encoder unit) (kv : Value * Value)
  : M Encoder unit :=
  match kv.1 with
  | VString key =>
      wrap (EncodeString key) "failed to encode map key" ;;
      wrap (enc kv.2) "failed to encode map value"
  | _ => panic "interface conversion: interface {} is not string"
  end.

(** Modelled from the spec: the typed loops [encodeMapString],
    [encodeMapInt8], ... are not in the sources at hand; by section 4.5 they
    emit, as the generic path does, each key as a string and each value by
    the encoder of its type. *)
Definition encodeMapTyped (enc : Value → M Encoder unit)
  (m : list (Value * Value)) : M Encoder unit :=
  forM_ (λ kv, match kv.1 with
               | VString key => EncodeString key ;; enc kv.2
               | _ => panic "interface conversion: interface {} is not string"
               end) m.

Definition EncodeMap_ (enc : Value → M Encoder unit) (v : Value)
  : M Encoder unit :=
  match v with
  | VMap key elem m =>
      if negb (reflect.Kind_eqb (reflect.KindOf key) reflect.String) then
        fail (Errorf "msgpack: keys to maps must be strings (not %s)")
      else
        unchecked (Writer.WriteMapHeader (len m)) ;;
        if has_fast_path (reflect.KindOf elem) then encodeMapTyped enc m
        else forM_ (encodeMapPair enc) m
  | VNilOf (TMap key elem) =>
      if negb (reflect.Kind_eqb (reflect.KindOf key) reflect.String) then
        fail (Errorf "msgpack: keys to maps must be strings (not %s)")
      else unchecked (Writer.WriteMapHeader 0)
  | _ => fail (Errorf "msgpack: argument to EncodeMap must be a map (not %s)")
  end.

(** What [EncodeStruct] does with one field: [None] when the field is
    skipped (unexported, named "-", or zero under omitempty), else the
    on-wire name under which it is added to the [MapBuilder]. *)
Definition struct_entry (ft : StructField) (field : Value) : option string :=
  if negb (String.eqb (PkgPath ft) "") then None
  else
    let '(name, omitempty) := parseMsgpackTag ft in
    if String.eqb name "-" then None
    else if omitempty && DeepEqualZero (Typ ft) field then None
    else Some name.

(** The number of pairs added to the builder. *)
Fixpoint struct_count (fs : list StructField) (vals : list Value) : Z :=
  match fs, vals with
  | ft :: fs', field :: vals' =>
      (if struct_entry ft field is Some _ then 1 else 0) + struct_count fs' vals'
  | _, _ => 0
  end.

(** Modelled from the spec: [MapBuilder] is not in the sources at hand; by
    section 4.6 it gathers the pairs and, the count known, emits the map
    header and then each key and value. *)
Definition MapBuilder_pairs (enc : Value → M Encoder unit)
  : list StructField → list Value → M Encoder unit :=
  fix go (fs : list StructField) (vals : list Value) {struct vals} :=
    match fs, vals with
    | ft :: fs', field :: vals' =>
        match struct_entry ft field with
        | None => go fs' vals'
        | Some name => EncodeString name ;; enc field ;; go fs' vals'
        end
    | _, _ => ret tt
    end.

Definition EncodeStruct_ (enc : Value → M Encoder unit) (v : Value)
  : M Encoder unit :=
  match v with
  | VStruct _ fs vals =>
      wrap (Writer.WriteMapHeader (struct_count fs vals) ;;
            MapBuilder_pairs enc fs vals)
           "msgpack: failed to write map payload"
  | _ =>
      fail (Errorf "msgpack: argument to EncodeStruct must be a struct (not %s)")
  end.

(** [Encode] is the switch on the static type [Encode_], followed by the
    loop [indirect] that strips pointers and interfaces and then switches on
    the kind; the composite encoders call back into [Encode]. *)
Definition Encode_ (indirect : Value → M Encoder unit) (v : Value)
  : M Encoder unit :=
  match v with
  | VString s => EncodeString s
  | VBytes b => EncodeBytes b
  | VNilOf (TSlice (TUint W8)) => EncodeBytes []
  | VBool b => EncodeBool b
  | VFloat32 f => EncodeFloat32 f
  | VFloat64 f => EncodeFloat64 f
  | VUint Wplatform n => EncodeUint64 (uint64 n)
  | VUint W8 n => EncodeUint8 n
  | VUint W16 n => EncodeUint16 n
  | VUint W32 n => EncodeUint32 n
  | VUint W64 n => EncodeUint64 n
  | VInt Wplatform n => EncodeInt64 (int64 n)
  | VInt W8 n => EncodeInt8 n
  | VInt W16 n => EncodeInt16 n
  | VInt W32 n => EncodeInt32 n
  | VInt W64 n => EncodeInt64 n
  | _ => indirect v
  end.

Fixpoint indirect (rv : Value) {struct rv} : M Encoder unit :=
  match reflect.TypeOf rv with
  | None => EncodeNil
  | Some t =>
      match isExtType t with
      | Some typ =>
          match EncodeMsgpackExt env t with
          | Some m => EncodeExt typ (m rv)
          | None => panic "interface conversion: missing method EncodeMsgpackExt"
          end
      | None =>
          match isEncodeMsgpacker t with
          | Some EncodeMsgpack => EncodeMsgpack rv
          | None =>
              match rv with
              | VPtr _ x => indirect x
              | VNilOf (TPtr _) => EncodeNil
              | VBytes _ | VSlice _ _ | VNilOf (TSlice _) =>
                  EncodeArray_ (Encode_ indirect) rv
              | VMap _ _ _ | VNilOf (TMap _ _) =>
                  EncodeMap_ (Encode_ indirect) rv
              | VStruct _ _ _ => EncodeStruct_ (Encode_ indirect) rv
              | _ =>
                  fail (Errorf "msgpack: encode unimplemented for type %s")
              end
          end
      end
  end.

Definition Encode : Value → M Encoder unit := Encode_ indirect.
Definition EncodeArray : Value → M Encoder unit := EncodeArray_ Encode.
Definition EncodeMap : Value → M Encoder unit := EncodeMap_ Encode.
Definition EncodeStruct : Value → M Encoder unit := EncodeStruct_ Encode.

End Encoding.

(** ** Readers *)

Definition with_reader (rd : bufio_Reader) (d : Decoder) : Decoder :=
  mkDecoder rd (dpool d).

(** The methods of [d.r], a [*bufio.Reader]. *)
Module bufio.

Definition ReadByte : M Decoder Z :=
  λ d, match unread (r d) with
       | [] => (Fail EOF, d)
       | b :: rest => (Ok b, with_reader (mkReader rest (Some b)) d)
       end.

(** [UnreadByte] pushes back the last byte read, once. *)
Definition UnreadByte : M Decoder unit :=
  λ d, match lastByte (r d) with
       | None => (Fail ErrInvalidUnreadByte, d)
       | Some b => (Ok tt, with_reader (mkReader (b :: unread (r d)) None) d)
       end.

(** Reading up to [n] bytes: the bytes delivered, fewer than [n] only at
    the end of the stream. *)
Definition Read (n : nat) : M Decoder (list Z) :=
  λ d, let got := take n (unread (r d)) in
       (Ok got,
        with_reader (mkReader (drop n (unread (r d)))
                              (match last got with
                               | Some b => Some b
                               | None => lastByte (r d)
                               end)) d).

End bufio.

Module io.

(** [io.ReadFull]: exactly [n] bytes or an error. *)
Definition ReadFull (n : nat) : M Decoder (list Z) :=
  got <- bufio.Read n ;;
  if (List.length got =? n)%nat then ret got
  else if (List.length got =? 0)%nat then fail EOF
  else fail ErrUnexpectedEOF.

(** [io.CopyN(buf, r, l)]: the bytes copied into [buf] and the error, nil
    when all [l] were there. *)
Definition CopyN (buf : nat) (l : Z) : M Decoder (Z * option error) :=
  if l <=? 0 then ret (0, None)
  else
    got <- bufio.Read (Z.to_nat l) ;;
    buf_Write buf got ;;
    ret (len got, if len got =? l then None else Some EOF).

(** What an [io.LimitReader(r, n)] can deliver. *)
Definition LimitReader (n : Z) (d : Decoder) : list Z :=
  take (Z.to_nat n) (unread (r d)).

End io.

Module Reader.
(** Modelled from the spec: the byte-stream reader [NewReader(r)] (section
    4.2), big-endian, a short read being an error, reading straight from the
    reader it wraps; [Reader] is declared outside the sources at hand. *)
Definition ReadByte : M Decoder Z :=
  bs <- io.ReadFull 1 ;; ret (from_big_endian bs).
Definition ReadUint8 : M Decoder Z :=
  bs <- io.ReadFull 1 ;; ret (from_big_endian bs).
Definition ReadUint16 : M Decoder Z :=
  bs <- io.ReadFull 2 ;; ret (from_big_endian bs).
Definition ReadUint32 : M Decoder Z :=
  bs <- io.ReadFull 4 ;; ret (from_big_endian bs).
Definition ReadUint64 : M Decoder Z :=
  bs <- io.ReadFull 8 ;; ret (from_big_endian bs).
End Reader.

(** ** Leaf decoders *)

(** The decoder structs: each holds the code it was made for. *)
Inductive valueDecoder : Type :=
| nilDecoder
| boolDecoder (code : Z)
| floatDecoder (code : Z)
| uintDecoder (code : Z)
| intDecoder (code : Z)
| extDecoder (code : Z)
| strDecoder (code : Z)
| fixstrDecoder (code : Z)
| arrayDecoder (code : Z)
| mapDecoder (code : Z)
| structDecoder (code : Z) (target : GoType).

Definition zeroval : Value := VNil.

(** The table [decoders]: its literal, then the entries [init] adds for the
    FixStr, FixArray and FixMap families. *)
Definition decoders_literal : gmap Z valueDecoder :=
  list_to_map [
    (Code.Nil, nilDecoder);
    (Code.True, boolDecoder Code.True);
    (Code.False, boolDecoder Code.False);
    (Code.Float, floatDecoder Code.Float);
    (Code.Double, floatDecoder Code.Double);
    (Code.Uint8, uintDecoder Code.Uint8);
    (Code.Uint16, uintDecoder Code.Uint16);
    (Code.Uint32, uintDecoder Code.Uint32);
    (Code.Uint64, uintDecoder Code.Uint64);
    (Code.Int8, intDecoder Code.Int8);
    (Code.Int16, intDecoder Code.Int16);
    (Code.Int32, intDecoder Code.Int32);
    (Code.Int64, intDecoder Code.Int64);
    (Code.Ext8, extDecoder Code.Ext8);
    (Code.FixExt8, extDecoder Code.FixExt8);
    (Code.Str8, strDecoder Code.Str8);
    (Code.Str16, strDecoder Code.Str16);
    (Code.Str32, strDecoder Code.Str32);
    (Code.Bin8, strDecoder Code.Bin8);
    (Code.Bin16, strDecoder Code.Bin16);
    (Code.Bin32, strDecoder Code.Bin32);
    (Code.Array16, arrayDecoder Code.Array16);
    (Code.Array32, arrayDecoder Code.Array32);
    (Code.Map16, mapDecoder Code.Map16);
    (Code.Map32, mapDecoder Code.Map32)
  ].

Definition init (decoders : gmap Z valueDecoder) : gmap Z valueDecoder :=
  let decoders :=
    foldl (λ decoders i,
             let code := uint8 (Code.FixStr0 + i) in
             <[code := fixstrDecoder code]> decoders)
          decoders (seqZ 0 32) in
  foldl (λ decoders i,
           let code := uint8 (Code.FixArray0 + i) in
           let decoders := <[code := arrayDecoder code]> decoders in
           let code := uint8 (Code.FixMap0 + i) in
           <[code := mapDecoder code]> decoders)
        decoders (seqZ 0 16).

Definition decoders : gmap Z valueDecoder := init decoders_literal.

Definition lookupDecoder (code : Z) : M Decoder valueDecoder :=
  match decoders !! code with
  | Some dec => ret dec
  | None => fail (Errorf "msgpack: decoder for %s not found")
  end.

Definition nilDecoder_Decode : M Decoder Value := ret zeroval.

Definition boolDecoder_Decode (code : Z) : M Decoder Value :=
  ret (VBool (code =? Code.True)).

Definition floatDecoder_Decode (code : Z) : M Decoder Value :=
  if code =? Code.Float then
    n <- wrap Reader.ReadUint32 "msgpack: failed to read uint32 for Float" ;;
    ret (VFloat32 n)
  else if code =? Code.Double then
    n <- wrap Reader.ReadUint64 "msgpack: failed to read uint64 for Float" ;;
    ret (VFloat64 n)
  else fail (Errorf "msgpack: unknown float code %s").

Definition uintDecoder_Decode (code : Z) : M Decoder Value :=
  if code =? Code.Uint8 then
    v <- wrap Reader.ReadUint8 "msgpack: failed to decode uint8" ;;
    ret (VUint W8 v)
  else if code =? Code.Uint16 then
    v <- wrap Reader.ReadUint16 "msgpack: failed to decode uint16" ;;
    ret (VUint W16 v)
  else if code =? Code.Uint32 then
    v <- wrap Reader.ReadUint32 "msgpack: failed to decode uint32" ;;
    ret (VUint W32 v)
  else if code =? Code.Uint64 then
    v <- wrap Reader.ReadUint64 "msgpack: failed to decode uint64" ;;
    ret (VUint W64 v)
  else fail (Errorf "msgpack: invalid code %s for uint").

Definition intDecoder_Decode (code : Z) : M Decoder Value :=
  if code =? Code.Int8 then
    v <- wrap Reader.ReadUint8 "msgpack: failed to decode int8" ;;
    ret (VInt W8 (int8 v))
  else if code =? Code.Int16 then
    v <- wrap Reader.ReadUint16 "msgpack: failed to decode int16" ;;
    ret (VInt W16 (int16 v))
  else if code =? Code.Int32 then
    v <- wrap Reader.ReadUint32 "msgpack: failed to decode uint32" ;;
    ret (VInt W32 (int32 v))
  else if code =? Code.Int64 then
    v <- wrap Reader.ReadUint64 "msgpack: failed to decode int64" ;;
    ret (VInt W64 (int64 v))
  else fail (Errorf "msgpack: invalid code %s for int").

Definition release_now {S} `{HasPool S} (buf : nat) : M S unit :=
  λ s, (Ok tt, bufferpool.Release buf s).

(** For the Bin codes the buffer just taken from the pool is returned as it
    is: the length has been read, the payload is not. *)
Definition strDecoder_Decode (code : Z) : M Decoder Value :=
  l <- (if (code =? Code.Str8) || (code =? Code.Bin8) then
          wrap Reader.ReadUint8
               "msgpack: failed to read length for string/byte slice"
        else if (code =? Code.Str16) || (code =? Code.Bin16) then
          wrap Reader.ReadUint16
               "msgpack: failed to read length for string/byte slice"
        else if (code =? Code.Str32) || (code =? Code.Bin32) then
          wrap Reader.ReadUint32
               "msgpack: failed to read length for string/byte slice"
        else ret 0) ;;
  buf <- bufferpool.Get ;;
  if (code =? Code.Bin8) || (code =? Code.Bin16) || (code =? Code.Bin32) then
    b <- buf_Bytes buf ;;
    ret (VBytes b)
  else
    defer (bufferpool.Release buf) (
      ne <- io.CopyN buf l ;;
      return_with tt (Wrap ne.2 "msgpack: failed to read string") ;;
      s <- buf_String buf ;;
      ret (VString s)).

(** The buffer is released first and filled afterwards: the copy lands in a
    buffer that the pool holds. *)
Definition fixstrDecoder_Decode (code : Z) : M Decoder Value :=
  let l := uint8 (code - Code.FixStr0) in
  buf <- bufferpool.Get ;;
  release_now buf ;;
  ne <- io.CopyN buf l ;;
  (if negb (ne.1 =? l) then
     return_with tt (Wrap ne.2 "msgpack: failed to decode FixStr (body)")
   else ret tt) ;;
  s <- buf_String buf ;;
  ret (VString s).

(** What [Decode] is handed: a non-nil pointer to a variable of type [T],
    a nil pointer, or something that is no pointer ([None]: nil). *)
Inductive Target : Type :=
| Pointer (T : GoType)
| NilPointer (T : GoType)
| NotPointer (T : option GoType).

Definition Target_type (v : Target) : option GoType :=
  match v with
  | Pointer T | NilPointer T => Some (TPtr T)
  | NotPointer T => T
  end.

Definition out_of_fuel {S A} : M S A := λ s, (OutOfFuel, s).

Definition as_string (v : Value) : string :=
  match v with
  | VString s => s
  | _ => EmptyString
  end.

Section Leaves.
(** [decode] is [dec.Decode] of the [NewDecoder(r)] a composite decoder
    makes over the reader it was given: [bufio.NewReader] hands back a
    [*bufio.Reader] of sufficient size as it is, so this decoder reads from
    the same buffered reader.  [fuel] bounds the loop. *)
Context (decode : Target → M Decoder Value).

Definition array_size (code : Z) : M Decoder Z :=
  if (Code.FixArray0 <=? code) && (code <=? Code.FixArray15) then
    ret (uint8 (code - Code.FixArray0))
  else if code =? Code.Array16 then
    wrap Reader.ReadUint16 "msgpack: failed to read array size for Array16"
  else if code =? Code.Array32 then
    wrap Reader.ReadUint32 "msgpack: failed to read array size for Array32"
  else fail (Errorf "msgpack: unsupported array type %s").

Fixpoint array_loop (fuel : nat) (i size : Z) (l : list Value)
  : M Decoder (list Value) :=
  if i <? size then
    match fuel with
    | O => out_of_fuel
    | S fuel' =>
        x <- wrap (decode (Pointer TInterface))
                  "msgpack: failed to decode array at index %d" ;;
        array_loop fuel' (i + 1) size (l ++ [x])
    end
  else ret l.

Definition arrayDecoder_Decode (fuel : nat) (code : Z) : M Decoder Value :=
  size <- array_size code ;;
  l <- array_loop fuel 0 size [] ;;
  ret (VSlice TInterface l).

Definition map_size (code : Z) : M Decoder Z :=
  if (Code.FixMap0 <=? code) && (code <=? Code.FixMap15) then
    ret (uint8 (code - Code.FixMap0))
  else if code =? Code.Map16 then
    wrap Reader.ReadUint16 "msgpack: failed to read map size for Map16"
  else if code =? Code.Map32 then
    wrap Reader.ReadUint32 "msgpack: failed to read map size for Map32"
  else fail (Errorf "msgpack: unsupported map type %s").

(** [m[key] = value] on a map kept as its list of pairs. *)
Fixpoint map_assign (key : string) (value : Value) (m : list (Value * Value))
  : list (Value * Value) :=
  match m with
  | [] => [(VString key, value)]
  | (k, x) :: m' =>
      if String.eqb (as_string k) key then (k, value) :: m'
      else (k, x) :: map_assign key value m'
  end.

Fixpoint map_loop (fuel : nat) (i size : Z) (m : list (Value * Value))
  : M Decoder (list (Value * Value)) :=
  if i <? size then
    match fuel with
    | O => out_of_fuel
    | S fuel' =>
        key <- wrap (decode (Pointer TString))
                    "msgpack: failed to decode fixmap key at index %d" ;;
        value <- wrap (decode (Pointer TInterface))
                      "msgpack: failed to decode fixmap value for key %s" ;;
        map_loop fuel' (i + 1) size (map_assign (as_string key) value m)
    end
  else ret m.

Definition mapDecoder_Decode (fuel : nat) (code : Z) : M Decoder Value :=
  size <- map_size code ;;
  m <- map_loop fuel 0 size [] ;;
  ret (VMap TString TInterface m).

(** The table from on-wire names to field positions that [structDecoder]
    builds; a later field of the same name replaces an earlier one. *)
Fixpoint name2field_from (i : nat) (fields : list StructField)
  (name2field : gmap string nat) : gmap string nat :=
  match fields with
  | [] => name2field
  | field :: fields' =>
      if negb (String.eqb (PkgPath field) "") then
        name2field_from (S i) fields' name2field
      else
        let name := (parseMsgpackTag field).1 in
        if String.eqb name "-" then name2field_from (S i) fields' name2field
        else name2field_from (S i) fields' (<[name := i]> name2field)
  end.

Definition is_ptr_to_struct (t : GoType) : bool :=
  match t with
  | TPtr e => reflect.Kind_eqb (reflect.KindOf e) reflect.Struct
  | _ => false
  end.

End Leaves.

(** ** The struct binder, the extension decoder and the decoder façade *)

Definition PeekCode : M Decoder Z :=
  b <- wrap bufio.ReadByte "msgpack: failed to peek code" ;;
  wrap bufio.UnreadByte "msgpack: failed to unread code" ;;
  ret b.

(** [x.Set(v)] of package reflect: [v] must be assignable to the type of
    the variable. *)
Definition assignable (V : option GoType) (T : GoType) : bool :=
  match V with
  | None => false
  | Some V => type_eqb V T || reflect.Kind_eqb (reflect.KindOf T) reflect.Interface
  end.

Definition Value_Set {S} (T : GoType) (v : Value) : M S Value :=
  if assignable (reflect.TypeOf v) T then ret v
  else panic "reflect.Set: value is not assignable to type".

Section Decoding.
Context (env : Env).

Section Binder.
Context (decode : Target → M Decoder Value).

(** One round of the loop of [structDecoder.Decode] over the fields [vals]
    of the struct being filled.  A key that names no field ends the round at
    once: its value stays in the stream. *)
Definition struct_round (fields : list StructField)
  (name2field : gmap string nat) (vals : list Value)
  : M Decoder (list Value) :=
  key <- wrap (decode (Pointer TString))
              "msgpack: failed to decode struct key at index %d" ;;
  match name2field !! as_string key with
  | None => ret vals
  | Some i =>
      let ftype := default TInterface (Typ <$> fields !! i) in
      let f := default VNil (vals !! i) in
      if reflect.Kind_eqb (reflect.KindOf ftype) reflect.Struct then
        x <- wrap (decode (Pointer ftype))
                  "msgpack: failed to decode struct value for key %s" ;;
        ret (<[i := x]> vals)
      else if is_ptr_to_struct ftype then
        match f with
        | VPtr e pointee =>
            x <- wrap (decode (Pointer e))
                      "msgpack: failed to decode struct value for key %s" ;;
            ret (<[i := VPtr e x]> vals)
        | _ =>
            wrap (decode (match ftype with
                          | TPtr e => NilPointer e
                          | _ => NotPointer (Some ftype)
                          end))
                 "msgpack: failed to decode struct value for key %s" ;;
            ret vals
        end
      else
        value <- wrap (decode (Pointer TInterface))
                      "msgpack: failed to decode struct value for key %s" ;;
        match reflect.TypeOf value with
        | None => panic "reflect: call of reflect.Value.Type on zero Value"
        | Some fvType =>
            if negb (reflect.ConvertibleTo fvType ftype) then
              fail (Errorf "msgpack: cannot convert from %s to %s")
            else
              ret (<[i := reflect.Convert value ftype]> vals)
        end
  end.

Fixpoint struct_loop (fuel : nat) (fields : list StructField)
  (name2field : gmap string nat) (i size : Z) (vals : list Value)
  : M Decoder (list Value) :=
  if i <? size then
    match fuel with
    | O => out_of_fuel
    | S fuel' =>
        vals' <- struct_round fields name2field vals ;;
        struct_loop fuel' fields name2field (i + 1) size vals'
    end
  else ret vals.

Definition structDecoder_Decode (fuel : nat) (code : Z) (target : GoType)
  : M Decoder Value :=
  size <- map_size code ;;
  match target with
  | TStruct name fields =>
      let s := match reflect.Zero target with
               | VStruct _ _ vals => vals
               | _ => []
               end in
      let name2field := name2field_from 0 fields ∅ in
      vals <- struct_loop fuel fields name2field 0 size s ;;
      ret (VPtr target (VStruct name fields vals))
  | _ => panic "reflect: NumField of non-struct type"
  end.

(** Only for [Ext8] is a length read, and only for [FixExt8] is one
    implied; every other code leaves [payloadSize] at zero.  When the type
    byte names no registered type, the error that is wrapped is the nil
    error of the read that just succeeded. *)
Definition extDecoder_Decode (code : Z) : M Decoder Value :=
  let size := if code =? Code.Ext8 then 1 else 0 in
  payloadSize <-
    (if 0 <? size then
       if code =? Code.Ext8 then
         wrap Reader.ReadUint8 "msgpack: failed to read size for ext8 value"
       else if code =? Code.Ext16 then
         wrap Reader.ReadUint16 "msgpack: failed to read size for ext16 value"
       else if code =? Code.Ext32 then
         wrap Reader.ReadUint32 "msgpack: failed to read size for ext32 value"
       else fail (Errorf "msgpack: unsupported ext %s")
     else if code =? Code.FixExt8 then ret 8
     else ret 0) ;;
  read <- catch Reader.ReadByte ;;
  let '(err, b) := read in
  match err with
  | Some e => fail (Wrapped "msgpack: failed to read type byte" e)
  | None =>
      let exttyp := default 0 b in
      match extDecodeRegistry env !! exttyp with
      | None =>
          return_with zeroval
            (Wrapf err "msgpack: failed to lookup msgpack type %d")
      | Some typ =>
          match DecodeMsgpackExt env (TPtr typ) with
          | Some method =>
              λ d,
                let window := io.LimitReader payloadSize d in
                let '(n, result) := method window in
                (got <- bufio.Read (n `min` List.length window) ;;
                 match result with
                 | inl rv => ret (VPtr typ rv)
                 | inr e =>
                     fail (Wrapped "msgpack: failed to call DecodeMsgpackExt" e)
                 end) d
          | None =>
              fail (Errorf "msgpack: %s does not implement DecodeMsgpackExter")
          end
      end
  end.

(** [dec.Decode(d.r)], by the dynamic type of [dec]. *)
Definition valueDecoder_Decode (fuel : nat) (dec : valueDecoder)
  : M Decoder Value :=
  match dec with
  | nilDecoder => nilDecoder_Decode
  | boolDecoder code => boolDecoder_Decode code
  | floatDecoder code => floatDecoder_Decode code
  | uintDecoder code => uintDecoder_Decode code
  | intDecoder code => intDecoder_Decode code
  | extDecoder code => extDecoder_Decode code
  | strDecoder code => strDecoder_Decode code
  | fixstrDecoder code => fixstrDecoder_Decode code
  | arrayDecoder code => arrayDecoder_Decode decode fuel code
  | mapDecoder code => mapDecoder_Decode decode fuel code
  | structDecoder code target => structDecoder_Decode fuel code target
  end.

(** The decoder [Decode] picks for a code: the struct binder when the code
    is of the Map family and the variable is a struct, else the one the
    table has. *)
Definition select_decoder (code : Z) (T : GoType) : M Decoder valueDecoder :=
  if Code.IsMapFamily code
     && reflect.Kind_eqb (reflect.KindOf T) reflect.Struct
  then ret (structDecoder code T)
  else wrap (lookupDecoder code)
            "msgpack: failed to lookup decoder for code %s".

(** The end of [Decode]: what was decoded goes into the variable of type
    [T]; a pointer to a [T] is dereferenced first; nothing decoded leaves
    the zero value. *)
Definition assign_decoded {S} (T : GoType) (decoded : Value) : M S Value :=
  if reflect.IsValid decoded then
    match decoded with
    | VPtr e x => if type_eqb e T then Value_Set T x else Value_Set T decoded
    | VNilOf (TPtr e) =>
        if type_eqb e T then Value_Set T VNil else Value_Set T decoded
    | _ => Value_Set T decoded
    end
  else ret (reflect.Zero T).

(** The body of [Decoder.Decode]; the result is the value left in the
    variable that [v] points to. *)
Definition Decode_body (fuel : nat) (v : Target) : M Decoder Value :=
  match Target_type v ≫= DecodeMsgpack env with
  | Some dm => dm
  | None =>
      match v with
      | NotPointer _ | NilPointer _ => fail InvalidDecodeError
      | Pointer T =>
          code <- wrap PeekCode "msgpack: failed to peek code" ;;
          unchecked bufio.ReadByte ;;
          dec <- select_decoder code T ;;
          decoded <- wrap (valueDecoder_Decode fuel dec)
                          "msgpack: failed to decode value" ;;
          assign_decoded T decoded
      end
  end.

End Binder.

(** [Decode] with its recursion unrolled [fuel] times. *)
Fixpoint Decode_ (fuel : nat) (v : Target) : M Decoder Value :=
  match fuel with
  | O => out_of_fuel
  | S fuel' => Decode_body (Decode_ fuel') fuel' v
  end.

(** Each nested [Decode] and each round of a loop reads at least the tag
    byte of a frame, so the number of unread bytes bounds both. *)
Definition Decode (v : Target) : M Decoder Value :=
  λ d, Decode_ (S (List.length (unread (r d)))) v d.

End Decoding.

(** ** Environments and states used in the statements below *)

(** A program that registers no extension and whose types have no codec
    methods of their own. *)
Definition no_user_types : Env :=
  mkEnv (λ _, None) ∅ (λ _, None) (λ _, None) (λ _, None) (λ _, None).

(** A program with one extension type, [Stamp], registered under code 5 in
    both directions: its encoder writes the raw bytes it holds, its decoder
    keeps all the bytes its bounded reader delivers. *)
Definition Stamp_fields : list StructField :=
  [mkField "Raw" "" "" (TSlice (TUint W8))].
Definition Stamp : GoType := TStruct "Stamp" Stamp_fields.

Definition Stamp_EncodeMsgpackExt (v : Value) : list Z * option error :=
  match v with
  | VStruct _ _ [VBytes raw] => (raw, None)
  | _ => ([], Some (UserError "stamp: nothing to write"))
  end.

Definition Stamp_DecodeMsgpackExt (window : list Z) : nat * (Value + error) :=
  (List.length window, inl (VStruct "Stamp" Stamp_fields [VBytes window])).

Definition with_Stamp : Env :=
  mkEnv (λ t, if type_eqb t Stamp then Some 5 else None)
        {[ 5 := Stamp ]}
        (λ t, if type_eqb t Stamp then Some Stamp_EncodeMsgpackExt else None)
        (λ _, None)
        (λ _, None)
        (λ t, if type_eqb t (TPtr Stamp) then Some Stamp_DecodeMsgpackExt
              else None).

Definition NewEncoder : Encoder := mkEncoder [] empty_pool.

(** The encoder [e] after its destination has received [bs]. *)
Definition emit (bs : list Z) (e : Encoder) : Encoder :=
  mkEncoder (dst e ++ bs) (epool e).

(** The fix-int codes of the catalogue. *)
Definition fixint_codes : list Z := seqZ 0x00 0x80 ++ seqZ 0xe0 0x20.

(** The record of the unknown-field example: one exported field, bound to
    the on-wire name "n". *)
Definition Named_fields : list StructField := [mkField "Name" "" "n" TString].
Definition Named : GoType := TStruct "Named" Named_fields.

(** The record of the conversion examples: a field of type [uint8] and a
    field of type [string], bound to "a" and "s". *)
Definition Narrow_fields : list StructField :=
  [mkField "A" "" "a" (TUint W8); mkField "S" "" "s" TString].
Definition Narrow : GoType := TStruct "Narrow" Narrow_fields.

(** The integers among the decoded values. *)
Definition integer_value (value : Value) (n : Z) : Prop :=
  ∃ w, value = VInt w n ∨ value = VUint w n.


(** The number of bytes a decoder has yet to read. *)
Definition avail (d : Decoder) : Z := len (unread (r d)).

(** A computation is tame when it never runs out of fuel and gives no byte
    back to the stream. *)
Definition tame {A} (m : M Decoder A) : Prop :=
  ∀ d, (m d).1 ≠ OutOfFuel ∧ avail (m d).2 <= avail d.

(** Below a bound [n] on the unread bytes: [m] never runs out of fuel and
    gives no byte back ([below]), and moreover reads at least one byte
    whenever it succeeds ([strict]). *)
Definition below (n : Z) {A} (m : M Decoder A) : Prop :=
  ∀ d, avail d < n → (m d).1 ≠ OutOfFuel ∧ avail (m d).2 <= avail d.

Definition strict (n : Z) {A} (m : M Decoder A) : Prop :=
  ∀ d, avail d < n →
    (m d).1 ≠ OutOfFuel ∧ avail (m d).2 <= avail d ∧
    ∀ a, (m d).1 = Ok a → avail (m d).2 < avail d.

(** What the composite decoders need of the [decode] they call. *)
Definition good (n : Z) (decode : Target → M Decoder Value) : Prop :=
  (∀ v, below n (decode v)) ∧ (∀ T, strict n (decode (Pointer T))).


(** The code of the unsigned and of the signed integer frame of a width, and
    the number of payload bytes of such a frame. *)
Definition uint_code (w : width) : Z :=
  match w with
  | W8 => Code.Uint8
  | W16 => Code.Uint16
  | W32 => Code.Uint32
  | W64 | Wplatform => Code.Uint64
  end.

Definition int_code (w : width) : Z :=
  match w with
  | W8 => Code.Int8
  | W16 => Code.Int16
  | W32 => Code.Int32
  | W64 | Wplatform => Code.Int64
  end.

Definition octets (w : width) : nat :=
  match w with
  | W8 => 1
  | W16 => 2
  | W32 => 4
  | W64 | Wplatform => 8
  end.

(** A decoder about to read [stream]. *)
Definition reading (stream : list Z) (last : option Z) (pool : Pool) : Decoder :=
  mkDecoder (mkReader stream last) pool.

(** The Str and Bin codes by the number of bytes of their length field. *)
Definition str_code (k : nat) : Z :=
  match k with
  | 1%nat => Code.Str8
  | 2%nat => Code.Str16
  | _ => Code.Str32
  end.

Definition bin_code (k : nat) : Z :=
  match k with
  | 1%nat => Code.Bin8
  | 2%nat => Code.Bin16
  | _ => Code.Bin32
  end.

(** The number of bytes of the length field of a Str or Bin frame. *)
Definition length_octets (l : Z) : nat :=
  if l <=? MaxUint8 then 1 else if l <=? MaxUint16 then 2 else 4.

(** The decoders that decode no nested value. *)
Definition is_leaf (dec : valueDecoder) : bool :=
  match dec with
  | arrayDecoder _ | mapDecoder _ | structDecoder _ _ => false
  | _ => true
  end.

(** An unsigned integer of a declared width, its value in the host and its
    frame on the wire. *)
Definition uint_value (x : width * Z) : Value := VUint x.1 x.2.
Definition uint_frame (x : width * Z) : list Z :=
  uint_code x.1 :: big_endian (octets x.1) x.2.
Definition uint_fits (x : width * Z) : Prop :=
  x.1 ≠ Wplatform ∧ 0 <= x.2 < 2 ^ bits x.1.

(** The name under which the struct binder looks a field up: none for an
    unexported field and for a field whose name, after its tag, is "-". *)
Definition wire_name (field : StructField) : option string :=
  if negb (String.eqb (PkgPath field) "") then None
  else
    let name := (parseMsgpackTag field).1 in
    if String.eqb name "-" then None else Some name.

(** A string without a comma. *)
Definition comma_free (s : string) : Prop :=
  ¬ In ","%char (list_ascii_of_string s).

(** The head of an extension frame for a payload of [l] bytes: the tag
    and, for the Ext codes, the length. *)
Definition ext_header (l : Z) : list Z :=
  if l =? 1 then [Code.FixExt1]
  else if l =? 2 then [Code.FixExt2]
  else if l =? 4 then [Code.FixExt4]
  else if l =? 8 then [Code.FixExt8]
  else if l =? 16 then [Code.FixExt16]
  else if l <=? MaxUint8 then Code.Ext8 :: big_endian 1 l
  else if l <=? MaxUint16 then Code.Ext16 :: big_endian 2 l
  else Code.Ext32 :: big_endian 4 l.

(** A pair of a map from short strings to unsigned integers: its value in
    the host and its two frames on the wire. *)
Definition pair_value (kv : string * (width * Z)) : Value * Value :=
  (VString kv.1, uint_value kv.2).
Definition pair_frame (kv : string * (width * Z)) : list Z :=
  ((0xa0 + strlen kv.1) :: bytes_of_string kv.1) ++ uint_frame kv.2.
Definition pair_fits (kv : string * (width * Z)) : Prop :=
  strlen kv.1 < 32 ∧ uint_fits kv.2.

(** ** The typed entry points of the decoder *)

(** Each declares a variable of its type, decodes into it and returns what
    the variable then holds. *)
Section TypedDecoders.
Context (env : Env).

Definition DecodeNil : M Decoder unit :=
  wrap (Decode env (Pointer TInterface)) "failed to decode nil" ;;
  ret tt.

Definition DecodeBool : M Decoder Value :=
  wrap (Decode env (Pointer TBool)) "failed to decode bool".

Definition DecodeFloat32 : M Decoder Value :=
  wrap (Decode env (Pointer TFloat32)) "failed to decode float32".

Definition DecodeFloat64 : M Decoder Value :=
  wrap (Decode env (Pointer TFloat64)) "failed to decode float64".

Definition DecodeUint8 : M Decoder Value :=
  wrap (Decode env (Pointer (TUint W8))) "failed to decode uint8".

Definition DecodeUint16 : M Decoder Value :=
  wrap (Decode env (Pointer (TUint W16))) "failed to decode uint16".

Definition DecodeUint32 : M Decoder Value :=
  wrap (Decode env (Pointer (TUint W32))) "failed to decode uint32".

Definition DecodeUint64 : M Decoder Value :=
  wrap (Decode env (Pointer (TUint W64))) "failed to decode uint64".

Definition DecodeInt8 : M Decoder Value :=
  wrap (Decode env (Pointer (TInt W8))) "failed to decode int8".

Definition DecodeInt16 : M Decoder Value :=
  wrap (Decode env (Pointer (TInt W16))) "failed to decode int16".

Definition DecodeInt32 : M Decoder Value :=
  wrap (Decode env (Pointer (TInt W32))) "failed to decode int32".

Definition DecodeString : M Decoder Value :=
  wrap (Decode env (Pointer TString)) "failed to decode string".

Definition DecodeInt64 : M Decoder Value :=
  wrap (Decode env (Pointer (TInt W64))) "failed to decode int64".

Definition DecodeArray : M Decoder Value :=
  wrap (Decode env (Pointer (TSlice TInterface)))
       "msgpack: failed to decode array".

(** [DecodeUint8], [DecodeUint16], [DecodeUint32] or [DecodeUint64], by
    the width. *)
Definition DecodeUint_of (w : width) : M Decoder Value :=
  match w with
  | W8 => DecodeUint8
  | W16 => DecodeUint16
  | W32 => DecodeUint32
  | W64 | Wplatform => DecodeUint64
  end.

End TypedDecoders.

(** The values [Encode] writes by its switch on the static type, before it
    looks at pointers. *)
Definition scalar_value (v : Value) : bool :=
  match v with
  | VBool _ | VInt _ _ | VUint _ _ | VFloat32 _ | VFloat64 _ | VString _ => true
  | _ => false
  end.

Definition composite_value (v : Value) : bool :=
  match v with
  | VStruct _ _ _ | VSlice _ _ | VMap _ _ _ => true
  | _ => false
  end.

(** * Properties *)

(** ** Arithmetic of the wire *)

Lemma land_255 (n : Z) : Z.land n 255 = n mod 256.
Proof. change 255 with (Z.ones 8). rewrite Z.land_ones by lia. reflexivity. Qed.

Lemma big_endian_1 (n : Z) : big_endian 1 n = [n mod 256].
Proof.
  cbn [big_endian]. change (8 * Z.of_nat 0) with 0.
  rewrite Z.shiftr_0_r, land_255. reflexivity.
Qed.

Lemma big_endian_2 (n : Z) : big_endian 2 n = [(n / 2 ^ 8) mod 256; n mod 256].
Proof.
  cbn [big_endian]. change (8 * Z.of_nat 1) with 8. change (8 * Z.of_nat 0) with 0.
  rewrite Z.shiftr_0_r, !land_255, Z.shiftr_div_pow2 by lia. reflexivity.
Qed.

Lemma big_endian_4 (n : Z) :
  big_endian 4 n =
  [(n / 2 ^ 24) mod 256; (n / 2 ^ 16) mod 256; (n / 2 ^ 8) mod 256; n mod 256].
Proof.
  cbn [big_endian].
  change (8 * Z.of_nat 3) with 24. change (8 * Z.of_nat 2) with 16.
  change (8 * Z.of_nat 1) with 8. change (8 * Z.of_nat 0) with 0.
  rewrite Z.shiftr_0_r, !land_255, !Z.shiftr_div_pow2 by lia. reflexivity.
Qed.

Lemma big_endian_8 (n : Z) :
  big_endian 8 n =
  [(n / 2 ^ 56) mod 256; (n / 2 ^ 48) mod 256; (n / 2 ^ 40) mod 256;
   (n / 2 ^ 32) mod 256; (n / 2 ^ 24) mod 256; (n / 2 ^ 16) mod 256;
   (n / 2 ^ 8) mod 256; n mod 256].
Proof.
  cbn [big_endian].
  change (8 * Z.of_nat 7) with 56. change (8 * Z.of_nat 6) with 48.
  change (8 * Z.of_nat 5) with 40. change (8 * Z.of_nat 4) with 32.
  change (8 * Z.of_nat 3) with 24. change (8 * Z.of_nat 2) with 16.
  change (8 * Z.of_nat 1) with 8. change (8 * Z.of_nat 0) with 0.
  rewrite Z.shiftr_0_r, !land_255, !Z.shiftr_div_pow2 by lia. reflexivity.
Qed.

(** A byte of [n mod 2 ^ w] below bit [w] is the byte of [n]. *)
Lemma byte_of_mod (n : Z) (w k : Z) :
  0 <= k -> k + 8 <= w ->
  ((n mod 2 ^ w) / 2 ^ k) mod 256 = (n / 2 ^ k) mod 256.
Proof.
  intros Hk Hw.
  change 256 with (2 ^ 8).
  rewrite <- !Z.shiftr_div_pow2 by lia.
  rewrite <- !Z.land_ones by lia.
  apply Z.bits_inj'. intros i Hi.
  rewrite !Z.land_spec, !Z.shiftr_spec, Z.land_spec by lia.
  destruct (Z.ltb_spec i 8).
  - rewrite !Z.ones_spec_low by lia. rewrite andb_true_r. reflexivity.
  - rewrite (Z.ones_spec_high 8) by lia. rewrite !andb_false_r. reflexivity.
Qed.

Lemma lor_fix (base l bound : Z) :
  0 <= l < 2 ^ bound -> 0 <= bound -> base mod 2 ^ bound = 0 ->
  Z.lor base l = base + l.
Proof.
  intros Hl Hb Hbase.
  rewrite <- Z.add_nocarry_lor; [lia|].
  apply Z.bits_inj'. intros i Hi. rewrite Z.land_spec, Z.bits_0.
  destruct (Z.ltb_spec i bound).
  - assert (Z.testbit base i = false) as ->; [|reflexivity].
    rewrite <- (Z.mod_pow2_bits_low base bound i) by lia.
    rewrite Hbase. apply Z.bits_0.
  - assert (Z.testbit l i = false) as ->; [|apply andb_false_r].
    destruct (Z.eq_dec l 0) as [->|]; [apply Z.bits_0|].
    apply Z.bits_above_log2; [lia|].
    apply Z.log2_lt_pow2; [lia|].
    eapply Z.lt_le_trans; [apply Hl|]. apply Z.pow_le_mono_r; lia.
Qed.

Lemma strlen_bytes (s : string) : len (bytes_of_string s) = strlen s.
Proof.
  unfold len, strlen, bytes_of_string. rewrite length_fmap.
  f_equal. induction s as [|a s IH]; cbn; [reflexivity|]. f_equal. exact IH.
Qed.

(** ** The encoder *)

Lemma emit_emit bs bs' e : emit bs' (emit bs e) = emit (bs ++ bs') e.
Proof. unfold emit; cbn. rewrite <- app_assoc. reflexivity. Qed.

Lemma Write_emit bs e : Writer.Write bs e = (Ok tt, emit bs e).
Proof. reflexivity. Qed.

(** C6. [EncodeString] on a string of byte length L: the FixStr tag with L
    in its low five bits when L < 32; else Str8 and a one-byte length up to
    255; else Str16 and a two-byte big-endian length up to 65535; else Str32
    and a four-byte big-endian length up to 2^32 - 1; beyond that the
    "string is too long" error, nothing being written.  The header is always
    followed by the L bytes of the string. *)
Theorem EncodeString_frame (s : string) (e : Encoder) :
  let L := strlen s in
  let body := bytes_of_string s in
  len body = L ∧
  (L < 32 →
     EncodeString s e = (Ok tt, emit ((0xa0 + L) :: body) e)
     ∧ Z.land (0xa0 + L) 0x1f = L ∧ Z.land (0xa0 + L) 0xe0 = 0xa0) ∧
  (32 <= L <= 255 →
     EncodeString s e = (Ok tt, emit (0xd9 :: L :: body) e)) ∧
  (255 < L <= 65535 →
     EncodeString s e =
       (Ok tt, emit (0xda :: L / 2 ^ 8 :: L mod 2 ^ 8 :: body) e)) ∧
  (65535 < L <= 2 ^ 32 - 1 →
     EncodeString s e =
       (Ok tt, emit (0xdb :: L / 2 ^ 24 :: (L / 2 ^ 16) mod 2 ^ 8
                      :: (L / 2 ^ 8) mod 2 ^ 8 :: L mod 2 ^ 8 :: body) e)) ∧
  (2 ^ 32 - 1 < L →
     EncodeString s e =
       (Fail (Errorf "msgpack: string is too long (len=%d)"), e)).
Proof.
  intros L body.
  assert (0 <= L) as HL0 by (unfold L, strlen; lia).
  split; [apply strlen_bytes|].
  unfold EncodeString. fold L.
  unfold MaxUint8, MaxUint16, MaxUint32, uint8, uint16, uint32, to_uint.
  unfold Writer.WriteByte, Writer.WriteUint8, Writer.WriteUint16,
    Writer.WriteUint32, Writer.WriteString. fold body.
  split; [|split; [|split; [|split]]].
  - intros H1. split; [|split].
    + destruct (Z.ltb_spec L 32); [|lia].
      unfold bind, unchecked. rewrite !Write_emit. cbn [fst snd].
      rewrite emit_emit. repeat f_equal. cbn [app]. f_equal.
      rewrite Z.mod_small by lia. apply (lor_fix _ _ 5); [lia|lia|reflexivity].
    + change 0x1f with (Z.ones 5). rewrite Z.land_ones by lia.
      replace (0xa0 + L) with (L + 5 * 2 ^ 5) by lia.
      rewrite Z.mod_add by lia. apply Z.mod_small. lia.
    + assert (L ∈ seqZ 0 32) as Hin by (apply elem_of_seqZ; lia).
      revert Hin. generalize L. apply Forall_forall. vm_compute.
      repeat constructor.
  - intros [H1 H2].
    destruct (Z.ltb_spec L 32); [lia|].
    destruct (Z.leb_spec L (2 ^ 8 - 1)); [|lia].
    unfold bind, unchecked. rewrite !Write_emit. cbn [fst snd].
    rewrite !emit_emit. rewrite big_endian_1. cbn [app].
    rewrite Z.mod_mod by lia. rewrite Z.mod_small by lia. reflexivity.
  - intros [H1 H2].
    destruct (Z.ltb_spec L 32); [lia|].
    destruct (Z.leb_spec L (2 ^ 8 - 1)); [lia|].
    destruct (Z.leb_spec L (2 ^ 16 - 1)); [|lia].
    unfold bind, unchecked. rewrite !Write_emit. cbn [fst snd].
    rewrite !emit_emit. rewrite big_endian_2. cbn [app].
    rewrite (Z.mod_small L (2 ^ 16)) by lia.
    rewrite (Z.mod_small (L / 2 ^ 8)); [reflexivity|].
    split; [apply Z.div_pos; lia|apply Z.div_lt_upper_bound; lia].
  - intros [H1 H2].
    destruct (Z.ltb_spec L 32); [lia|].
    destruct (Z.leb_spec L (2 ^ 8 - 1)); [lia|].
    destruct (Z.leb_spec L (2 ^ 16 - 1)); [lia|].
    destruct (Z.leb_spec L (2 ^ 32 - 1)); [|lia].
    unfold bind, unchecked. rewrite !Write_emit. cbn [fst snd].
    rewrite !emit_emit. rewrite big_endian_4. cbn [app].
    rewrite (Z.mod_small L (2 ^ 32)) by lia.
    rewrite (Z.mod_small (L / 2 ^ 24)); [reflexivity|].
    split; [apply Z.div_pos; lia|apply Z.div_lt_upper_bound; lia].
  - intros H1.
    destruct (Z.ltb_spec L 32); [lia|].
    destruct (Z.leb_spec L (2 ^ 8 - 1)); [lia|].
    destruct (Z.leb_spec L (2 ^ 16 - 1)); [lia|].
    destruct (Z.leb_spec L (2 ^ 32 - 1)); [lia|].
    reflexivity.
Qed.

Lemma EncodeString_frame_witness :
  EncodeString "hello" NewEncoder
  = (Ok tt, emit [0xa5; 0x68; 0x65; 0x6c; 0x6c; 0x6f] NewEncoder).
Proof.
  destruct (EncodeString_frame "hello" NewEncoder) as (_ & H & _).
  destruct H as (H & _); [vm_compute; reflexivity|]. exact H.
Defined.

Lemma buf_bytes_set h data p : buf_bytes (buf_set h data p) h = data.
Proof. unfold buf_bytes, buf_set; cbn. rewrite lookup_insert_eq. reflexivity. Qed.

Lemma buf_bytes_write h data p :
  buf_bytes (buf_write h data p) h = buf_bytes p h ++ data.
Proof. apply buf_bytes_set. Qed.

(** What is left of [EncodeExt] once the header [hdr] is out: the type byte,
    the payload, the release of the scratch buffer. *)
Lemma EncodeExt_tail (typ : Z) (h : nat) (hdr : list Z) (e1 : Encoder)
    (header : M Encoder unit) :
  header e1 = (Ok tt, emit hdr e1) →
  ∃ e', (let '(o, s') :=
           (header ;;
            wrap (Writer.WriteByte (uint8 typ)) "msgpack: failed to write typ code" ;;
            wrap (buf_WriteTo_dst h) "msgpack: failed to write extention payload") e1 in
         (o, bufferpool.Release h s')) = (Ok tt, e')
        ∧ dst e' = dst e1 ++ hdr ++ typ mod 2 ^ 8 :: buf_bytes (epool e1) h.
Proof.
  intros Hh. eexists. split.
  - unfold bind at 1. rewrite Hh. cbn. reflexivity.
  - cbn. rewrite <- !app_assoc. reflexivity.
Qed.

Ltac not_fix_ext :=
  repeat match goal with
         | |- context [?l =? ?k] => rewrite (proj2 (Z.eqb_neq l k)) by lia
         end.

(** The frame law of [EncodeExt], in terms of what the scratch buffer
    holds once the user encoder has returned without error -- the bytes the
    encoder wrote, after those the buffer held when it was taken from the
    pool -- and of the length L of that: the FixExt1/2/4/8/16 tag when L is
    1, 2, 4, 8 or 16; otherwise Ext8 and a one-byte length up to 255, Ext16
    and a two-byte length up to 65535, Ext32 and a four-byte length up to
    2^32 - 1; then one byte for the extension type; then the contents of
    the buffer.  Beyond 2^32 - 1 the call fails and writes nothing. *)
Theorem EncodeExt_frame (typ : Z) (written : list Z) (e : Encoder) :
  let scratch := pool_get (epool e) in
  let payload := buf_bytes scratch.2 scratch.1 ++ written in
  let L := len payload in
  let emits (frame : list Z) :=
    ∃ e', EncodeExt typ (written, None) e = (Ok tt, e')
          ∧ dst e' = dst e ++ frame in
  (L = 1 → emits (0xd4 :: typ mod 2 ^ 8 :: payload)) ∧
  (L = 2 → emits (0xd5 :: typ mod 2 ^ 8 :: payload)) ∧
  (L = 4 → emits (0xd6 :: typ mod 2 ^ 8 :: payload)) ∧
  (L = 8 → emits (0xd7 :: typ mod 2 ^ 8 :: payload)) ∧
  (L = 16 → emits (0xd8 :: typ mod 2 ^ 8 :: payload)) ∧
  (L ∉ [1; 2; 4; 8; 16] → L <= 255 →
     emits (0xc7 :: L :: typ mod 2 ^ 8 :: payload)) ∧
  (255 < L <= 65535 →
     emits (0xc8 :: L / 2 ^ 8 :: L mod 2 ^ 8 :: typ mod 2 ^ 8 :: payload)) ∧
  (65535 < L <= 2 ^ 32 - 1 →
     emits (0xc9 :: L / 2 ^ 24 :: (L / 2 ^ 16) mod 2 ^ 8
                 :: (L / 2 ^ 8) mod 2 ^ 8 :: L mod 2 ^ 8
                 :: typ mod 2 ^ 8 :: payload)) ∧
  (2 ^ 32 - 1 < L →
     ∃ e', EncodeExt typ (written, None) e =
             (Fail (Errorf "msgpack: extension payload too large: %d bytes"), e')
           ∧ dst e' = dst e).
Proof.
  intros scratch payload L emits.
  assert (0 <= L) as HL0 by (unfold L, len; lia).
  subst emits.
  destruct scratch as [h p] eqn:Hs. cbn [fst snd] in payload.
  set (e1 := mkEncoder (dst e) (buf_write h written p)).
  assert (buf_bytes (epool e1) h = payload) as Hpay by apply buf_bytes_write.
  assert (dst e1 = dst e) as Hdst by reflexivity.
  assert (∀ (P : outcome unit * Encoder → Prop),
    P (let '(o, s') :=
         ((if L =? 1 then
             wrap (Writer.WriteByte Code.FixExt1) "msgpack: failed to write fixext1 code"
           else if L =? 2 then
             wrap (Writer.WriteByte Code.FixExt2) "msgpack: failed to write fixext2 code"
           else if L =? 4 then
             wrap (Writer.WriteByte Code.FixExt4) "msgpack: failed to write fixext4 code"
           else if L =? 8 then
             wrap (Writer.WriteByte Code.FixExt8) "msgpack: failed to write fixext8 code"
           else if L =? 16 then
             wrap (Writer.WriteByte Code.FixExt16) "msgpack: failed to write fixext16 code"
           else if L <=? MaxUint8 then
             wrap (Writer.WriteByte Code.Ext8) "msgpack: failed to write ext8 code" ;;
             wrap (Writer.WriteByte (uint8 L))
                  "msgpack: failed to write ext8 payload length"
           else if L <=? MaxUint16 then
             wrap (Writer.WriteByte Code.Ext16) "msgpack: failed to write ext16 code" ;;
             wrap (Writer.WriteUint16 (uint16 L))
                  "msgpack: failed to write ext16 payload length"
           else if L <=? MaxUint32 then
             wrap (Writer.WriteByte Code.Ext32) "msgpack: failed to write ext32 code" ;;
             wrap (Writer.WriteUint32 (uint32 L))
                  "msgpack: failed to write ext32 payload length"
           else fail (Errorf "msgpack: extension payload too large: %d bytes")) ;;
          wrap (Writer.WriteByte (uint8 typ)) "msgpack: failed to write typ code" ;;
          wrap (buf_WriteTo_dst h) "msgpack: failed to write extention payload") e1 in
       (o, bufferpool.Release h s')) →
    P (EncodeExt typ (written, None) e)) as Hrun.
  { intros P HP. unfold EncodeExt, bind at 1, bufferpool.Get.
    cbn [the_pool Encoder_pool]. fold scratch. rewrite Hs.
    unfold defer. unfold bind at 1. unfold buf_Write at 1.
    cbn [fst snd the_pool with_pool Encoder_pool dst epool].
    unfold bind at 1. cbn [fst snd Wrapf Wrap return_with ret].
    unfold bind at 1. unfold buf_Len at 1.
    cbn [the_pool with_pool Encoder_pool dst epool].
    rewrite buf_bytes_write. exact HP. }
  unfold MaxUint8, MaxUint16, MaxUint32 in Hrun.
  split; [|split; [|split; [|split; [|split; [|split; [|split; [|split]]]]]]].
  - intros HL. apply Hrun. rewrite HL. cbn [Z.eqb Pos.eqb].
    rewrite <- Hpay, <- Hdst. apply (EncodeExt_tail typ h [_]). reflexivity.
  - intros HL. apply Hrun. rewrite HL. cbn [Z.eqb Pos.eqb].
    rewrite <- Hpay, <- Hdst. apply (EncodeExt_tail typ h [_]). reflexivity.
  - intros HL. apply Hrun. rewrite HL. cbn [Z.eqb Pos.eqb].
    rewrite <- Hpay, <- Hdst. apply (EncodeExt_tail typ h [_]). reflexivity.
  - intros HL. apply Hrun. rewrite HL. cbn [Z.eqb Pos.eqb].
    rewrite <- Hpay, <- Hdst. apply (EncodeExt_tail typ h [_]). reflexivity.
  - intros HL. apply Hrun. rewrite HL. cbn [Z.eqb Pos.eqb].
    rewrite <- Hpay, <- Hdst. apply (EncodeExt_tail typ h [_]). reflexivity.
  - intros Hnot Hle. apply Hrun.
    rewrite !elem_of_cons, elem_of_nil in Hnot.
    assert (L ≠ 1 ∧ L ≠ 2 ∧ L ≠ 4 ∧ L ≠ 8 ∧ L ≠ 16) as (?&?&?&?&?) by tauto.
    not_fix_ext.
    destruct (Z.leb_spec L (2 ^ 8 - 1)); [|lia].
    rewrite <- Hpay, <- Hdst. apply (EncodeExt_tail typ h [_; _]).
    unfold bind, wrap, Writer.WriteByte.
    rewrite !Write_emit, emit_emit. cbn [app].
    unfold uint8, to_uint. rewrite Z.mod_small by lia. reflexivity.
  - intros [H1 H2]. apply Hrun.
    not_fix_ext.
    destruct (Z.leb_spec L (2 ^ 8 - 1)); [lia|].
    destruct (Z.leb_spec L (2 ^ 16 - 1)); [|lia].
    rewrite <- Hpay, <- Hdst. apply (EncodeExt_tail typ h [_; _; _]).
    unfold bind, wrap, Writer.WriteByte, Writer.WriteUint16.
    rewrite !Write_emit, emit_emit. cbn [app].
    unfold uint16, to_uint.
    rewrite big_endian_2, (Z.mod_small L (2 ^ 16)) by lia.
    rewrite (Z.mod_small (L / 2 ^ 8));
      [|split; [apply Z.div_pos; lia|apply Z.div_lt_upper_bound; lia]].
    reflexivity.
  - intros [H1 H2]. apply Hrun.
    not_fix_ext.
    destruct (Z.leb_spec L (2 ^ 8 - 1)); [lia|].
    destruct (Z.leb_spec L (2 ^ 16 - 1)); [lia|].
    destruct (Z.leb_spec L (2 ^ 32 - 1)); [|lia].
    rewrite <- Hpay, <- Hdst. apply (EncodeExt_tail typ h [_; _; _; _; _]).
    unfold bind, wrap, Writer.WriteByte, Writer.WriteUint32.
    rewrite !Write_emit, emit_emit. cbn [app].
    unfold uint32, to_uint.
    rewrite big_endian_4, (Z.mod_small L (2 ^ 32)) by lia.
    rewrite (Z.mod_small (L / 2 ^ 24));
      [|split; [apply Z.div_pos; lia|apply Z.div_lt_upper_bound; lia]].
    reflexivity.
  - intros H1. apply Hrun.
    not_fix_ext.
    destruct (Z.leb_spec L (2 ^ 8 - 1)); [lia|].
    destruct (Z.leb_spec L (2 ^ 16 - 1)); [lia|].
    destruct (Z.leb_spec L (2 ^ 32 - 1)); [lia|].
    eexists. split; reflexivity.
Qed.

Lemma EncodeExt_frame_witness :
  ∃ e', EncodeExt 5 ([0xaa; 0xbb; 0xcc; 0xdd], None) NewEncoder = (Ok tt, e')
        ∧ dst e' = [0xd6; 0x05; 0xaa; 0xbb; 0xcc; 0xdd].
Proof.
  destruct (EncodeExt_frame 5 [0xaa; 0xbb; 0xcc; 0xdd] NewEncoder)
    as (_ & _ & H & _).
  exact (H eq_refl).
Defined.

(** C7 fails once a FixStr has been decoded.  With a fresh pool the
    one-byte payload [aa] of type 5 is framed as the claim says: FixExt1,
    [d4 05 aa].  But [fixstrDecoder] fills its buffer after it has released
    it, so after the string "a" has been decoded the pool holds a buffer
    with the byte 61 in it; [EncodeExt] is handed that buffer, the payload
    of the user encoder is appended to it, and the same call now writes
    [d5 05 61 aa]: a FixExt2 frame for a payload of one byte, with a stale
    byte in front of it.  The same happens through [Encode] of a value of
    a registered type. *)
Theorem EncodeExt_stale_scratch :
  (∃ e', EncodeExt 5 ([0xaa], None) NewEncoder = (Ok tt, e')
         ∧ dst e' = [0xd4; 0x05; 0xaa]) ∧
  ∃ d',
    Decode no_user_types (Pointer TString) (NewDecoder [0xa1; 0x61] empty_pool)
    = (Ok (VString "a"), d')
    ∧ (∃ e', EncodeExt 5 ([0xaa], None) (mkEncoder [] (dpool d')) = (Ok tt, e')
             ∧ dst e' = [0xd5; 0x05; 0x61; 0xaa])
    ∧ (∃ e', Encode with_Stamp (VStruct "Stamp" Stamp_fields [VBytes [0xaa]])
               (mkEncoder [] (dpool d')) = (Ok tt, e')
             ∧ dst e' = [0xd5; 0x05; 0x61; 0xaa]).
Proof.
  split.
  - eexists. split; [vm_compute; reflexivity|reflexivity].
  - eexists. split; [vm_compute; reflexivity|].
    split; eexists; (split; [vm_compute; reflexivity|reflexivity]).
Qed.

Lemma uint64_int64 (n : Z) : uint64 (int64 n) = n mod 2 ^ 64.
Proof.
  unfold uint64, int64, to_uint, to_int.
  destruct (n mod 2 ^ 64 <? 2 ^ (64 - 1)).
  - apply Z.mod_mod. lia.
  - replace (n mod 2 ^ 64 - 2 ^ 64) with (n mod 2 ^ 64 + (-1) * 2 ^ 64) by lia.
    rewrite Z.mod_add by lia. apply Z.mod_mod. lia.
Qed.

Lemma big_endian_8_mod (n : Z) : big_endian 8 (n mod 2 ^ 64) = big_endian 8 n.
Proof.
  rewrite !big_endian_8, !byte_of_mod by lia.
  pose proof (byte_of_mod n 64 0) as H0. change (2 ^ 0) with 1 in H0.
  rewrite !Z.div_1_r in H0. rewrite H0 by lia. reflexivity.
Qed.

(** C9. A value of type [int] or [uint] is always written in the 64-bit
    form, whatever its magnitude: the Int64 tag 0xd3, or the Uint64 tag 0xcf,
    and the eight bytes of the value, most significant first. *)
Theorem Encode_platform_width (env : Env) (n : Z) (e : Encoder) :
  let eight_bytes :=
    [(n / 2 ^ 56) mod 256; (n / 2 ^ 48) mod 256; (n / 2 ^ 40) mod 256;
     (n / 2 ^ 32) mod 256; (n / 2 ^ 24) mod 256; (n / 2 ^ 16) mod 256;
     (n / 2 ^ 8) mod 256; n mod 256] in
  Encode env (VInt Wplatform n) e = (Ok tt, emit (0xd3 :: eight_bytes) e) ∧
  Encode env (VUint Wplatform n) e = (Ok tt, emit (0xcf :: eight_bytes) e).
Proof.
  intros eight_bytes. subst eight_bytes. rewrite <- big_endian_8.
  unfold Encode, Encode_, EncodeInt64, EncodeUint64, wrap,
    Writer.WriteByteUint64.
  rewrite !Write_emit, uint64_int64.
  unfold uint64, to_uint. rewrite !big_endian_8_mod. split; reflexivity.
Qed.

(** ** The decoder *)

(** C8. With a byte to read, [PeekCode] succeeds and returns that byte, and
    so does a second [PeekCode]; neither moves the stream: the unread bytes
    are the same and the next read delivers the byte that was peeked. *)
Theorem PeekCode_idempotent (d : Decoder) (b : Z) (rest : list Z) :
  unread (r d) = b :: rest →
  ∃ d1 d2 d3,
    PeekCode d = (Ok b, d1) ∧ PeekCode d1 = (Ok b, d2) ∧
    unread (r d1) = unread (r d) ∧ unread (r d2) = unread (r d) ∧
    bufio.ReadByte d2 = (Ok b, d3) ∧ unread (r d3) = rest.
Proof.
  intros Hd. destruct d as [[u lb] p]. cbn in Hd. subst u.
  do 3 eexists. repeat split.
Qed.

Lemma PeekCode_idempotent_witness :
  ∃ d1 d2 d3,
    PeekCode (NewDecoder [0xc3; 0x01] empty_pool) = (Ok 0xc3, d1) ∧
    PeekCode d1 = (Ok 0xc3, d2) ∧
    unread (r d1) = [0xc3; 0x01] ∧ unread (r d2) = [0xc3; 0x01] ∧
    bufio.ReadByte d2 = (Ok 0xc3, d3) ∧ unread (r d3) = [0x01].
Proof.
  exact (PeekCode_idempotent (NewDecoder [0xc3; 0x01] empty_pool) 0xc3 [0x01]
           eq_refl).
Defined.

Lemma fixint_codes_spec (tag : Z) :
  Code.IsPositiveFixInt tag || Code.IsNegativeFixInt tag = true →
  tag ∈ fixint_codes.
Proof.
  unfold Code.IsPositiveFixInt, Code.IsNegativeFixInt, fixint_codes.
  intros H. apply elem_of_app. rewrite !elem_of_seqZ. lia.
Qed.

(** The table has no entry for a fix-int code, and no fix-int code is in
    the map family. *)
Lemma decoders_no_fixint (tag : Z) :
  Code.IsPositiveFixInt tag || Code.IsNegativeFixInt tag = true →
  decoders !! tag = None ∧ Code.IsMapFamily tag = false.
Proof.
  intros H. apply fixint_codes_spec in H. revert tag H.
  apply Forall_forall.
  assert (forallb (λ tag, match decoders !! tag with
                          | None => negb (Code.IsMapFamily tag)
                          | Some _ => false
                          end) fixint_codes = true) as Hall
    by (vm_compute; reflexivity).
  rewrite forallb_forall in Hall. apply Forall_forall. intros tag Hin.
  specialize (Hall tag). rewrite <- list_elem_of_In in Hall.
  specialize (Hall Hin).
  destruct (decoders !! tag); [discriminate|].
  split; [reflexivity|]. destruct (Code.IsMapFamily tag); [discriminate|reflexivity].
Qed.

(** C2, as the code has it.  A stream whose next tag is a positive or
    negative fix-int is not decoded: [Decode], into any pointer that does
    not decode itself, reads the tag and nothing more, finds no decoder for
    it and returns the lookup error. *)
Theorem Decode_fixint_unsupported (env : Env) (T : GoType) (tag : Z)
    (rest : list Z) (last : option Z) (pool : Pool) :
  Code.IsPositiveFixInt tag || Code.IsNegativeFixInt tag = true →
  DecodeMsgpack env (TPtr T) = None →
  Decode env (Pointer T) (mkDecoder (mkReader (tag :: rest) last) pool) =
    (Fail (Wrapped "msgpack: failed to lookup decoder for code %s"
             (Errorf "msgpack: decoder for %s not found")),
     mkDecoder (mkReader rest (Some tag)) pool).
Proof.
  intros Htag Hself. destruct (decoders_no_fixint tag Htag) as [Hnone Hmap].
  unfold Decode. cbn [unread r List.length Decode_].
  unfold Decode_body. cbn [Target_type mbind option_bind]. rewrite Hself.
  unfold bind at 1. cbn. unfold select_decoder. rewrite Hmap. cbn.
  unfold lookupDecoder. rewrite Hnone. reflexivity.
Qed.

Lemma Decode_fixint_unsupported_witness :
  Decode no_user_types (Pointer (TInt W8)) (NewDecoder [0x05; 0xc0] empty_pool) =
    (Fail (Wrapped "msgpack: failed to lookup decoder for code %s"
             (Errorf "msgpack: decoder for %s not found")),
     mkDecoder (mkReader [0xc0] (Some 0x05)) empty_pool).
Proof.
  exact (Decode_fixint_unsupported no_user_types (TInt W8) 0x05 [0xc0] None
           empty_pool eq_refl eq_refl).
Defined.

(** C2 fails as stated: the fix-int tags 0x05 and 0xff, decoded into an
    integer variable or into an empty interface, do not give 5 or -1;
    [Decode] does not succeed at all. *)
Lemma Decode_fixint_counterexample :
  ¬ (∃ v d', Decode no_user_types (Pointer (TInt W8))
               (NewDecoder [0x05] empty_pool) = (Ok v, d')) ∧
  ¬ (∃ v d', Decode no_user_types (Pointer TInterface)
               (NewDecoder [0x05] empty_pool) = (Ok v, d')) ∧
  ¬ (∃ v d', Decode no_user_types (Pointer (TInt W8))
               (NewDecoder [0xff] empty_pool) = (Ok v, d')).
Proof.
  repeat split; intros (v & d' & H); vm_compute in H; discriminate H.
Qed.

(** C1 fails on byte strings.  The one-byte string [01] is encoded as the
    Bin8 frame [c4 01 01]; decoding that frame, into an empty interface or
    into a [[]byte], succeeds with the empty byte string and leaves the
    payload byte unread. *)
Theorem roundtrip_loses_bytes :
  Encode no_user_types (VBytes [0x01]) NewEncoder
    = (Ok tt, emit [0xc4; 0x01; 0x01] NewEncoder) ∧
  (∃ d', Decode no_user_types (Pointer TInterface)
           (NewDecoder [0xc4; 0x01; 0x01] empty_pool) = (Ok (VBytes []), d')
         ∧ unread (r d') = [0x01]) ∧
  (∃ d', Decode no_user_types (Pointer (TSlice (TUint W8)))
           (NewDecoder [0xc4; 0x01; 0x01] empty_pool) = (Ok (VBytes []), d')
         ∧ unread (r d') = [0x01]).
Proof.
  split; [reflexivity|].
  split; eexists; (split; [vm_compute; reflexivity|reflexivity]).
Qed.

(** C3 fails.  The map {"x": "y", "n": "A"}, decoded into a record whose
    only field is bound to "n": the value "y" of the unknown key "x" is
    not skipped but read as the next key, the loop ends after its two rounds,
    and [Decode] succeeds with the field left empty and the frames of "n"
    and "A" unread.  With the unknown key last, the field is bound but the
    value of the unknown key stays in the stream. *)
Theorem unknown_field_value_not_skipped :
  (∃ d', Decode no_user_types (Pointer Named)
           (NewDecoder [0x82; 0xa1; 0x78; 0xa1; 0x79; 0xa1; 0x6e; 0xa1; 0x41]
                       empty_pool)
         = (Ok (VStruct "Named" Named_fields [VString ""]), d')
         ∧ unread (r d') = [0xa1; 0x6e; 0xa1; 0x41]) ∧
  (∃ d', Decode no_user_types (Pointer Named)
           (NewDecoder [0x82; 0xa1; 0x6e; 0xa1; 0x41; 0xa1; 0x78; 0xa1; 0x79]
                       empty_pool)
         = (Ok (VStruct "Named" Named_fields [VString "A"]), d')
         ∧ unread (r d') = [0xa1; 0x79]).
Proof.
  split; eexists; (split; [vm_compute; reflexivity|reflexivity]).
Qed.

(** C4 fails.  With the type 5 registered, a [Stamp] of one byte is
    encoded as the FixExt1 frame [d4 05 aa]; decoding that frame fails, and so
    does decoding the Ext16 frame [c8 00 01 05 aa]: the table has a decoder
    for Ext8 and FixExt8 only, and the lookup fails before any length or type
    byte is read.  An [extDecoder] made for Ext16 would read no length
    either: it takes the first length byte for the type and bounds the
    user's reader to zero bytes. *)
Theorem ext_lengths_not_read :
  Encode with_Stamp (VStruct "Stamp" Stamp_fields [VBytes [0xaa]]) NewEncoder
  = (Ok tt, mkEncoder [0xd4; 0x05; 0xaa] (mkPool {[ 0%nat := [] ]} 1 [0%nat])) ∧
  Decode with_Stamp (Pointer TInterface)
    (NewDecoder [0xd4; 0x05; 0xaa] empty_pool)
  = (Fail (Wrapped "msgpack: failed to lookup decoder for code %s"
             (Errorf "msgpack: decoder for %s not found")),
     mkDecoder (mkReader [0x05; 0xaa] (Some 0xd4)) empty_pool) ∧
  Decode with_Stamp (Pointer TInterface)
    (NewDecoder [0xc8; 0x00; 0x01; 0x05; 0xaa] empty_pool)
  = (Fail (Wrapped "msgpack: failed to lookup decoder for code %s"
             (Errorf "msgpack: decoder for %s not found")),
     mkDecoder (mkReader [0x00; 0x01; 0x05; 0xaa] (Some 0xc8)) empty_pool) ∧
  Forall (λ code, decoders !! code = None)
    [Code.FixExt1; Code.FixExt2; Code.FixExt4; Code.FixExt16;
     Code.Ext16; Code.Ext32] ∧
  extDecoder_Decode with_Stamp Code.Ext16
    (NewDecoder [0x05; 0x01; 0x05; 0xaa] empty_pool)
  = (Ok (VPtr Stamp (VStruct "Stamp" Stamp_fields [VBytes []])),
     mkDecoder (mkReader [0x01; 0x05; 0xaa] (Some 0x05)) empty_pool).
Proof.
  split; [vm_compute; reflexivity|].
  split; [vm_compute; reflexivity|].
  split; [vm_compute; reflexivity|].
  split; [|vm_compute; reflexivity].
  repeat constructor.
Qed.

(** C5 fails.  The Ext8 frame [c7 01 05 aa] names the type 5; with nothing
    registered, [Decode] returns no error: the variable is set to its zero
    value and the payload byte is left unread.  The same holds for a FixExt8
    frame, and for a type other than the registered one. *)
Theorem unknown_extension_type_accepted :
  Decode no_user_types (Pointer TInterface)
    (NewDecoder [0xc7; 0x01; 0x05; 0xaa] empty_pool)
  = (Ok VNil, mkDecoder (mkReader [0xaa] (Some 0x05)) empty_pool) ∧
  Decode no_user_types (Pointer TInterface)
    (NewDecoder [0xd7; 0x05; 1; 2; 3; 4; 5; 6; 7; 8] empty_pool)
  = (Ok VNil,
     mkDecoder (mkReader [1; 2; 3; 4; 5; 6; 7; 8] (Some 0x05)) empty_pool) ∧
  Decode with_Stamp (Pointer TInterface)
    (NewDecoder [0xc7; 0x01; 0x09; 0xaa] empty_pool)
  = (Ok VNil, mkDecoder (mkReader [0xaa] (Some 0x09)) empty_pool).
Proof.
  repeat split; vm_compute; reflexivity.
Qed.

Lemma Kind_eqb_eq (a b : reflect.Kind) : reflect.Kind_eqb a b = true ↔ a = b.
Proof. destruct a, b; cbn; split; intros H; try reflexivity; discriminate H. Qed.

Lemma to_int_spec (w n : Z) :
  0 < w →
  - 2 ^ (w - 1) <= to_int w n < 2 ^ (w - 1) ∧
  to_int w n mod 2 ^ w = n mod 2 ^ w.
Proof.
  intros Hw. unfold to_int.
  assert (2 ^ w = 2 * 2 ^ (w - 1)) as Hpow.
  { replace w with (Z.succ (w - 1)) at 1 by lia. apply Z.pow_succ_r. lia. }
  assert (0 < 2 ^ (w - 1)) by (apply Z.pow_pos_nonneg; lia).
  pose proof (Z.mod_pos_bound n (2 ^ w) ltac:(lia)) as Hb.
  destruct (Z.ltb_spec (n mod 2 ^ w) (2 ^ (w - 1))).
  - split; [lia|]. apply Z.mod_mod. lia.
  - split; [lia|].
    replace (n mod 2 ^ w - 2 ^ w) with (n mod 2 ^ w + (-1) * 2 ^ w) by lia.
    rewrite Z.mod_add by lia. apply Z.mod_mod. lia.
Qed.

Lemma bits_pos (w : width) : 0 < bits w.
Proof. destruct w; cbn; lia. Qed.

(** The UTF-8 bytes of an integer taken as a code point, in plain
    arithmetic: one to four bytes by the size of the code point, and the
    three bytes of U+FFFD for what is no code point. *)
Lemma EncodeRune_bytes (n : Z) :
  (0 <= n < 0x80 → reflect.EncodeRune n = [n]) ∧
  (0x80 <= n < 0x800 →
   reflect.EncodeRune n = [0xC0 + n / 2 ^ 6; 0x80 + n mod 2 ^ 6]) ∧
  (0x800 <= n < 0xD800 ∨ 0xE000 <= n < 0x10000 →
   reflect.EncodeRune n
   = [0xE0 + n / 2 ^ 12; 0x80 + (n / 2 ^ 6) mod 2 ^ 6; 0x80 + n mod 2 ^ 6]) ∧
  (0x10000 <= n <= 0x10FFFF →
   reflect.EncodeRune n
   = [0xF0 + n / 2 ^ 18; 0x80 + (n / 2 ^ 12) mod 2 ^ 6;
      0x80 + (n / 2 ^ 6) mod 2 ^ 6; 0x80 + n mod 2 ^ 6]) ∧
  (n < 0 ∨ 0xD800 <= n <= 0xDFFF ∨ 0x10FFFF < n →
   reflect.EncodeRune n = [0xEF; 0xBF; 0xBD]).
Proof.
  assert (∀ y, Z.lor 0x80 (Z.land y 0x3F) = 0x80 + y mod 2 ^ 6) as Hcont.
  { intros y. change 0x3F with (Z.ones 6). rewrite Z.land_ones by lia.
    apply (lor_fix _ _ 6); [apply Z.mod_pos_bound; lia|lia|reflexivity]. }
  unfold reflect.EncodeRune.
  repeat apply conj; intros Hn.
  - destruct (Z.ltb_spec n 0); [lia|].
    destruct (Z.ltb_spec 0x10FFFF n); [lia|].
    destruct (Z.leb_spec 0xD800 n); [lia|]. cbn [orb andb].
    destruct (Z.ltb_spec n 0x80); [reflexivity|lia].
  - destruct (Z.ltb_spec n 0); [lia|].
    destruct (Z.ltb_spec 0x10FFFF n); [lia|].
    destruct (Z.leb_spec 0xD800 n); [lia|]. cbn [orb andb].
    destruct (Z.ltb_spec n 0x80); [lia|].
    destruct (Z.ltb_spec n 0x800); [|lia].
    rewrite Hcont, Z.shiftr_div_pow2 by lia. f_equal.
    apply (lor_fix _ _ 5); [|lia|reflexivity].
    split; [apply Z.div_pos; lia|apply Z.div_lt_upper_bound; lia].
  - destruct (Z.ltb_spec n 0); [lia|].
    destruct (Z.ltb_spec 0x10FFFF n); [lia|].
    assert ((0xD800 <=? n) && (n <=? 0xDFFF) = false) as ->.
    { destruct (Z.leb_spec 0xD800 n); [|reflexivity].
      destruct (Z.leb_spec n 0xDFFF); [lia|reflexivity]. }
    cbn [orb].
    destruct (Z.ltb_spec n 0x80); [lia|].
    destruct (Z.ltb_spec n 0x800); [lia|].
    destruct (Z.ltb_spec n 0x10000); [|lia].
    rewrite !Hcont, !Z.shiftr_div_pow2 by lia. f_equal.
    apply (lor_fix _ _ 4); [|lia|reflexivity].
    split; [apply Z.div_pos; lia|apply Z.div_lt_upper_bound; lia].
  - destruct (Z.ltb_spec n 0); [lia|].
    destruct (Z.ltb_spec 0x10FFFF n); [lia|].
    assert ((0xD800 <=? n) && (n <=? 0xDFFF) = false) as ->.
    { destruct (Z.leb_spec 0xD800 n); [|reflexivity].
      destruct (Z.leb_spec n 0xDFFF); [lia|reflexivity]. }
    cbn [orb].
    destruct (Z.ltb_spec n 0x80); [lia|].
    destruct (Z.ltb_spec n 0x800); [lia|].
    destruct (Z.ltb_spec n 0x10000); [lia|].
    rewrite !Hcont, !Z.shiftr_div_pow2 by lia. f_equal.
    apply (lor_fix _ _ 3); [|lia|reflexivity].
    split; [apply Z.div_pos; lia|apply Z.div_lt_upper_bound; lia].
  - destruct (Z.ltb_spec n 0); [reflexivity|].
    destruct (Z.ltb_spec 0x10FFFF n); [reflexivity|].
    destruct (Z.leb_spec 0xD800 n); [|lia].
    destruct (Z.leb_spec n 0xDFFF); [reflexivity|lia].
Qed.

(** C10.  In the generic-field path of the struct binder -- the key names a
    field that is neither a struct nor a pointer to one, and the value has
    been decoded into an empty interface -- the only check is Go's
    convertibility of the value's type to the field's type.  Hence a decoded
    integer n put into an integer field of any width is truncated modulo
    that width, without error; put into a string field it becomes the
    string of the code point n, that is its UTF-8 bytes (one to four by the
    size of n, those of U+FFFD when n is no code point); put into a float
    field it is accepted; a decoded string put into a string or a [[]byte]
    field is kept.  The "cannot convert" error is returned for the pairs
    that Go does not convert -- an integer for a [bool], a string for a
    [bool] or a number, a boolean for a number or a string -- and, in
    general, exactly when the value's type is not convertible to the
    field's. *)
Theorem generic_field_conversion (decode : Target → M Decoder Value)
    (fields : list StructField) (name2field : gmap string nat)
    (vals : list Value) (d d1 d2 : Decoder) (key : string) (i : nat)
    (f : StructField) (value : Value) (src : GoType) :
  decode (Pointer TString) d = (Ok (VString key), d1) →
  name2field !! key = Some i →
  fields !! i = Some f →
  reflect.KindOf (Typ f) ≠ reflect.Struct →
  is_ptr_to_struct (Typ f) = false →
  decode (Pointer TInterface) d1 = (Ok value, d2) →
  reflect.TypeOf value = Some src →
  let out := struct_round decode fields name2field vals d in
  let refused := (Fail (Errorf "msgpack: cannot convert from %s to %s"), d2) in
  let numeric (T : GoType) :=
    (∃ w, T = TInt w ∨ T = TUint w) ∨ T = TFloat32 ∨ T = TFloat64 in
  (out = refused ↔ reflect.ConvertibleTo src (Typ f) = false) ∧
  (reflect.ConvertibleTo src (Typ f) = true →
   out = (Ok (<[i := reflect.Convert value (Typ f)]> vals), d2)) ∧
  (∀ n, integer_value value n →
     (∀ w', Typ f = TUint w' →
        out = (Ok (<[i := VUint w' (n mod 2 ^ bits w')]> vals), d2)) ∧
     (∀ w', Typ f = TInt w' →
        ∃ m, out = (Ok (<[i := VInt w' m]> vals), d2)
             ∧ - 2 ^ (bits w' - 1) <= m < 2 ^ (bits w' - 1)
             ∧ m mod 2 ^ bits w' = n mod 2 ^ bits w') ∧
     (Typ f = TString →
        ∃ utf8,
          out = (Ok (<[i := VString (string_of_bytes utf8)]> vals), d2)
          ∧ (0 <= n < 0x80 → utf8 = [n])
          ∧ (0x80 <= n < 0x800 →
             utf8 = [0xC0 + n / 2 ^ 6; 0x80 + n mod 2 ^ 6])
          ∧ (0x800 <= n < 0xD800 ∨ 0xE000 <= n < 0x10000 →
             utf8 = [0xE0 + n / 2 ^ 12; 0x80 + (n / 2 ^ 6) mod 2 ^ 6;
                     0x80 + n mod 2 ^ 6])
          ∧ (0x10000 <= n <= 0x10FFFF →
             utf8 = [0xF0 + n / 2 ^ 18; 0x80 + (n / 2 ^ 12) mod 2 ^ 6;
                     0x80 + (n / 2 ^ 6) mod 2 ^ 6; 0x80 + n mod 2 ^ 6])
          ∧ (n < 0 ∨ 0xD800 <= n <= 0xDFFF ∨ 0x10FFFF < n →
             utf8 = [0xEF; 0xBF; 0xBD])) ∧
     (Typ f = TFloat32 ∨ Typ f = TFloat64 →
        ∃ x, out = (Ok (<[i := x]> vals), d2)
             ∧ reflect.TypeOf x = Some (Typ f)) ∧
     (Typ f = TBool → out = refused)) ∧
  (∀ s, value = VString s →
     (Typ f = TString → out = (Ok (<[i := VString s]> vals), d2)) ∧
     (Typ f = TSlice (TUint W8) →
        out = (Ok (<[i := VBytes (bytes_of_string s)]> vals), d2)) ∧
     (Typ f = TBool ∨ numeric (Typ f) → out = refused)) ∧
  (∀ b, value = VBool b →
     (Typ f = TBool → out = (Ok (<[i := VBool b]> vals), d2)) ∧
     (Typ f = TString ∨ numeric (Typ f) → out = refused)).
Proof.
  intros Hkey Hname Hfield Hstruct Hptr Hvalue Hsrc out refused numeric.
  assert (out = if negb (reflect.ConvertibleTo src (Typ f))
                then refused
                else (Ok (<[i := reflect.Convert value (Typ f)]> vals), d2))
    as Hout.
  { subst out refused. unfold struct_round, bind at 1, wrap at 1. rewrite Hkey.
    cbn [as_string]. rewrite Hname, Hfield.
    cbn [fmap option_fmap option_map default from_option]. unfold id.
    destruct (reflect.Kind_eqb (reflect.KindOf (Typ f)) reflect.Struct) eqn:Hk.
    { apply Kind_eqb_eq in Hk. contradiction. }
    rewrite Hptr. unfold bind at 1, wrap at 1. rewrite Hvalue, Hsrc.
    destruct (reflect.ConvertibleTo src (Typ f)); reflexivity. }
  clearbody out. subst refused.
  split; [|split; [|split; [|split]]].
  - rewrite Hout. destruct (reflect.ConvertibleTo src (Typ f)); cbn; split;
      intros H; try reflexivity; discriminate H.
  - intros Hc. rewrite Hout, Hc. reflexivity.
  - intros n [w Hn]. repeat apply conj.
    + intros w' Hf. rewrite Hout, Hf.
      destruct Hn as [-> | ->]; cbn in Hsrc; injection Hsrc as <-;
        destruct w, w'; reflexivity.
    + intros w' Hf. exists (to_int (bits w') n).
      split; [|apply to_int_spec, bits_pos].
      rewrite Hout, Hf.
      destruct Hn as [-> | ->]; cbn in Hsrc; injection Hsrc as <-;
        destruct w, w'; reflexivity.
    + intros Hf. exists (reflect.EncodeRune n).
      split; [|exact (EncodeRune_bytes n)].
      rewrite Hout, Hf.
      destruct Hn as [-> | ->]; cbn in Hsrc; injection Hsrc as <-;
        destruct w; reflexivity.
    + intros Hf. rewrite Hout.
      destruct Hf as [Hf|Hf]; rewrite Hf;
        destruct Hn as [-> | ->]; cbn in Hsrc; injection Hsrc as <-;
        destruct w; (eexists; split; reflexivity).
    + intros Hf. rewrite Hout, Hf.
      destruct Hn as [-> | ->]; cbn in Hsrc; injection Hsrc as <-;
        destruct w; reflexivity.
  - intros s ->. cbn in Hsrc. injection Hsrc as <-. repeat apply conj.
    + intros Hf. rewrite Hout, Hf. reflexivity.
    + intros Hf. rewrite Hout, Hf. reflexivity.
    + intros [Hf|[[w [Hf|Hf]]|[Hf|Hf]]]; rewrite Hout, Hf;
        try destruct w; reflexivity.
  - intros b ->. cbn in Hsrc. injection Hsrc as <-. repeat apply conj.
    + intros Hf. rewrite Hout, Hf. reflexivity.
    + intros [Hf|[[w [Hf|Hf]]|[Hf|Hf]]]; rewrite Hout, Hf;
        try destruct w; reflexivity.
Qed.

Lemma generic_field_conversion_witness :
  let decode := Decode_ no_user_types 4 in
  let zero := [VUint W8 0; VString ""] in
  let table := name2field_from 0 Narrow_fields ∅ in
  (∃ d2,
     struct_round decode Narrow_fields table zero
       (NewDecoder [0xa1; 0x61; 0xcd; 0x01; 0x41] empty_pool)
     = (Ok [VUint W8 0x41; VString ""], d2)) ∧
  (∃ d2,
     struct_round decode Narrow_fields table zero
       (NewDecoder [0xa1; 0x73; 0xcd; 0x01; 0x41] empty_pool)
     = (Ok [VUint W8 0; VString (string_of_bytes [0xc5; 0x81])], d2)) ∧
  (∃ d2,
     struct_round decode Narrow_fields table zero
       (NewDecoder [0xa1; 0x61; 0xa1; 0x41] empty_pool)
     = (Fail (Errorf "msgpack: cannot convert from %s to %s"), d2)).
Proof.
  intros decode zero table.
  split; [|split].
  - set (d := NewDecoder [0xa1; 0x61; 0xcd; 0x01; 0x41] empty_pool).
    set (d1 := (decode (Pointer TString) d).2).
    set (d2 := (decode (Pointer TInterface) d1).2).
    exists d2.
    pose proof (generic_field_conversion decode Narrow_fields table zero
                  d d1 d2 "a" 0%nat (mkField "A" "" "a" (TUint W8))
                  (VUint W16 0x141) (TUint W16)) as H.
    cbv zeta in H.
    destruct H as (_ & _ & H & _).
    + vm_compute; reflexivity.
    + vm_compute; reflexivity.
    + reflexivity.
    + discriminate.
    + reflexivity.
    + vm_compute; reflexivity.
    + reflexivity.
    + destruct (H 0x141) as (H8 & _); [exists W16; right; reflexivity|].
      exact (H8 W8 eq_refl).
  - set (d := NewDecoder [0xa1; 0x73; 0xcd; 0x01; 0x41] empty_pool).
    set (d1 := (decode (Pointer TString) d).2).
    set (d2 := (decode (Pointer TInterface) d1).2).
    exists d2.
    pose proof (generic_field_conversion decode Narrow_fields table zero
                  d d1 d2 "s" 1%nat (mkField "S" "" "s" TString)
                  (VUint W16 0x141) (TUint W16)) as H.
    cbv zeta in H.
    destruct H as (_ & _ & H & _).
    + vm_compute; reflexivity.
    + vm_compute; reflexivity.
    + reflexivity.
    + discriminate.
    + reflexivity.
    + vm_compute; reflexivity.
    + reflexivity.
    + destruct (H 0x141) as (_ & _ & Hs & _);
        [exists W16; right; reflexivity|].
      destruct (Hs eq_refl) as (utf8 & Hout & _ & H2 & _).
      rewrite Hout, H2 by lia. reflexivity.
  - set (d := NewDecoder [0xa1; 0x61; 0xa1; 0x41] empty_pool).
    set (d1 := (decode (Pointer TString) d).2).
    set (d2 := (decode (Pointer TInterface) d1).2).
    exists d2.
    pose proof (generic_field_conversion decode Narrow_fields table zero
                  d d1 d2 "a" 0%nat (mkField "A" "" "a" (TUint W8))
                  (VString "A") TString) as H.
    cbv zeta in H.
    destruct H as (_ & _ & _ & H & _).
    + vm_compute; reflexivity.
    + vm_compute; reflexivity.
    + reflexivity.
    + discriminate.
    + reflexivity.
    + vm_compute; reflexivity.
    + reflexivity.
    + destruct (H "A" eq_refl) as (_ & _ & Hr).
      apply Hr. right. left. exists W8. right. reflexivity.
Defined.

(** The same on the wire: a map that gives 0x0141, a [uint16], to the [uint8]
    field leaves 0x41 there; given to the string field it leaves the string of
    U+0141; a string given to the [uint8] field is refused. *)
Example narrowing_on_the_wire :
  (∃ d', Decode no_user_types (Pointer Narrow)
           (NewDecoder [0x81; 0xa1; 0x61; 0xcd; 0x01; 0x41] empty_pool)
         = (Ok (VStruct "Narrow" Narrow_fields [VUint W8 0x41; VString ""]), d')) ∧
  (∃ d', Decode no_user_types (Pointer Narrow)
           (NewDecoder [0x81; 0xa1; 0x73; 0xcd; 0x01; 0x41] empty_pool)
         = (Ok (VStruct "Narrow" Narrow_fields
                  [VUint W8 0; VString (string_of_bytes [0xc5; 0x81])]), d')) ∧
  (∃ d', Decode no_user_types (Pointer Narrow)
           (NewDecoder [0x81; 0xa1; 0x61; 0xa1; 0x41] empty_pool)
         = (Fail (Wrapped "msgpack: failed to decode value"
                    (Errorf "msgpack: cannot convert from %s to %s")), d')).
Proof.
  repeat split; eexists; vm_compute; reflexivity.
Qed.

(** ** Supporting facts about the decoder *)

Lemma Decode_unfold (env : Env) (T : GoType) (tag : Z) (rest : list Z)
    (last : option Z) (pool : Pool) :
  DecodeMsgpack env (TPtr T) = None →
  Decode env (Pointer T) (mkDecoder (mkReader (tag :: rest) last) pool) =
    (dec <- select_decoder tag T ;;
     decoded <- wrap (valueDecoder_Decode env
                        (Decode_ env (S (List.length rest)))
                        (S (List.length rest)) dec)
                     "msgpack: failed to decode value" ;;
     assign_decoded T decoded)
      (mkDecoder (mkReader rest (Some tag)) pool).
Proof.
  intros Hself. unfold Decode. cbn [unread r List.length Decode_].
  unfold Decode_body. cbn [Target_type mbind option_bind]. rewrite Hself.
  reflexivity.
Qed.

(** Whatever the key, if it names no field the round is over once the key
    has been read: the reader stands where the value begins. *)
Lemma struct_round_unknown_key (decode : Target → M Decoder Value)
    (fields : list StructField) (name2field : gmap string nat)
    (vals : list Value) (d d1 : Decoder) (key : string) :
  decode (Pointer TString) d = (Ok (VString key), d1) →
  name2field !! key = None →
  struct_round decode fields name2field vals d = (Ok vals, d1).
Proof.
  intros Hkey Hname. unfold struct_round, bind, wrap. rewrite Hkey.
  cbn [as_string]. rewrite Hname. reflexivity.
Qed.

Lemma ReadUint8_cons (b : Z) (rest : list Z) (last : option Z) (pool : Pool) :
  Reader.ReadUint8 (mkDecoder (mkReader (b :: rest) last) pool)
  = (Ok b, mkDecoder (mkReader rest (Some b)) pool).
Proof. reflexivity. Qed.

Lemma ReadByte_cons (b : Z) (rest : list Z) (last : option Z) (pool : Pool) :
  Reader.ReadByte (mkDecoder (mkReader (b :: rest) last) pool)
  = (Ok b, mkDecoder (mkReader rest (Some b)) pool).
Proof. reflexivity. Qed.

(** For Ext8 the decoder does what is expected of it: the length byte is
    read, then the type byte, and the user decoder of the registered type
    gets the next [L] bytes and no more. *)
Lemma Decode_Ext8_bounded (env : Env) (L typ : Z) (rest : list Z)
    (T : GoType) (method : list Z → nat * (Value + error)) (n : nat)
    (v : Value) (last : option Z) (pool : Pool) :
  DecodeMsgpack env (TPtr TInterface) = None →
  extDecodeRegistry env !! typ = Some T →
  type_eqb T TInterface = false →
  DecodeMsgpackExt env (TPtr T) = Some method →
  method (take (Z.to_nat L) rest) = (n, inl v) →
  ∃ d', Decode env (Pointer TInterface)
          (mkDecoder (mkReader (0xc7 :: L :: typ :: rest) last) pool)
        = (Ok (VPtr T v), d')
        ∧ unread (r d') = drop (n `min` List.length (take (Z.to_nat L) rest)) rest.
Proof.
  intros Hself Hreg HT Hmeth Hrun.
  rewrite Decode_unfold by exact Hself.
  unfold bind at 1, select_decoder, wrap at 1, lookupDecoder.
  replace (decoders !! 199) with (Some (extDecoder Code.Ext8))
    by (vm_compute; reflexivity).
  change (Code.IsMapFamily 199) with false. cbn [andb ret].
  unfold bind at 1, wrap at 1. cbn [valueDecoder_Decode].
  unfold extDecoder_Decode. cbv zeta.
  change (Code.Ext8 =? Code.Ext8) with true. cbv iota.
  change (0 <? 1) with true. cbv iota beta.
  unfold bind at 1, wrap at 1. rewrite ReadUint8_cons.
  unfold bind at 1, catch at 1. rewrite ReadByte_cons.
  cbn [default from_option id]. unfold id. rewrite Hreg, Hmeth.
  unfold io.LimitReader. cbn [unread r]. rewrite Hrun.
  unfold bind at 1, bufio.Read. cbn [unread r fst snd with_reader dpool ret].
  unfold assign_decoded. cbn [reflect.IsValid type_eqb].
  unfold Value_Set. cbn [reflect.TypeOf assignable type_eqb orb reflect.KindOf
    reflect.Kind_eqb ret].
  rewrite HT. eexists. split; reflexivity.
Qed.

(** ** [Decode] always comes to a result *)

Lemma tame_ret {A} (a : A) : tame (ret a).
Proof. intros d. cbn. split; [discriminate|lia]. Qed.

Lemma tame_fail {A} (e : error) : tame (@fail Decoder A e).
Proof. intros d. cbn. split; [discriminate|lia]. Qed.

Lemma tame_panic {A} (msg : string) : tame (@panic Decoder A msg).
Proof. intros d. cbn. split; [discriminate|lia]. Qed.

Lemma tame_bind {A B} (m : M Decoder A) (k : A → M Decoder B) :
  tame m → (∀ a, tame (k a)) → tame (bind m k).
Proof.
  intros Hm Hk d. unfold bind. specialize (Hm d).
  destruct (m d) as [[a| | |] d']; cbn in *.
  - specialize (Hk a d'). destruct Hk. split; [assumption|lia].
  - split; [discriminate|lia].
  - split; [discriminate|lia].
  - destruct Hm as [Hm _]. contradiction.
Qed.

Lemma tame_wrap {A} (m : M Decoder A) (msg : string) : tame m → tame (wrap m msg).
Proof.
  intros Hm d. unfold wrap. specialize (Hm d).
  destruct (m d) as [[a| | |] d']; cbn in *; (split; [|lia]);
    try discriminate. destruct Hm as [Hm _]. contradiction.
Qed.

Lemma tame_catch {A} (m : M Decoder A) : tame m → tame (catch m).
Proof.
  intros Hm d. unfold catch. specialize (Hm d).
  destruct (m d) as [[a| | |] d']; cbn in *; (split; [|lia]);
    try discriminate. destruct Hm as [Hm _]. contradiction.
Qed.

Lemma tame_unchecked {A} (m : M Decoder A) : tame m → tame (unchecked m).
Proof.
  intros Hm d. unfold unchecked. specialize (Hm d).
  destruct (m d) as [[a| | |] d']; cbn in *; (split; [|lia]);
    try discriminate. destruct Hm as [Hm _]. contradiction.
Qed.

Lemma tame_return_with {A} (a : A) (err : option error) :
  tame (@return_with Decoder A a err).
Proof. destruct err; [apply tame_fail|apply tame_ret]. Qed.

Lemma tame_defer {A} (cleanup : Decoder → Decoder) (m : M Decoder A) :
  (∀ d, avail (cleanup d) = avail d) → tame m → tame (defer cleanup m).
Proof.
  intros Hc Hm d. unfold defer. specialize (Hm d).
  destruct (m d) as [o d']; cbn in *. rewrite Hc. exact Hm.
Qed.

Lemma tame_Read (n : nat) : tame (bufio.Read n).
Proof.
  intros d. cbn. split; [discriminate|].
  unfold avail, len. cbn. rewrite length_drop. lia.
Qed.

Lemma tame_bufio_ReadByte : tame bufio.ReadByte.
Proof.
  intros [[u lb] p]. unfold bufio.ReadByte, avail, len.
  destruct u; cbn; (split; [discriminate|lia]).
Qed.

Lemma tame_pool_step {A} (f : Decoder → A * Pool) :
  tame (λ d, let '(a, p) := f d in (Ok a, with_pool p d)).
Proof. intros d. destruct (f d). cbn. split; [discriminate|]. unfold avail. cbn. lia. Qed.

Lemma tame_Get : tame (@bufferpool.Get Decoder _).
Proof.
  intros d. unfold bufferpool.Get. destruct (pool_get (the_pool d)). cbn.
  split; [discriminate|]. unfold avail; cbn; lia.
Qed.

Lemma avail_Release (buf : nat) (d : Decoder) :
  avail (bufferpool.Release buf d) = avail d.
Proof. reflexivity. Qed.

Lemma tame_release_now (buf : nat) : tame (@release_now Decoder _ buf).
Proof. intros d. cbn. split; [discriminate|]. unfold avail; cbn; lia. Qed.

Lemma tame_buf_Write (buf : nat) (bs : list Z) : tame (@buf_Write Decoder _ buf bs).
Proof. intros d. cbn. split; [discriminate|]. unfold avail; cbn; lia. Qed.

Lemma tame_buf_Bytes (buf : nat) : tame (@buf_Bytes Decoder _ buf).
Proof. intros d. cbn. split; [discriminate|]. lia. Qed.

Lemma tame_buf_String (buf : nat) : tame (@buf_String Decoder _ buf).
Proof. intros d. cbn. split; [discriminate|]. lia. Qed.

Lemma tame_if {A} (b : bool) (m1 m2 : M Decoder A) :
  tame m1 → tame m2 → tame (if b then m1 else m2).
Proof. destruct b; auto. Qed.

Create HintDb tame.
#[local] Hint Resolve tame_ret tame_fail tame_panic tame_wrap tame_catch
  tame_unchecked tame_return_with tame_Read tame_bufio_ReadByte tame_Get
  tame_release_now tame_buf_Write tame_buf_Bytes tame_buf_String tame_if
  : tame.

Ltac tame_steps :=
  repeat first
    [ progress intros
    | apply tame_bind
    | apply tame_if
    | apply tame_defer; [intros; apply avail_Release|]
    | solve [auto with tame]
    | match goal with
      | |- tame (match ?x with _ => _ end) => destruct x
      | |- tame (let '(_, _) := ?x in _) => destruct x
      end ].

Lemma tame_ReadFull (n : nat) : tame (io.ReadFull n).
Proof. unfold io.ReadFull. tame_steps. Qed.

Lemma tame_CopyN (buf : nat) (l : Z) : tame (io.CopyN buf l).
Proof. unfold io.CopyN. tame_steps. Qed.

Lemma tame_Reader_ReadByte : tame Reader.ReadByte.
Proof. unfold Reader.ReadByte. apply tame_bind; [apply tame_ReadFull|]. tame_steps. Qed.
Lemma tame_ReadUint8 : tame Reader.ReadUint8.
Proof. unfold Reader.ReadUint8. apply tame_bind; [apply tame_ReadFull|]. tame_steps. Qed.
Lemma tame_ReadUint16 : tame Reader.ReadUint16.
Proof. unfold Reader.ReadUint16. apply tame_bind; [apply tame_ReadFull|]. tame_steps. Qed.
Lemma tame_ReadUint32 : tame Reader.ReadUint32.
Proof. unfold Reader.ReadUint32. apply tame_bind; [apply tame_ReadFull|]. tame_steps. Qed.
Lemma tame_ReadUint64 : tame Reader.ReadUint64.
Proof. unfold Reader.ReadUint64. apply tame_bind; [apply tame_ReadFull|]. tame_steps. Qed.

#[local] Hint Resolve tame_ReadFull tame_CopyN tame_Reader_ReadByte
  tame_ReadUint8 tame_ReadUint16 tame_ReadUint32 tame_ReadUint64 : tame.

Lemma tame_leaves (code : Z) :
  tame nilDecoder_Decode ∧ tame (boolDecoder_Decode code) ∧
  tame (floatDecoder_Decode code) ∧ tame (uintDecoder_Decode code) ∧
  tame (intDecoder_Decode code) ∧ tame (strDecoder_Decode code) ∧
  tame (fixstrDecoder_Decode code) ∧ tame (array_size code) ∧
  tame (map_size code).
Proof.
  unfold nilDecoder_Decode, boolDecoder_Decode, floatDecoder_Decode,
    uintDecoder_Decode, intDecoder_Decode, strDecoder_Decode,
    fixstrDecoder_Decode, array_size, map_size.
  repeat apply conj; tame_steps.
Qed.

Lemma tame_extDecoder (env : Env) (code : Z) : tame (extDecoder_Decode env code).
Proof.
  unfold extDecoder_Decode. tame_steps.
  match goal with
  | |- tame (λ d, let '(_, _) := ?p (io.LimitReader ?a d) in _) =>
      intros d; destruct (p (io.LimitReader a d)) as [n result]
  end.
  generalize (Nat.min n (List.length (io.LimitReader a d))). intros k.
  revert d. apply tame_bind; tame_steps.
Qed.

Lemma tame_lookupDecoder (code : Z) : tame (lookupDecoder code).
Proof. unfold lookupDecoder. tame_steps. Qed.

Lemma tame_select_decoder (code : Z) (T : GoType) : tame (select_decoder code T).
Proof. unfold select_decoder. tame_steps. apply tame_wrap, tame_lookupDecoder. Qed.

Lemma tame_assign_decoded (T : GoType) (decoded : Value) :
  tame (assign_decoded T decoded).
Proof. unfold assign_decoded, Value_Set. tame_steps. Qed.

Lemma avail_nonneg (d : Decoder) : 0 <= avail d.
Proof. unfold avail, len. lia. Qed.

Lemma tame_below {A} (n : Z) (m : M Decoder A) : tame m → below n m.
Proof. intros Hm d _. apply Hm. Qed.

Lemma strict_below {A} (n : Z) (m : M Decoder A) : strict n m → below n m.
Proof. intros Hm d Hd. destruct (Hm d Hd) as (? & ? & _). split; assumption. Qed.

Lemma below_bind {A B} (n : Z) (m : M Decoder A) (k : A → M Decoder B) :
  below n m → (∀ a, below n (k a)) → below n (bind m k).
Proof.
  intros Hm Hk d Hd. unfold bind. specialize (Hm d Hd).
  destruct (m d) as [[a| | |] d']; cbn in *.
  - destruct (Hk a d') as [? ?]; [lia|]. split; [assumption|lia].
  - split; [discriminate|lia].
  - split; [discriminate|lia].
  - destruct Hm as [Hm _]. contradiction.
Qed.

Lemma strict_bind {A B} (n : Z) (m : M Decoder A) (k : A → M Decoder B) :
  strict n m → (∀ a, below n (k a)) → strict n (bind m k).
Proof.
  intros Hm Hk d Hd. unfold bind. specialize (Hm d Hd).
  destruct (m d) as [[a| | |] d']; cbn in *.
  - destruct Hm as (_ & ? & Hlt). specialize (Hlt a eq_refl).
    destruct (Hk a d') as [? ?]; [lia|].
    split; [assumption|]. split; [lia|]. intros; lia.
  - split; [discriminate|]. split; [lia|]. intros; discriminate.
  - split; [discriminate|]. split; [lia|]. intros; discriminate.
  - destruct Hm as [Hm _]. contradiction.
Qed.

Lemma below_wrap {A} (n : Z) (m : M Decoder A) (msg : string) :
  below n m → below n (wrap m msg).
Proof.
  intros Hm d Hd. unfold wrap. specialize (Hm d Hd).
  destruct (m d) as [[a| | |] d']; cbn in *; (split; [|lia]);
    try discriminate. destruct Hm as [Hm _]. contradiction.
Qed.

Lemma strict_wrap {A} (n : Z) (m : M Decoder A) (msg : string) :
  strict n m → strict n (wrap m msg).
Proof.
  intros Hm d Hd. unfold wrap. specialize (Hm d Hd).
  destruct (m d) as [[a| | |] d']; cbn in *.
  - exact Hm.
  - split; [discriminate|]. split; [lia|]. intros; discriminate.
  - split; [discriminate|]. split; [lia|]. intros; discriminate.
  - destruct Hm as [Hm _]. contradiction.
Qed.

Lemma below_mono {A} (n n' : Z) (m : M Decoder A) :
  n' <= n → below n m → below n' m.
Proof. intros Hn Hm d Hd. apply Hm. lia. Qed.

Lemma strict_mono {A} (n n' : Z) (m : M Decoder A) :
  n' <= n → strict n m → strict n' m.
Proof. intros Hn Hm d Hd. apply Hm. lia. Qed.

Lemma below_0 {A} (m : M Decoder A) : below 0 m.
Proof. intros d Hd. pose proof (avail_nonneg d). lia. Qed.

(** One round of a loop: the body reads at least a byte, so what follows
    needs one unit of fuel less. *)
Lemma loop_step {A B} (f : Z) (m : M Decoder A) (k : A → M Decoder B) :
  strict (f + 1) m → (∀ a, below f (k a)) → below (f + 1) (bind m k).
Proof.
  intros Hm Hk d Hd. unfold bind. specialize (Hm d Hd).
  destruct (m d) as [[a| | |] d']; cbn [fst snd] in *.
  - destruct Hm as (_ & ? & Hlt). specialize (Hlt a eq_refl).
    destruct (Hk a d') as [? ?]; [lia|]. split; [assumption|lia].
  - split; [discriminate|lia].
  - split; [discriminate|lia].
  - destruct Hm as [Hm _]. congruence.
Qed.

Section Loops.
Context (decode : Target → M Decoder Value) (n : Z).
Hypothesis decode_good : good n decode.

Lemma array_loop_below (fuel : nat) (i size : Z) (l : list Value) :
  Z.of_nat fuel <= n → below (Z.of_nat fuel) (array_loop decode fuel i size l).
Proof.
  revert i l. induction fuel as [|fuel IH]; intros i l Hn; [apply below_0|].
  cbn [array_loop]. destruct (i <? size); [|apply tame_below, tame_ret].
  destruct decode_good as [_ Hstrict].
  rewrite Nat2Z.inj_succ. unfold Z.succ. apply loop_step.
  - apply strict_wrap. eapply strict_mono; [|apply Hstrict]. lia.
  - intros x. apply IH. lia.
Qed.

Lemma map_loop_below (fuel : nat) (i size : Z) (m : list (Value * Value)) :
  Z.of_nat fuel <= n → below (Z.of_nat fuel) (map_loop decode fuel i size m).
Proof.
  revert i m. induction fuel as [|fuel IH]; intros i m Hn; [apply below_0|].
  cbn [map_loop]. destruct (i <? size); [|apply tame_below, tame_ret].
  destruct decode_good as [Hbelow Hstrict].
  rewrite Nat2Z.inj_succ. unfold Z.succ. apply loop_step.
  - apply strict_wrap. eapply strict_mono; [|apply Hstrict]. lia.
  - intros key. apply below_bind.
    + apply below_wrap. eapply below_mono; [|apply Hbelow]. lia.
    + intros value. apply IH. lia.
Qed.

Lemma struct_round_strict (fields : list StructField)
    (name2field : gmap string nat) (vals : list Value) :
  strict n (struct_round decode fields name2field vals).
Proof.
  destruct decode_good as [Hbelow Hstrict].
  unfold struct_round. apply strict_bind; [apply strict_wrap, Hstrict|].
  intros key. destruct (name2field !! as_string key); [|apply tame_below, tame_ret].
  repeat match goal with
         | |- below _ (if ?b then _ else _) => destruct b
         | |- below _ (match ?x with _ => _ end) => destruct x
         | |- below _ (bind _ _) => apply below_bind; [|intros]
         | |- below _ (wrap _ _) => apply below_wrap
         | |- below _ (decode _) => apply Hbelow
         | |- below _ (ret _) => apply tame_below, tame_ret
         | |- below _ (fail _) => apply tame_below, tame_fail
         | |- below _ (panic _) => apply tame_below, tame_panic
         end.
Qed.

Lemma struct_loop_below (fuel : nat) (fields : list StructField)
    (name2field : gmap string nat) (i size : Z) (vals : list Value) :
  Z.of_nat fuel <= n →
  below (Z.of_nat fuel) (struct_loop decode fuel fields name2field i size vals).
Proof.
  revert i vals. induction fuel as [|fuel IH]; intros i vals Hn; [apply below_0|].
  cbn [struct_loop]. destruct (i <? size); [|apply tame_below, tame_ret].
  rewrite Nat2Z.inj_succ. unfold Z.succ. apply loop_step.
  - eapply strict_mono; [|apply struct_round_strict]. lia.
  - intros vals'. apply IH. lia.
Qed.

End Loops.

Section Totality.
Context (env : Env).
(** No type decodes itself: [Decode] is the engine's own all the way down. *)
Hypothesis no_self_decoding : ∀ T, DecodeMsgpack env T = None.

Lemma valueDecoder_below (decode : Target → M Decoder Value) (fuel : nat)
    (dec : valueDecoder) :
  good (Z.of_nat fuel) decode →
  below (Z.of_nat fuel) (valueDecoder_Decode env decode fuel dec).
Proof.
  intros Hgood.
  destruct dec as [|code|code|code|code|code|code|code|code|code|code target];
    cbn [valueDecoder_Decode];
    try (apply tame_below;
         first [apply tame_extDecoder | apply (tame_leaves 0) | apply tame_leaves]).
  - unfold arrayDecoder_Decode.
    apply below_bind; [apply tame_below, tame_leaves|]. intros size.
    apply below_bind; [|intros; apply tame_below, tame_ret].
    eapply array_loop_below; [exact Hgood|lia].
  - unfold mapDecoder_Decode.
    apply below_bind; [apply tame_below, tame_leaves|]. intros size.
    apply below_bind; [|intros; apply tame_below, tame_ret].
    eapply map_loop_below; [exact Hgood|lia].
  - unfold structDecoder_Decode.
    apply below_bind; [apply tame_below, tame_leaves|]. intros size.
    destruct target; try apply tame_below, tame_panic.
    apply below_bind; [|intros; apply tame_below, tame_ret].
    eapply struct_loop_below; [exact Hgood|lia].
Qed.

Lemma Decode_body_strict (decode : Target → M Decoder Value) (fuel : nat)
    (T : GoType) :
  good (Z.of_nat fuel) decode →
  strict (Z.of_nat (S fuel)) (Decode_body env decode fuel (Pointer T)).
Proof.
  intros Hgood [[u lb] p] Hd.
  unfold Decode_body. cbn [Target_type mbind option_bind].
  rewrite no_self_decoding.
  destruct u as [|b rest].
  { cbn. split; [discriminate|]. split; [lia|]. intros; discriminate. }
  set (d2 := mkDecoder (mkReader rest (Some b)) p).
  set (rest_of_Decode :=
         dec <- select_decoder b T ;;
         decoded <- wrap (valueDecoder_Decode env decode fuel dec)
                         "msgpack: failed to decode value" ;;
         assign_decoded T decoded).
  change ((rest_of_Decode d2).1 ≠ OutOfFuel ∧
          avail (rest_of_Decode d2).2 <= avail (mkDecoder (mkReader (b :: rest) lb) p) ∧
          ∀ a, (rest_of_Decode d2).1 = Ok a →
               avail (rest_of_Decode d2).2 < avail (mkDecoder (mkReader (b :: rest) lb) p)).
  assert (avail (mkDecoder (mkReader (b :: rest) lb) p) = avail d2 + 1) as Hav
    by (unfold avail, len; cbn; lia).
  rewrite Hav in *.
  assert (below (Z.of_nat fuel) rest_of_Decode) as Hrest.
  { unfold rest_of_Decode.
    apply below_bind; [apply tame_below, tame_select_decoder|]. intros dec.
    apply below_bind; [|intros; apply tame_below, tame_assign_decoded].
    apply below_wrap, valueDecoder_below, Hgood. }
  destruct (Hrest d2) as [? ?]; [lia|].
  split; [assumption|]. split; [lia|]. intros; lia.
Qed.

Lemma Decode_body_good (decode : Target → M Decoder Value) (fuel : nat) :
  good (Z.of_nat fuel) decode →
  good (Z.of_nat (S fuel)) (Decode_body env decode fuel).
Proof.
  intros Hgood. split; [|intros T; apply Decode_body_strict, Hgood].
  intros [T|T|T].
  - apply strict_below, Decode_body_strict, Hgood.
  - unfold Decode_body. cbn [Target_type mbind option_bind].
    rewrite no_self_decoding. apply tame_below, tame_fail.
  - unfold Decode_body. destruct T as [T|]; cbn [Target_type mbind option_bind];
      rewrite ?no_self_decoding; apply tame_below, tame_fail.
Qed.

Lemma Decode_good (fuel : nat) : good (Z.of_nat fuel) (Decode_ env fuel).
Proof.
  induction fuel as [|fuel IH].
  - split; intros; intros d Hd; pose proof (avail_nonneg d); lia.
  - apply Decode_body_good, IH.
Qed.

(** With the fuel it gives itself, [Decode] never runs short: every call
    comes to a value, an error or a panic, and it gives no byte back to the
    stream. *)
Theorem Decode_total (v : Target) (d : Decoder) :
  (Decode env v d).1 ≠ OutOfFuel ∧ avail (Decode env v d).2 <= avail d.
Proof.
  unfold Decode.
  destruct (Decode_good (S (List.length (unread (r d))))) as [Hbelow _].
  apply Hbelow. unfold avail, len. lia.
Qed.

End Totality.

(** * Further properties of the engine *)

(** ** Stepping the decoder *)

Lemma big_endian_length (k : nat) (n : Z) : List.length (big_endian k n) = k.
Proof. induction k as [|k IH]; cbn; [reflexivity|]. f_equal. exact IH. Qed.

Lemma big_endian_fold (k : nat) (n acc : Z) :
  0 <= acc →
  fold_left (λ acc b, Z.lor (Z.shiftl acc 8) b) (big_endian k n) acc
  = acc * 2 ^ (8 * Z.of_nat k) + n mod 2 ^ (8 * Z.of_nat k).
Proof.
  revert acc. induction k as [|k IH]; intros acc Hacc.
  - cbn. rewrite Z.mod_1_r. lia.
  - cbn [big_endian fold_left].
    rewrite land_255, Z.shiftr_div_pow2, Z.shiftl_mul_pow2 by lia.
    pose proof (Z.mod_pos_bound (n / 2 ^ (8 * Z.of_nat k)) 256 ltac:(lia)) as Hb.
    rewrite (lor_fix _ _ 8);
      [|change (2 ^ 8) with 256; lia|lia|apply Z.mod_mul; lia].
    rewrite IH by lia.
    replace (8 * Z.of_nat (S k)) with (8 * Z.of_nat k + 8) by lia.
    rewrite Z.pow_add_r by lia. change (2 ^ 8) with 256.
    rewrite (Z.rem_mul_r n (2 ^ (8 * Z.of_nat k)) 256) by lia.
    lia.
Qed.

(** Reading back what was written big-endian. *)
Lemma from_big_endian_big_endian (k : nat) (n : Z) :
  from_big_endian (big_endian k n) = n mod 2 ^ (8 * Z.of_nat k).
Proof. unfold from_big_endian. rewrite big_endian_fold by lia. lia. Qed.

Lemma ReadFull_app (bs rest : list Z) (last : option Z) (pool : Pool) :
  bs ≠ [] →
  io.ReadFull (List.length bs) (reading (bs ++ rest) last pool)
  = (Ok bs, reading rest (list.last bs) pool).
Proof.
  intros Hne. unfold io.ReadFull, bind, bufio.Read, reading.
  cbn [unread r lastByte with_reader dpool].
  rewrite take_app_length, drop_app_length, Nat.eqb_refl.
  destruct (list.last bs) eqn:Hl; [reflexivity|].
  apply last_None in Hl. contradiction.
Qed.

Lemma ReadFull_short (n : nat) (bs : list Z) (last : option Z) (pool : Pool) :
  (List.length bs < n)%nat →
  ∃ e d', io.ReadFull n (reading bs last pool) = (Fail e, d')
          ∧ (e = EOF ∨ e = ErrUnexpectedEOF).
Proof.
  intros Hn. unfold io.ReadFull, bind, bufio.Read, reading.
  cbn [unread r lastByte with_reader dpool].
  rewrite take_ge by lia.
  destruct (Nat.eqb_spec (List.length bs) n); [lia|].
  destruct (List.length bs =? 0)%nat; do 2 eexists; (split; [reflexivity|]); auto.
Qed.

Lemma select_decoder_table (code : Z) (T : GoType) (dec : valueDecoder)
    (d : Decoder) :
  Code.IsMapFamily code = false →
  decoders !! code = Some dec →
  select_decoder code T d = (Ok dec, d).
Proof.
  intros Hm Hd. unfold select_decoder, wrap, lookupDecoder.
  rewrite Hm, Hd. reflexivity.
Qed.

(** [Decode] into a pointer, for a code of the table that is not of the map
    family: the tag is read, the leaf decoder runs, its value is assigned. *)
Lemma Decode_leaf (env : Env) (T : GoType) (code : Z) (dec : valueDecoder)
    (rest : list Z) (last : option Z) (pool : Pool) :
  DecodeMsgpack env (TPtr T) = None →
  Code.IsMapFamily code = false →
  decoders !! code = Some dec →
  Decode env (Pointer T) (reading (code :: rest) last pool) =
    (decoded <- wrap (valueDecoder_Decode env
                        (Decode_ env (S (List.length rest)))
                        (S (List.length rest)) dec)
                     "msgpack: failed to decode value" ;;
     assign_decoded T decoded) (reading rest (Some code) pool).
Proof.
  intros Hself Hm Hd. unfold reading. rewrite Decode_unfold by exact Hself.
  unfold bind at 1. rewrite (select_decoder_table _ _ dec) by assumption.
  reflexivity.
Qed.

(** ** Scalars *)

Lemma nonempty_of_length {A} (l : list A) (k : nat) :
  List.length l = S k → l ≠ [].
Proof. intros H ->. discriminate H. Qed.

Lemma ReadFull_exact (k : nat) (bs rest : list Z) (last : option Z) (pool : Pool) :
  List.length bs = S k →
  io.ReadFull (S k) (reading (bs ++ rest) last pool)
  = (Ok bs, reading rest (list.last bs) pool).
Proof.
  intros Hlen. rewrite <- Hlen. apply ReadFull_app.
  eapply nonempty_of_length, Hlen.
Qed.

(** The value a leaf decoder makes of the payload [bs] of an integer or
    float frame. *)
Lemma Decode_uint_frame (env : Env) (T : GoType) (w : width) (bs rest : list Z)
    (last : option Z) (pool : Pool) :
  DecodeMsgpack env (TPtr T) = None →
  List.length bs = octets w →
  Decode env (Pointer T) (reading (uint_code w :: bs ++ rest) last pool)
  = assign_decoded T
      (VUint (match w with Wplatform => W64 | _ => w end) (from_big_endian bs))
      (reading rest (list.last bs) pool).
Proof.
  intros Hself Hlen.
  rewrite (Decode_leaf env T (uint_code w) (uintDecoder (uint_code w)));
    [|assumption|destruct w; reflexivity|destruct w; vm_compute; reflexivity].
  unfold bind at 1, wrap at 1. cbn [valueDecoder_Decode].
  unfold uintDecoder_Decode.
  destruct w; cbn [octets] in Hlen; cbn [uint_code];
    repeat match goal with
           | |- context [?c =? ?c'] =>
               let b := eval vm_compute in (c =? c') in
               change (c =? c') with b; cbv iota
           end;
    unfold bind at 1, wrap at 1, Reader.ReadUint8, Reader.ReadUint16,
      Reader.ReadUint32, Reader.ReadUint64, bind at 1;
    rewrite (ReadFull_exact _ bs) by exact Hlen; reflexivity.
Qed.

Lemma Decode_int_frame (env : Env) (T : GoType) (w : width) (bs rest : list Z)
    (last : option Z) (pool : Pool) :
  DecodeMsgpack env (TPtr T) = None →
  List.length bs = octets w →
  Decode env (Pointer T) (reading (int_code w :: bs ++ rest) last pool)
  = assign_decoded T
      (VInt (match w with Wplatform => W64 | _ => w end)
            (to_int (bits w) (from_big_endian bs)))
      (reading rest (list.last bs) pool).
Proof.
  intros Hself Hlen.
  rewrite (Decode_leaf env T (int_code w) (intDecoder (int_code w)));
    [|assumption|destruct w; reflexivity|destruct w; vm_compute; reflexivity].
  unfold bind at 1, wrap at 1. cbn [valueDecoder_Decode].
  unfold intDecoder_Decode.
  destruct w; cbn [octets] in Hlen; cbn [int_code];
    repeat match goal with
           | |- context [?c =? ?c'] =>
               let b := eval vm_compute in (c =? c') in
               change (c =? c') with b; cbv iota
           end;
    unfold bind at 1, wrap at 1, Reader.ReadUint8, Reader.ReadUint16,
      Reader.ReadUint32, Reader.ReadUint64, bind at 1;
    rewrite (ReadFull_exact _ bs) by exact Hlen; reflexivity.
Qed.

Lemma Encode_uint (env : Env) (w : width) (n : Z) (e : Encoder) :
  Encode env (VUint w n) e
  = (Ok tt, emit (uint_code w :: big_endian (octets w) n) e).
Proof.
  destruct w; try reflexivity.
  unfold Encode, Encode_, EncodeUint64, wrap, Writer.WriteByteUint64.
  rewrite Write_emit. unfold uint64, to_uint. rewrite big_endian_8_mod.
  reflexivity.
Qed.

Lemma big_endian_mod (k j : nat) (n : Z) :
  (k <= j)%nat →
  big_endian k (n mod 2 ^ (8 * Z.of_nat j)) = big_endian k n.
Proof.
  induction k as [|k IH]; intros Hk; [reflexivity|].
  cbn [big_endian]. rewrite IH by lia. f_equal.
  rewrite !land_255, !Z.shiftr_div_pow2 by lia.
  apply byte_of_mod; lia.
Qed.

Lemma Encode_int (env : Env) (w : width) (n : Z) (e : Encoder) :
  Encode env (VInt w n) e
  = (Ok tt, emit (int_code w :: big_endian (octets w) n) e).
Proof.
  destruct w;
    unfold Encode, Encode_, EncodeInt8, EncodeInt16, EncodeInt32, EncodeInt64,
      wrap, Writer.WriteByteUint8, Writer.WriteByteUint16,
      Writer.WriteByteUint32, Writer.WriteByteUint64;
    rewrite Write_emit; cbn [int_code octets];
    rewrite ?uint64_int64;
    unfold uint8, uint16, uint32, uint64, to_uint.
  - apply (f_equal (λ l, (Ok tt, emit (Code.Int8 :: l) e))).
    exact (big_endian_mod 1 1 n (le_n _)).
  - apply (f_equal (λ l, (Ok tt, emit (Code.Int16 :: l) e))).
    exact (big_endian_mod 2 2 n (le_n _)).
  - apply (f_equal (λ l, (Ok tt, emit (Code.Int32 :: l) e))).
    exact (big_endian_mod 4 4 n (le_n _)).
  - apply (f_equal (λ l, (Ok tt, emit (Code.Int64 :: l) e))).
    exact (big_endian_mod 8 8 n (le_n _)).
  - apply (f_equal (λ l, (Ok tt, emit (Code.Int64 :: l) e))).
    exact (big_endian_mod 8 8 n (le_n _)).
Qed.

Lemma width_eqb_refl (w : width) : width_eqb w w = true.
Proof. destruct w; reflexivity. Qed.

Lemma emit_NewEncoder (bs : list Z) : emit bs NewEncoder = mkEncoder bs empty_pool.
Proof. reflexivity. Qed.

(** Unsigned integers of a declared width.  [Encode] writes the tag of
    the width and exactly that many bytes, whatever the magnitude; [Decode]
    of these bytes, whatever follows them, into a variable of the same type
    or into an empty interface gives the value back and stops at the end of
    the frame. *)
Theorem roundtrip_uint (env : Env) (w : width) (n : Z) (T : GoType)
    (rest : list Z) (last : option Z) (pool : Pool) :
  w ≠ Wplatform →
  0 <= n < 2 ^ bits w →
  T = TUint w ∨ T = TInterface →
  DecodeMsgpack env (TPtr T) = None →
  ∃ wire d',
    Encode env (VUint w n) NewEncoder = (Ok tt, mkEncoder wire empty_pool) ∧
    len wire = 1 + bits w / 8 ∧
    Decode env (Pointer T) (reading (wire ++ rest) last pool)
      = (Ok (VUint w n), d') ∧
    unread (r d') = rest ∧ dpool d' = pool.
Proof.
  intros Hw Hn HT Hself.
  exists (uint_code w :: big_endian (octets w) n).
  eexists. split; [rewrite Encode_uint; reflexivity|].
  split.
  { unfold len. cbn [List.length]. rewrite big_endian_length.
    destruct w; reflexivity. }
  cbn [app]. rewrite Decode_uint_frame;
    [|assumption|apply big_endian_length].
  rewrite from_big_endian_big_endian.
  replace (8 * Z.of_nat (octets w)) with (bits w) by (destruct w; reflexivity).
  rewrite Z.mod_small by lia.
  unfold assign_decoded, Value_Set.
  destruct HT as [-> | ->]; destruct w; try contradiction;
    (split; [reflexivity|split; reflexivity]).
Qed.

Lemma roundtrip_uint_witness :
  ∃ wire d',
    Encode no_user_types (VUint W16 256) NewEncoder
      = (Ok tt, mkEncoder wire empty_pool) ∧
    len wire = 3 ∧
    Decode no_user_types (Pointer (TUint W16))
      (reading (wire ++ [0xc0]) None empty_pool) = (Ok (VUint W16 256), d') ∧
    unread (r d') = [0xc0] ∧ dpool d' = empty_pool.
Proof.
  apply (roundtrip_uint no_user_types W16 256 (TUint W16) [0xc0] None empty_pool).
  - discriminate.
  - vm_compute. split; [discriminate|reflexivity].
  - left; reflexivity.
  - reflexivity.
Defined.

(** Signed integers of a declared width.  [Encode] writes the tag of the
    width and the two's complement of the value on exactly that many bytes;
    [Decode] of these bytes, whatever follows them, into a variable of the
    same type or into an empty interface gives the value back, sign
    included, and stops at the end of the frame. *)
Theorem roundtrip_int (env : Env) (w : width) (n : Z) (T : GoType)
    (rest : list Z) (last : option Z) (pool : Pool) :
  w ≠ Wplatform →
  - 2 ^ (bits w - 1) <= n < 2 ^ (bits w - 1) →
  T = TInt w ∨ T = TInterface →
  DecodeMsgpack env (TPtr T) = None →
  ∃ wire d',
    Encode env (VInt w n) NewEncoder = (Ok tt, mkEncoder wire empty_pool) ∧
    len wire = 1 + bits w / 8 ∧
    Decode env (Pointer T) (reading (wire ++ rest) last pool)
      = (Ok (VInt w n), d') ∧
    unread (r d') = rest ∧ dpool d' = pool.
Proof.
  intros Hw Hn HT Hself.
  exists (int_code w :: big_endian (octets w) n).
  eexists. split; [rewrite Encode_int; reflexivity|].
  split.
  { unfold len. cbn [List.length]. rewrite big_endian_length.
    destruct w; reflexivity. }
  cbn [app]. rewrite Decode_int_frame;
    [|assumption|apply big_endian_length].
  rewrite from_big_endian_big_endian.
  replace (8 * Z.of_nat (octets w)) with (bits w) by (destruct w; reflexivity).
  assert (to_int (bits w) (n mod 2 ^ bits w) = n) as ->.
  { pose proof (bits_pos w) as Hpos.
    assert (2 ^ bits w = 2 * 2 ^ (bits w - 1)) as Hpow.
    { replace (bits w) with (Z.succ (bits w - 1)) at 1 by lia.
      apply Z.pow_succ_r. lia. }
    unfold to_int. rewrite Z.mod_mod by lia.
    destruct (Z.ltb_spec (n mod 2 ^ bits w) (2 ^ (bits w - 1))) as [Hlt|Hge].
    - destruct (Z.le_gt_cases 0 n) as [Hnn|Hneg].
      + apply Z.mod_small. lia.
      + exfalso.
        assert (n mod 2 ^ bits w = n + 2 ^ bits w) as Heq.
        { symmetry. apply (Z.mod_unique_pos _ _ (-1)); lia. }
        lia.
    - destruct (Z.le_gt_cases 0 n) as [Hnn|Hneg].
      + exfalso. rewrite Z.mod_small in Hge by lia. lia.
      + assert (n mod 2 ^ bits w = n + 2 ^ bits w) as Heq.
        { symmetry. apply (Z.mod_unique_pos _ _ (-1)); lia. }
        lia. }
  unfold assign_decoded, Value_Set.
  destruct HT as [-> | ->]; destruct w; try contradiction;
    (split; [reflexivity|split; reflexivity]).
Qed.

Lemma roundtrip_int_witness :
  ∃ wire d',
    Encode no_user_types (VInt W8 (-3)) NewEncoder
      = (Ok tt, mkEncoder wire empty_pool) ∧
    len wire = 2 ∧
    Decode no_user_types (Pointer TInterface)
      (reading (wire ++ [0xc3]) None empty_pool) = (Ok (VInt W8 (-3)), d') ∧
    unread (r d') = [0xc3] ∧ dpool d' = empty_pool.
Proof.
  apply (roundtrip_int no_user_types W8 (-3) TInterface [0xc3] None empty_pool).
  - discriminate.
  - vm_compute. split; [discriminate|reflexivity].
  - right; reflexivity.
  - reflexivity.
Defined.

(** The platform types [int] and [uint] do not come back.  What
    [Encode] writes for a value of type [int] (or [uint]) decodes to an
    [int64] (or [uint64]); stored into an [int] (or [uint]) variable, that
    is a [reflect.Set] between distinct types, which panics once the frame
    has been read; an empty interface receives the 64-bit value. *)
Theorem platform_integer_roundtrip (env : Env) (signed : bool) (n : Z)
    (rest : list Z) (last : option Z) (pool : Pool) :
  let v := if signed then VInt Wplatform n else VUint Wplatform n in
  let T := if signed then TInt Wplatform else TUint Wplatform in
  let v64 := if signed then VInt W64 (int64 n) else VUint W64 (uint64 n) in
  DecodeMsgpack env (TPtr T) = None →
  DecodeMsgpack env (TPtr TInterface) = None →
  ∃ wire d',
    Encode env v NewEncoder = (Ok tt, mkEncoder wire empty_pool) ∧
    Decode env (Pointer T) (reading (wire ++ rest) last pool)
      = (Panic "reflect.Set: value is not assignable to type", d') ∧
    Decode env (Pointer TInterface) (reading (wire ++ rest) last pool)
      = (Ok v64, d') ∧
    unread (r d') = rest.
Proof.
  intros v T v64 HT HI. subst v T v64.
  destruct signed.
  - exists (int_code Wplatform :: big_endian (octets Wplatform) n).
    eexists. split; [rewrite Encode_int; reflexivity|].
    cbn [app]. rewrite !Decode_int_frame by
      (try assumption; apply big_endian_length).
    rewrite from_big_endian_big_endian.
    assert (to_int (bits Wplatform) (n mod 2 ^ (8 * Z.of_nat (octets Wplatform)))
            = int64 n) as ->.
    { unfold int64, to_int. cbn [bits octets].
      change (8 * Z.of_nat 8) with 64. rewrite Z.mod_mod by lia. reflexivity. }
    split; [reflexivity|]. split; reflexivity.
  - exists (uint_code Wplatform :: big_endian (octets Wplatform) n).
    eexists. split; [rewrite Encode_uint; reflexivity|].
    cbn [app]. rewrite !Decode_uint_frame by
      (try assumption; apply big_endian_length).
    rewrite from_big_endian_big_endian.
    split; [reflexivity|]. split; reflexivity.
Qed.

Lemma platform_integer_roundtrip_witness :
  ∃ wire d',
    Encode no_user_types (VInt Wplatform 7) NewEncoder
      = (Ok tt, mkEncoder wire empty_pool) ∧
    Decode no_user_types (Pointer (TInt Wplatform))
      (reading (wire ++ []) None empty_pool)
      = (Panic "reflect.Set: value is not assignable to type", d') ∧
    Decode no_user_types (Pointer TInterface)
      (reading (wire ++ []) None empty_pool) = (Ok (VInt W64 (int64 7)), d') ∧
    unread (r d') = [].
Proof.
  apply (platform_integer_roundtrip no_user_types true 7 [] None empty_pool);
    reflexivity.
Defined.

Lemma Decode_float_frame (env : Env) (T : GoType) (double : bool)
    (bs rest : list Z) (last : option Z) (pool : Pool) :
  DecodeMsgpack env (TPtr T) = None →
  List.length bs = (if double then 8 else 4)%nat →
  Decode env (Pointer T)
    (reading ((if double then Code.Double else Code.Float) :: bs ++ rest)
             last pool)
  = assign_decoded T
      (if double then VFloat64 (from_big_endian bs)
       else VFloat32 (from_big_endian bs))
      (reading rest (list.last bs) pool).
Proof.
  intros Hself Hlen.
  destruct double.
  - rewrite (Decode_leaf env T Code.Double (floatDecoder Code.Double));
      [|assumption|reflexivity|vm_compute; reflexivity].
    unfold bind at 1, wrap at 1. cbn [valueDecoder_Decode].
    unfold floatDecoder_Decode.
    change (Code.Double =? Code.Float) with false.
    change (Code.Double =? Code.Double) with true. cbv iota.
    unfold bind at 1, wrap at 1, Reader.ReadUint64, bind at 1.
    rewrite (ReadFull_exact _ bs) by exact Hlen. reflexivity.
  - rewrite (Decode_leaf env T Code.Float (floatDecoder Code.Float));
      [|assumption|reflexivity|vm_compute; reflexivity].
    unfold bind at 1, wrap at 1. cbn [valueDecoder_Decode].
    unfold floatDecoder_Decode.
    change (Code.Float =? Code.Float) with true. cbv iota.
    unfold bind at 1, wrap at 1, Reader.ReadUint32, bind at 1.
    rewrite (ReadFull_exact _ bs) by exact Hlen. reflexivity.
Qed.

(** Floating-point numbers travel as their bit patterns.  [Encode] of a
    [float32] (a [float64]) writes the tag 0xca (0xcb) and the four (eight)
    bytes of the IEEE 754 pattern; [Decode] into a variable of the same type
    or into an empty interface restores that very pattern -- NaN payloads
    and the sign of zero included -- and stops at the end of the frame. *)
Theorem roundtrip_float (env : Env) (double : bool) (pattern : Z) (T : GoType)
    (rest : list Z) (last : option Z) (pool : Pool) :
  let v := if double then VFloat64 pattern else VFloat32 pattern in
  0 <= pattern < 2 ^ (if double then 64 else 32) →
  T = (if double then TFloat64 else TFloat32) ∨ T = TInterface →
  DecodeMsgpack env (TPtr T) = None →
  ∃ wire d',
    Encode env v NewEncoder = (Ok tt, mkEncoder wire empty_pool) ∧
    len wire = (if double then 9 else 5) ∧
    Decode env (Pointer T) (reading (wire ++ rest) last pool) = (Ok v, d') ∧
    unread (r d') = rest ∧ dpool d' = pool.
Proof.
  intros v Hn HT Hself. subst v.
  exists ((if double then Code.Double else Code.Float)
          :: big_endian (if double then 8 else 4)%nat pattern).
  eexists. split; [destruct double; reflexivity|].
  split; [destruct double; reflexivity|].
  cbn [app]. rewrite Decode_float_frame;
    [|assumption|rewrite big_endian_length; reflexivity].
  rewrite from_big_endian_big_endian.
  assert (pattern mod 2 ^ (8 * Z.of_nat (if double then 8 else 4)%nat) = pattern)
    as ->.
  { apply Z.mod_small. destruct double; exact Hn. }
  unfold assign_decoded, Value_Set.
  destruct HT as [-> | ->]; destruct double;
    (split; [reflexivity|split; reflexivity]).
Qed.

Lemma roundtrip_float_witness :
  ∃ wire d',
    Encode no_user_types (VFloat32 0x7fc00001) NewEncoder
      = (Ok tt, mkEncoder wire empty_pool) ∧
    len wire = 5 ∧
    Decode no_user_types (Pointer TFloat32)
      (reading (wire ++ [0xc2]) None empty_pool)
      = (Ok (VFloat32 0x7fc00001), d') ∧
    unread (r d') = [0xc2] ∧ dpool d' = empty_pool.
Proof.
  apply (roundtrip_float no_user_types false 0x7fc00001 TFloat32 [0xc2]
           None empty_pool).
  - vm_compute. split; [discriminate|reflexivity].
  - left; reflexivity.
  - reflexivity.
Defined.

(** Booleans.  [Encode] writes the single byte 0xc3 for true and 0xc2
    for false; [Decode] of that byte into a [bool] or an empty interface
    gives the boolean back and reads nothing else. *)
Theorem roundtrip_bool (env : Env) (b : bool) (T : GoType)
    (rest : list Z) (last : option Z) (pool : Pool) :
  T = TBool ∨ T = TInterface →
  DecodeMsgpack env (TPtr T) = None →
  Encode env (VBool b) NewEncoder
    = (Ok tt, mkEncoder [if b then 0xc3 else 0xc2] empty_pool) ∧
  Decode env (Pointer T)
    (reading ((if b then 0xc3 else 0xc2) :: rest) last pool)
    = (Ok (VBool b), reading rest (Some (if b then 0xc3 else 0xc2)) pool).
Proof.
  intros HT Hself. split; [destruct b; reflexivity|].
  destruct b.
  - rewrite (Decode_leaf env T 0xc3 (boolDecoder Code.True));
      [|assumption|reflexivity|vm_compute; reflexivity].
    destruct HT as [-> | ->]; reflexivity.
  - rewrite (Decode_leaf env T 0xc2 (boolDecoder Code.False));
      [|assumption|reflexivity|vm_compute; reflexivity].
    destruct HT as [-> | ->]; reflexivity.
Qed.

Lemma roundtrip_bool_witness :
  Encode no_user_types (VBool true) NewEncoder
    = (Ok tt, mkEncoder [0xc3] empty_pool) ∧
  Decode no_user_types (Pointer TBool) (reading [0xc3; 0x01] None empty_pool)
    = (Ok (VBool true), reading [0x01] (Some 0xc3) empty_pool).
Proof.
  apply (roundtrip_bool no_user_types true TBool [0x01] None empty_pool).
  - left; reflexivity.
  - reflexivity.
Defined.

(** Nil.  A nil interface and a nil pointer are both written as the
    single byte 0xc0, and a 0xc0 read into a variable of any type whatever
    -- an integer, a string, a struct -- is no error: the variable is reset
    to the zero value of its type. *)
Theorem nil_resets_any_variable (env : Env) (P T : GoType)
    (rest : list Z) (last : option Z) (pool : Pool) :
  isExtType env (TPtr P) = None →
  EncodeMsgpack env (TPtr P) = None →
  DecodeMsgpack env (TPtr T) = None →
  Encode env VNil NewEncoder = (Ok tt, mkEncoder [0xc0] empty_pool) ∧
  Encode env (VNilOf (TPtr P)) NewEncoder
    = (Ok tt, mkEncoder [0xc0] empty_pool) ∧
  Decode env (Pointer T) (reading (0xc0 :: rest) last pool)
    = (Ok (reflect.Zero T), reading rest (Some 0xc0) pool).
Proof.
  intros Hext Henc Hself.
  split; [reflexivity|]. split.
  - unfold Encode, Encode_, indirect. cbn [reflect.TypeOf].
    rewrite Hext. unfold isEncodeMsgpacker. rewrite Henc. reflexivity.
  - rewrite (Decode_leaf env T 0xc0 nilDecoder);
      [|assumption|reflexivity|vm_compute; reflexivity].
    reflexivity.
Qed.

Lemma nil_resets_any_variable_witness :
  Encode no_user_types VNil NewEncoder = (Ok tt, mkEncoder [0xc0] empty_pool) ∧
  Encode no_user_types (VNilOf (TPtr Named)) NewEncoder
    = (Ok tt, mkEncoder [0xc0] empty_pool) ∧
  Decode no_user_types (Pointer Named) (reading [0xc0] None empty_pool)
    = (Ok (reflect.Zero Named), reading [] (Some 0xc0) empty_pool).
Proof.
  apply (nil_resets_any_variable no_user_types Named Named [] None empty_pool);
    reflexivity.
Defined.

(** ** Refusals *)

(** A value is stored with [reflect.Set], which converts nothing.  A
    well-formed unsigned-integer frame read into a variable that is neither
    of the very type the frame decodes to nor an interface -- a wider
    unsigned type, a signed one, a string -- is consumed in full, and then
    [Decode] panics instead of returning an error. *)
Theorem Decode_uint_mismatch_panics (env : Env) (T : GoType) (w : width)
    (bs rest : list Z) (last : option Z) (pool : Pool) :
  DecodeMsgpack env (TPtr T) = None →
  List.length bs = octets w →
  type_eqb (TUint (match w with Wplatform => W64 | _ => w end)) T = false →
  reflect.KindOf T ≠ reflect.Interface →
  Decode env (Pointer T) (reading (uint_code w :: bs ++ rest) last pool)
  = (Panic "reflect.Set: value is not assignable to type",
     reading rest (list.last bs) pool).
Proof.
  intros Hself Hlen Hneq Hkind.
  rewrite Decode_uint_frame by assumption.
  unfold assign_decoded, Value_Set, assignable.
  cbn [reflect.IsValid reflect.TypeOf]. rewrite Hneq.
  destruct (reflect.Kind_eqb (reflect.KindOf T) reflect.Interface) eqn:Hk.
  - apply Kind_eqb_eq in Hk. contradiction.
  - reflexivity.
Qed.

Lemma Decode_uint_mismatch_panics_witness :
  Decode no_user_types (Pointer (TUint W32))
    (reading (0xcd :: [0x01; 0x00] ++ [0xc0]) None empty_pool)
  = (Panic "reflect.Set: value is not assignable to type",
     reading [0xc0] (Some 0x00) empty_pool).
Proof.
  apply (Decode_uint_mismatch_panics no_user_types (TUint W32) W16
           [0x01; 0x00] [0xc0] None empty_pool).
  - reflexivity.
  - reflexivity.
  - reflexivity.
  - discriminate.
Defined.

(** A truncated integer.  When the stream ends before the bytes that
    the tag of an unsigned integer announces, [Decode] returns an error --
    the end-of-file condition of the reader, wrapped by the integer decoder
    and again by [Decode] -- and neither panics nor stores anything. *)
Theorem Decode_uint_truncated (env : Env) (T : GoType) (w : width)
    (bs : list Z) (last : option Z) (pool : Pool) :
  DecodeMsgpack env (TPtr T) = None →
  (List.length bs < octets w)%nat →
  ∃ cause msg d',
    Decode env (Pointer T) (reading (uint_code w :: bs) last pool)
    = (Fail (Wrapped "msgpack: failed to decode value" (Wrapped msg cause)), d')
    ∧ (cause = EOF ∨ cause = ErrUnexpectedEOF)
    ∧ unread (r d') = [].
Proof.
  intros Hself Hlen.
  rewrite (Decode_leaf env T (uint_code w) (uintDecoder (uint_code w)));
    [|assumption|destruct w; reflexivity|destruct w; vm_compute; reflexivity].
  unfold bind at 1, wrap at 1. cbn [valueDecoder_Decode].
  unfold uintDecoder_Decode.
  assert (∀ n msg, (List.length bs < n)%nat →
            ∃ cause d',
              wrap (bs' <- io.ReadFull n ;; ret (from_big_endian bs')) msg
                   (reading bs (Some (uint_code w)) pool)
              = (Fail (Wrapped msg cause), d')
              ∧ (cause = EOF ∨ cause = ErrUnexpectedEOF)
              ∧ unread (r d') = []) as Hshort.
  { intros n msg Hn. unfold wrap, bind, io.ReadFull, bind, bufio.Read.
    cbn [unread r reading lastByte].
    rewrite take_ge, drop_ge by lia.
    destruct (Nat.eqb_spec (List.length bs) n) as [|_]; [lia|].
    destruct (List.length bs =? 0)%nat; cbn; eauto 6. }
  destruct w; cbn [octets] in Hlen; cbn [uint_code];
    repeat match goal with
           | |- context [?c =? ?c'] =>
               let b := eval vm_compute in (c =? c') in
               change (c =? c') with b; cbv iota
           end;
    unfold bind at 1, Reader.ReadUint8, Reader.ReadUint16,
      Reader.ReadUint32, Reader.ReadUint64;
    match goal with
    | |- context [wrap (bs' <- io.ReadFull ?n ;; _) ?msg _] =>
        destruct (Hshort n msg Hlen) as (cause & d' & Hrun & Hcause & Hrest)
    end;
    cbn [uint_code] in Hrun; rewrite Hrun;
    exists cause; eexists; exists d'; (split; [reflexivity|split; assumption]).
Qed.

Lemma Decode_uint_truncated_witness :
  ∃ cause msg d',
    Decode no_user_types (Pointer (TUint W32))
      (reading (0xce :: [0x00; 0x01]) None empty_pool)
    = (Fail (Wrapped "msgpack: failed to decode value" (Wrapped msg cause)), d')
    ∧ (cause = EOF ∨ cause = ErrUnexpectedEOF)
    ∧ unread (r d') = [].
Proof.
  apply (Decode_uint_truncated no_user_types (TUint W32) W32 [0x00; 0x01]
           None empty_pool).
  - reflexivity.
  - cbn. lia.
Defined.

(** Refusals that read nothing.  What is no pointer, and a nil pointer, is
    refused with an [InvalidDecodeError] whatever the stream holds; at the
    end of the stream a pointer gets the end-of-file error of the reader,
    wrapped once by [PeekCode] and once by [Decode].  Either way the
    decoder is left as it was. *)
Theorem Decode_refuses_without_reading (env : Env) (v : Target) (d : Decoder) :
  Target_type v ≫= DecodeMsgpack env = None →
  ((∀ T, v ≠ Pointer T) → Decode env v d = (Fail InvalidDecodeError, d)) ∧
  ((∃ T, v = Pointer T) → unread (r d) = [] →
   Decode env v d
   = (Fail (Wrapped "msgpack: failed to peek code"
              (Wrapped "msgpack: failed to peek code" EOF)), d)).
Proof.
  intros Hself. split.
  - intros Hv. unfold Decode. cbn [Decode_]. unfold Decode_body.
    rewrite Hself. destruct v as [T|T|T]; [|reflexivity|reflexivity].
    exfalso. exact (Hv T eq_refl).
  - intros [T ->] Hend. unfold Decode. rewrite Hend.
    cbn [List.length Decode_]. unfold Decode_body. rewrite Hself.
    destruct d as [[u l] p]. cbn [r unread] in Hend. subst u. reflexivity.
Qed.

Lemma Decode_refuses_without_reading_witness :
  Decode no_user_types (NilPointer TString)
    (reading [0xa1; 0x61] None empty_pool)
  = (Fail InvalidDecodeError, reading [0xa1; 0x61] None empty_pool).
Proof.
  apply (Decode_refuses_without_reading no_user_types (NilPointer TString)
           (reading [0xa1; 0x61] None empty_pool) eq_refl).
  discriminate.
Defined.

Lemma decoders_keys (code : Z) (dec : valueDecoder) :
  decoders !! code = Some dec → 0x80 <= code <= 0xdf.
Proof.
  intros H. apply elem_of_map_to_list in H.
  assert (Forall (λ kv : Z * valueDecoder, 0x80 <= kv.1 <= 0xdf)
                 (map_to_list decoders)) as Hall.
  { apply Forall_forall. intros kv Hkv.
    assert (forallb (λ kv : Z * valueDecoder,
                       (0x80 <=? kv.1) && (kv.1 <=? 0xdf))
                    (map_to_list decoders) = true) as Hb
      by (vm_compute; reflexivity).
    rewrite forallb_forall in Hb.
    specialize (Hb kv (proj1 (list_elem_of_In _ _) Hkv)).
    apply andb_true_iff in Hb. lia. }
  rewrite Forall_forall in Hall. exact (Hall _ H).
Qed.

(** The codes [lookupDecoder] knows.  The table built by the literal
    and by [init] has a decoder for every code from 0x80 to 0xdf except
    0xc1 (never used), 0xc8 and 0xc9 (Ext16, Ext32) and 0xd4, 0xd5, 0xd6 and
    0xd8 (FixExt1, FixExt2, FixExt4, FixExt16), and for no other code; for
    the others [lookupDecoder] returns its "not found" error. *)
Theorem lookupDecoder_domain (code : Z) (d : Decoder) :
  lookupDecoder code d
    = (Fail (Errorf "msgpack: decoder for %s not found"), d)
  ↔ code < 0x80 ∨ 0xdf < code
    ∨ code ∈ [0xc1; 0xc8; 0xc9; 0xd4; 0xd5; 0xd6; 0xd8].
Proof.
  unfold lookupDecoder.
  destruct (decoders !! code) as [dec|] eqn:Hdec.
  - split; [discriminate|]. intros Hout. exfalso.
    pose proof (decoders_keys _ _ Hdec) as Hrange.
    destruct Hout as [?|[?|Hin]]; [lia|lia|].
    assert (forallb (λ c, bool_decide (decoders !! c = None))
                    [0xc1; 0xc8; 0xc9; 0xd4; 0xd5; 0xd6; 0xd8] = true) as Hb
      by (vm_compute; reflexivity).
    rewrite forallb_forall in Hb.
    specialize (Hb code (proj1 (list_elem_of_In _ _) Hin)).
    apply bool_decide_eq_true in Hb. congruence.
  - split; [|reflexivity]. intros _.
    destruct (Z.lt_ge_cases code 0x80) as [?|Hlo]; [left; assumption|].
    destruct (Z.lt_ge_cases 0xdf code) as [?|Hhi]; [right; left; assumption|].
    right; right.
    assert (forallb (λ c, bool_decide (decoders !! c = None → c ∈
                      [0xc1; 0xc8; 0xc9; 0xd4; 0xd5; 0xd6; 0xd8]))
                    (seqZ 0x80 0x60) = true) as Hb
      by (vm_compute; reflexivity).
    rewrite forallb_forall in Hb.
    assert (code ∈ seqZ 0x80 0x60) as Hin by (apply elem_of_seqZ; lia).
    specialize (Hb code (proj1 (list_elem_of_In _ _) Hin)).
    apply bool_decide_eq_true in Hb. exact (Hb Hdec).
Qed.

(** ** Progress *)

Lemma Decode_total_witness :
  (Decode no_user_types (Pointer TInterface)
     (reading [0x92; 0xc3; 0xc0] None empty_pool)).1 ≠ OutOfFuel ∧
  avail (Decode no_user_types (Pointer TInterface)
           (reading [0x92; 0xc3; 0xc0] None empty_pool)).2
  <= avail (reading [0x92; 0xc3; 0xc0] None empty_pool).
Proof.
  apply (Decode_total no_user_types (λ _, eq_refl) (Pointer TInterface)
           (reading [0x92; 0xc3; 0xc0] None empty_pool)).
Defined.

(** Every successful [Decode] into a variable reads at least one byte: as
    long as the engine decodes everything itself, a loop of [Decode]s over
    a finite stream cannot succeed for ever. *)
Theorem Decode_progress (env : Env) (T : GoType) (d d' : Decoder)
    (v : Value) :
  (∀ T, DecodeMsgpack env T = None) →
  Decode env (Pointer T) d = (Ok v, d') →
  avail d' < avail d.
Proof.
  intros Hself Hrun. unfold Decode in Hrun.
  destruct (Decode_good env Hself (S (List.length (unread (r d)))))
    as [_ Hstrict].
  destruct (Hstrict T d) as (_ & _ & Hlt).
  { unfold avail, len. lia. }
  specialize (Hlt v). rewrite Hrun in Hlt. exact (Hlt eq_refl).
Qed.

Lemma Decode_progress_witness :
  avail (reading [0xc0] (Some 0xc3) empty_pool)
  < avail (reading [0xc3; 0xc0] None empty_pool).
Proof.
  apply (Decode_progress no_user_types TBool
           (reading [0xc3; 0xc0] None empty_pool)
           (reading [0xc0] (Some 0xc3) empty_pool) (VBool true)).
  - intros T. reflexivity.
  - reflexivity.
Defined.

(** ** Byte strings and strings *)

Local Ltac frame_step :=
  cbv beta iota zeta; cbn [fst snd dst epool]; rewrite <- ?app_assoc;
  cbn [app].

(** [Encode] of a [[]byte] of length L: always a Bin frame, never a Str
    one, however short -- Bin8 and a one-byte length up to 255, Bin16 and a
    two-byte big-endian length up to 65535, Bin32 and a four-byte length up
    to 2^32 - 1, each followed by the L bytes; beyond that the "too long"
    error, nothing being written.  A nil [[]byte] is written as the empty
    one. *)
Theorem EncodeBytes_frame (env : Env) (b : list Z) (e : Encoder) :
  let L := len b in
  (L <= 255 → Encode env (VBytes b) e = (Ok tt, emit (0xc4 :: L :: b) e)) ∧
  (255 < L <= 65535 →
     Encode env (VBytes b) e
     = (Ok tt, emit (0xc5 :: L / 2 ^ 8 :: L mod 2 ^ 8 :: b) e)) ∧
  (65535 < L <= 2 ^ 32 - 1 →
     Encode env (VBytes b) e
     = (Ok tt, emit (0xc6 :: L / 2 ^ 24 :: (L / 2 ^ 16) mod 2 ^ 8
                    :: (L / 2 ^ 8) mod 2 ^ 8 :: L mod 2 ^ 8 :: b) e)) ∧
  (2 ^ 32 - 1 < L →
     Encode env (VBytes b) e
     = (Fail (Errorf "msgpack: string is too long (len=%d)"), e)) ∧
  Encode env (VNilOf (TSlice (TUint W8))) e = (Ok tt, emit [0xc4; 0x00] e).
Proof.
  intros L.
  assert (0 <= L) as HL0 by (unfold L, len; lia).
  change (Encode env (VBytes b) e) with (EncodeBytes b e).
  unfold EncodeBytes. fold L.
  unfold MaxUint8, MaxUint16, MaxUint32.
  unfold bind, ret, wrap, writePreamble, bind, wrap, unchecked, ret,
    Writer.WriteByte, Writer.WriteUint8, Writer.WriteUint16,
    Writer.WriteUint32, Writer.Write, emit.
  split; [|split; [|split; [|split]]].
  - intros H1.
    destruct (Z.leb_spec L (2 ^ 8 - 1)); [|lia].
    frame_step. change (1 =? 1) with true. frame_step.
    unfold uint8, to_uint. rewrite big_endian_1. cbn [app].
    rewrite Z.mod_mod by lia. rewrite Z.mod_small by lia. reflexivity.
  - intros [H1 H2].
    destruct (Z.leb_spec L (2 ^ 8 - 1)); [lia|].
    destruct (Z.leb_spec L (2 ^ 16 - 1)); [|lia].
    frame_step. change (2 =? 1) with false. change (2 =? 2) with true.
    frame_step.
    unfold uint16, to_uint. rewrite big_endian_2. cbn [app].
    rewrite (Z.mod_small L (2 ^ 16)) by lia.
    rewrite (Z.mod_small (L / 2 ^ 8)); [reflexivity|].
    split; [apply Z.div_pos; lia|apply Z.div_lt_upper_bound; lia].
  - intros [H1 H2].
    destruct (Z.leb_spec L (2 ^ 8 - 1)); [lia|].
    destruct (Z.leb_spec L (2 ^ 16 - 1)); [lia|].
    destruct (Z.leb_spec L (2 ^ 32 - 1)); [|lia].
    frame_step. change (4 =? 1) with false. change (4 =? 2) with false.
    change (4 =? 4) with true. frame_step.
    unfold uint32, to_uint. rewrite big_endian_4. cbn [app].
    rewrite (Z.mod_small L (2 ^ 32)) by lia.
    rewrite (Z.mod_small (L / 2 ^ 24)); [reflexivity|].
    split; [apply Z.div_pos; lia|apply Z.div_lt_upper_bound; lia].
  - intros H1.
    destruct (Z.leb_spec L (2 ^ 8 - 1)); [lia|].
    destruct (Z.leb_spec L (2 ^ 16 - 1)); [lia|].
    destruct (Z.leb_spec L (2 ^ 32 - 1)); [lia|].
    reflexivity.
  - change (Encode env (VNilOf (TSlice (TUint W8))) e) with (EncodeBytes [] e).
    unfold EncodeBytes, bind, ret, wrap, writePreamble, bind, wrap, unchecked,
      ret, Writer.WriteByte, Writer.WriteUint8, Writer.Write.
    change (len [] <=? MaxUint8) with true. frame_step.
    change (1 =? 1) with true. frame_step. reflexivity.
Qed.

Lemma EncodeBytes_frame_witness :
  Encode no_user_types (VBytes [0x68; 0x69]) NewEncoder
  = (Ok tt, emit [0xc4; 0x02; 0x68; 0x69] NewEncoder).
Proof.
  destruct (EncodeBytes_frame no_user_types [0x68; 0x69] NewEncoder)
    as (H & _).
  apply H. vm_compute. discriminate.
Defined.

Lemma Read_app (bs rest : list Z) (last : option Z) (pool : Pool) :
  bufio.Read (List.length bs) (reading (bs ++ rest) last pool)
  = (Ok bs, reading rest (match list.last bs with
                          | Some b => Some b
                          | None => last
                          end) pool).
Proof.
  unfold bufio.Read, reading. cbn [unread r lastByte with_reader dpool].
  rewrite take_app_length, drop_app_length. reflexivity.
Qed.

Lemma string_of_bytes_of_string (s : string) :
  string_of_bytes (bytes_of_string s) = s.
Proof.
  unfold string_of_bytes, bytes_of_string.
  rewrite <- (string_of_list_ascii_of_string s) at 2. f_equal.
  induction (list_ascii_of_string s) as [|a l IH]; [reflexivity|].
  cbn [fmap list_fmap]. rewrite N2Z.id, ascii_N_embedding. f_equal. exact IH.
Qed.

Lemma EncodeString_short (env : Env) (s : string) (e : Encoder) :
  strlen s < 32 →
  Encode env (VString s) e
  = (Ok tt, emit ((0xa0 + strlen s) :: bytes_of_string s) e).
Proof.
  intros Hshort.
  assert (0 <= strlen s) as Hnn by (unfold strlen; lia).
  change (Encode env (VString s) e) with (EncodeString s e).
  unfold EncodeString. cbv zeta.
  destruct (Z.ltb_spec (strlen s) 32); [|lia].
  unfold bind, unchecked, Writer.WriteByte, Writer.WriteString.
  rewrite !Write_emit. cbn [fst snd]. rewrite emit_emit. cbn [app].
  unfold uint8, to_uint. rewrite Z.mod_small by lia.
  rewrite (lor_fix _ _ 5); [reflexivity|lia|lia|reflexivity].
Qed.

Lemma fixstr_codes (L : Z) :
  0 <= L < 32 →
  decoders !! (0xa0 + L) = Some (fixstrDecoder (0xa0 + L))
  ∧ Code.IsMapFamily (0xa0 + L) = false
  ∧ uint8 (0xa0 + L - Code.FixStr0) = L.
Proof.
  intros HL.
  assert (L ∈ seqZ 0 32) as Hin by (apply elem_of_seqZ; lia).
  revert Hin. generalize L. apply Forall_forall.
  vm_compute. repeat constructor.
Qed.

(** What [Decode] makes of a FixStr frame whose payload [bs] is all there:
    the buffer it takes from the pool is released, and so emptied, before
    it is filled; the string is the payload; the buffer stays in the pool
    with the payload in it. *)
Lemma Decode_fixstr_frame (env : Env) (T : GoType) (bs rest : list Z)
    (last : option Z) (pool : Pool) :
  DecodeMsgpack env (TPtr T) = None →
  len bs < 32 →
  ∃ d', Decode env (Pointer T) (reading ((0xa0 + len bs) :: bs ++ rest) last pool)
        = assign_decoded T (VString (string_of_bytes bs)) d'
        ∧ unread (r d') = rest
        ∧ free (dpool d') = (pool_get pool).1 :: free (pool_get pool).2
        ∧ buf_bytes (dpool d') (pool_get pool).1 = bs.
Proof.
  intros Hself Hshort.
  assert (0 <= len bs) as Hnn by (unfold len; lia).
  destruct (fixstr_codes (len bs)) as (Hdec & Hmap & Hlen); [lia|].
  rewrite (Decode_leaf env T _ _ _ _ _ Hself Hmap Hdec).
  unfold bind at 1, wrap at 1. cbn [valueDecoder_Decode].
  unfold fixstrDecoder_Decode. cbv zeta. rewrite Hlen.
  unfold bind at 1, bufferpool.Get.
  cbn [the_pool with_pool Decoder_pool dpool reading r].
  destruct (pool_get pool) as [h p1] eqn:Hget. cbn [fst snd].
  unfold bind at 1, release_now, bufferpool.Release.
  cbn [the_pool with_pool Decoder_pool dpool r].
  unfold bind at 1, io.CopyN.
  destruct (Z.leb_spec (len bs) 0) as [Hz|Hpos].
  - assert (bs = []) as -> by (destruct bs; [reflexivity|unfold len in *; cbn in *; lia]).
    change (len (@nil Z)) with 0. cbn [app].
    unfold bind, buf_String, ret. cbn [fst snd].
    change (negb (0 =? 0)) with false. cbv beta iota zeta.
    cbn [the_pool with_pool Decoder_pool dpool r].
    rewrite (buf_bytes_set h [] (mkPool (bufs p1) (allocated p1) (h :: free p1))
             : buf_bytes (pool_release h p1) h = []).
    eexists. split; [reflexivity|].
    cbn [r unread dpool]. split; [reflexivity|]. split; [reflexivity|].
    exact (buf_bytes_set h [] (mkPool (bufs p1) (allocated p1) (h :: free p1))).
  - unfold bind at 1.
    replace (Z.to_nat (len bs)) with (List.length bs) by (unfold len; lia).
    pose proof (Read_app bs rest (Some (0xa0 + len bs)) (pool_release h p1))
      as Hread.
    unfold reading in Hread. rewrite Hread. clear Hread.
    unfold bind at 1, buf_Write.
    cbn [the_pool with_pool Decoder_pool dpool r ret fst snd].
    rewrite Z.eqb_refl. cbn [negb].
    unfold bind at 1. cbn [ret]. unfold bind at 1, buf_String.
    cbn [the_pool with_pool Decoder_pool dpool r ret].
    rewrite buf_bytes_write.
    rewrite (buf_bytes_set h [] (mkPool (bufs p1) (allocated p1) (h :: free p1))
             : buf_bytes (pool_release h p1) h = []).
    cbn [app].
    eexists. split; [reflexivity|].
    cbn [r unread dpool]. split; [reflexivity|]. split; [reflexivity|].
    rewrite buf_bytes_write.
    rewrite (buf_bytes_set h [] (mkPool (bufs p1) (allocated p1) (h :: free p1))
             : buf_bytes (pool_release h p1) h = []).
    reflexivity.
Qed.

(** Short strings.  [Encode] of a string of fewer than 32 bytes writes the
    FixStr tag that carries the length and then the bytes; [Decode] of
    these bytes, whatever follows them and whatever the state of the pool,
    into a [string] or an empty interface gives the string back and stops
    at the end of the frame. *)
Theorem roundtrip_fixstr (env : Env) (s : string) (T : GoType)
    (rest : list Z) (last : option Z) (pool : Pool) :
  strlen s < 32 →
  T = TString ∨ T = TInterface →
  DecodeMsgpack env (TPtr T) = None →
  ∃ wire d',
    Encode env (VString s) NewEncoder = (Ok tt, mkEncoder wire empty_pool) ∧
    len wire = 1 + strlen s ∧
    Decode env (Pointer T) (reading (wire ++ rest) last pool)
      = (Ok (VString s), d') ∧
    unread (r d') = rest.
Proof.
  intros Hshort HT Hself.
  pose proof (strlen_bytes s) as Hlen.
  destruct (Decode_fixstr_frame env T (bytes_of_string s) rest last pool Hself)
    as (d' & Hrun & Hrest & _); [lia|].
  exists ((0xa0 + strlen s) :: bytes_of_string s), d'.
  split; [rewrite EncodeString_short by exact Hshort; reflexivity|].
  split; [unfold len in *; cbn [List.length]; lia|].
  split; [|exact Hrest].
  cbn [app]. rewrite <- Hlen, Hrun, string_of_bytes_of_string.
  destruct HT as [-> | ->]; reflexivity.
Qed.

Lemma roundtrip_fixstr_witness :
  ∃ wire d',
    Encode no_user_types (VString "hi") NewEncoder
      = (Ok tt, mkEncoder wire empty_pool) ∧
    len wire = 1 + strlen "hi" ∧
    Decode no_user_types (Pointer TString)
      (reading (wire ++ [0xc0]) None empty_pool) = (Ok (VString "hi"), d') ∧
    unread (r d') = [0xc0].
Proof.
  apply (roundtrip_fixstr no_user_types "hi" TString [0xc0] None empty_pool).
  - vm_compute. reflexivity.
  - left; reflexivity.
  - reflexivity.
Defined.

Lemma length_octets_cases (l : Z) :
  length_octets l = 1%nat ∨ length_octets l = 2%nat ∨ length_octets l = 4%nat.
Proof.
  unfold length_octets.
  destruct (l <=? MaxUint8); [auto|]. destruct (l <=? MaxUint16); auto.
Qed.

Lemma length_octets_fits (l : Z) :
  0 <= l <= 2 ^ 32 - 1 → l < 2 ^ (8 * Z.of_nat (length_octets l)).
Proof.
  intros Hl. unfold length_octets, MaxUint8, MaxUint16.
  destruct (Z.leb_spec l (2 ^ 8 - 1)); [cbn; lia|].
  destruct (Z.leb_spec l (2 ^ 16 - 1)); cbn; lia.
Qed.

Lemma EncodeString_long (env : Env) (s : string) (e : Encoder) :
  32 <= strlen s <= 2 ^ 32 - 1 →
  Encode env (VString s) e
  = (Ok tt, emit (str_code (length_octets (strlen s))
                  :: big_endian (length_octets (strlen s)) (strlen s)
                  ++ bytes_of_string s) e).
Proof.
  intros [Hlo Hhi].
  change (Encode env (VString s) e) with (EncodeString s e).
  unfold EncodeString, length_octets. cbv zeta.
  unfold MaxUint8, MaxUint16, MaxUint32 in *.
  destruct (Z.ltb_spec (strlen s) 32); [lia|].
  unfold bind, unchecked, Writer.WriteByte, Writer.WriteUint8,
    Writer.WriteUint16, Writer.WriteUint32, Writer.WriteString, Writer.Write,
    emit, uint8, uint16, uint32, to_uint.
  destruct (Z.leb_spec (strlen s) (2 ^ 8 - 1));
    [|destruct (Z.leb_spec (strlen s) (2 ^ 16 - 1));
      [|destruct (Z.leb_spec (strlen s) (2 ^ 32 - 1)); [|lia]]];
    cbv beta iota zeta; cbn [fst snd dst epool str_code];
    rewrite <- ?app_assoc; cbn [app].
  - rewrite (big_endian_mod 1 1) by lia. reflexivity.
  - rewrite (big_endian_mod 2 2) by lia. reflexivity.
  - rewrite (big_endian_mod 4 4) by lia. reflexivity.
Qed.

(** What [Decode] makes of a Str8, Str16 or Str32 frame whose payload [bs]
    is all there: the payload is appended to whatever the buffer taken from
    the pool holds, the string is the whole of the buffer, and the buffer
    goes back to the pool empty. *)
Lemma Decode_str_frame (env : Env) (T : GoType) (k : nat) (bs rest : list Z)
    (last : option Z) (pool : Pool) :
  DecodeMsgpack env (TPtr T) = None →
  (k = 1 ∨ k = 2 ∨ k = 4)%nat →
  len bs < 2 ^ (8 * Z.of_nat k) →
  ∃ d', Decode env (Pointer T)
          (reading (str_code k :: big_endian k (len bs) ++ bs ++ rest) last pool)
        = assign_decoded T
            (VString (string_of_bytes
               (buf_bytes (pool_get pool).2 (pool_get pool).1 ++ bs))) d'
        ∧ unread (r d') = rest
        ∧ free (dpool d') = (pool_get pool).1 :: free (pool_get pool).2
        ∧ buf_bytes (dpool d') (pool_get pool).1 = [].
Proof.
  intros Hself Hk Hfit.
  assert (0 <= len bs) as Hnn by (unfold len; lia).
  rewrite (Decode_leaf env T (str_code k) (strDecoder (str_code k)));
    [|assumption|destruct Hk as [->|[->| ->]]; reflexivity
     |destruct Hk as [->|[->| ->]]; vm_compute; reflexivity].
  unfold bind at 1, wrap at 1. cbn [valueDecoder_Decode].
  unfold strDecoder_Decode.
  assert (∀ msg,
    wrap (bs' <- io.ReadFull k ;; ret (from_big_endian bs')) msg
      (reading (big_endian k (len bs) ++ bs ++ rest) (Some (str_code k)) pool)
    = (Ok (len bs),
       reading (bs ++ rest) (list.last (big_endian k (len bs))) pool)) as Hlen.
  { intros msg. unfold wrap, bind.
    destruct k as [|k']; [lia|].
    rewrite (ReadFull_exact k' (big_endian (S k') (len bs)))
      by apply big_endian_length.
    cbn [ret]. rewrite from_big_endian_big_endian, Z.mod_small by lia.
    reflexivity. }
  set (lastb := list.last (big_endian k (len bs))) in *.
  destruct (pool_get pool) as [h p1] eqn:Hget. cbn [fst snd].
  assert (∀ d0 : Decoder,
    d0 = reading (bs ++ rest) lastb pool →
    (buf <- bufferpool.Get ;;
     defer (bufferpool.Release buf)
       (ne <- io.CopyN buf (len bs) ;;
        return_with tt (Wrap ne.2 "msgpack: failed to read string") ;;
        s <- buf_String buf ;; ret (VString s))) d0
    = (Ok (VString (string_of_bytes (buf_bytes p1 h ++ bs))),
       reading rest (match list.last bs with Some b => Some b | None => lastb end)
               (pool_release h (if len bs <=? 0 then p1 else buf_write h bs p1))))
    as Htail.
  { intros d0 ->. unfold bind at 1, bufferpool.Get.
    cbn [the_pool with_pool Decoder_pool dpool reading r]. rewrite Hget.
    unfold defer, io.CopyN.
    destruct (Z.leb_spec (len bs) 0) as [Hz|Hpos].
    - assert (bs = []) as -> by
        (destruct bs; [reflexivity|unfold len in *; cbn in *; lia]).
      cbn [app]. unfold bind, buf_String, ret, return_with. cbn [fst snd Wrap].
      cbv beta iota zeta. cbn [the_pool with_pool Decoder_pool dpool r].
      rewrite app_nil_r. reflexivity.
    - replace (Z.to_nat (len bs)) with (List.length bs) by (unfold len; lia).
      unfold bind at 1. unfold bind at 1.
      pose proof (Read_app bs rest lastb p1) as Hread.
      unfold reading in Hread. rewrite Hread. clear Hread.
      unfold buf_Write, bind, buf_String, ret, return_with.
      cbn [the_pool with_pool Decoder_pool dpool r fst snd].
      rewrite Z.eqb_refl. cbn [Wrap]. cbv beta iota zeta.
      unfold ret. cbv beta iota zeta.
      cbn [the_pool with_pool Decoder_pool dpool r].
      rewrite buf_bytes_write. reflexivity. }
  destruct Hk as [->|[->| ->]]; cbn [str_code] in *;
    repeat match goal with
           | |- context [?c =? ?c'] =>
               let b := eval vm_compute in (c =? c') in
               change (c =? c') with b
           end;
    cbn [orb]; cbv iota;
    unfold bind at 1, Reader.ReadUint8, Reader.ReadUint16, Reader.ReadUint32;
    rewrite Hlen; rewrite (Htail _ eq_refl);
    destruct (len bs <=? 0);
    (eexists; split; [reflexivity|]);
    unfold reading, pool_release, buf_write, buf_set, buf_bytes;
    cbn [r unread dpool free bufs];
    rewrite lookup_insert_eq; repeat split.
Qed.

(** Longer strings.  [Encode] of a string of 32 bytes or more (up to
    2^32 - 1) writes a Str8, Str16 or Str32 tag, the length on one, two or
    four bytes, and the bytes; [Decode] of these bytes into a [string] or
    an empty interface gives the string back and stops at the end of the
    frame -- provided the buffer that the pool hands out is empty. *)
Theorem roundtrip_str (env : Env) (s : string) (T : GoType)
    (rest : list Z) (last : option Z) (pool : Pool) :
  32 <= strlen s <= 2 ^ 32 - 1 →
  T = TString ∨ T = TInterface →
  DecodeMsgpack env (TPtr T) = None →
  buf_bytes (pool_get pool).2 (pool_get pool).1 = [] →
  ∃ wire d',
    Encode env (VString s) NewEncoder = (Ok tt, mkEncoder wire empty_pool) ∧
    Decode env (Pointer T) (reading (wire ++ rest) last pool)
      = (Ok (VString s), d') ∧
    unread (r d') = rest.
Proof.
  intros Hlen HT Hself Hclean.
  pose proof (strlen_bytes s) as Hbytes.
  destruct (Decode_str_frame env T (length_octets (strlen s))
              (bytes_of_string s) rest last pool Hself)
    as (d' & Hrun & Hrest & _).
  { apply length_octets_cases. }
  { rewrite Hbytes. apply length_octets_fits. lia. }
  exists (str_code (length_octets (strlen s))
          :: big_endian (length_octets (strlen s)) (strlen s)
          ++ bytes_of_string s), d'.
  split; [rewrite EncodeString_long by exact Hlen; reflexivity|].
  split; [|exact Hrest].
  rewrite Hbytes in Hrun.
  cbn [app]. rewrite <- app_assoc.
  rewrite Hrun, Hclean. cbn [app]. rewrite string_of_bytes_of_string.
  destruct HT as [-> | ->]; reflexivity.
Qed.

Lemma roundtrip_str_witness :
  ∃ wire d',
    Encode no_user_types (VString "0123456789abcdef0123456789abcdef")
      NewEncoder = (Ok tt, mkEncoder wire empty_pool) ∧
    Decode no_user_types (Pointer TInterface)
      (reading (wire ++ [0xc0]) None empty_pool)
      = (Ok (VString "0123456789abcdef0123456789abcdef"), d') ∧
    unread (r d') = [0xc0].
Proof.
  apply (roundtrip_str no_user_types "0123456789abcdef0123456789abcdef"
           TInterface [0xc0] None empty_pool).
  - vm_compute. split; discriminate.
  - right; reflexivity.
  - reflexivity.
  - reflexivity.
Defined.

(** The buffer of a FixStr outlives its release.  [fixstrDecoder] fills
    its buffer after giving it back, so the pool is left holding a buffer
    with the string in it; a pool that hands out the buffer released last
    gives it to the [strDecoder] of the next Str8 frame, which appends to
    it: the second string comes out with the first in front. *)
Theorem fixstr_then_str8_concatenates (env : Env) (bs1 bs2 rest : list Z)
    (last : option Z) (pool : Pool) :
  DecodeMsgpack env (TPtr TString) = None →
  len bs1 < 32 →
  len bs2 < 256 →
  ∃ d1 d2,
    Decode env (Pointer TString)
      (reading ((0xa0 + len bs1) :: bs1 ++ 0xd9 :: len bs2 :: bs2 ++ rest)
               last pool)
      = (Ok (VString (string_of_bytes bs1)), d1) ∧
    Decode env (Pointer TString) d1
      = (Ok (VString (string_of_bytes (bs1 ++ bs2))), d2) ∧
    unread (r d2) = rest.
Proof.
  intros Hself H1 H2.
  assert (0 <= len bs2) as Hnn by (unfold len; lia).
  destruct (Decode_fixstr_frame env TString bs1
              (0xd9 :: len bs2 :: bs2 ++ rest) last pool Hself H1)
    as (d1 & Hrun1 & Hrest1 & Hfree1 & Hbuf1).
  destruct d1 as [[u1 l1] p1]. cbn [r unread dpool] in *. subst u1.
  destruct (Decode_str_frame env TString 1 bs2 rest l1 p1 Hself)
    as (d2 & Hrun2 & Hrest2 & _); [auto|exact H2|].
  exists (mkDecoder (mkReader (0xd9 :: len bs2 :: bs2 ++ rest) l1) p1), d2.
  split; [exact Hrun1|]. split; [|exact Hrest2].
  rewrite big_endian_1, Z.mod_small in Hrun2 by (change 256 with 256; lia).
  unfold reading in Hrun2. cbn [str_code app] in Hrun2.
  change Code.Str8 with 0xd9 in Hrun2. rewrite Hrun2.
  assert (buf_bytes (pool_get p1).2 (pool_get p1).1 = bs1) as ->.
  { unfold pool_get. rewrite Hfree1. cbn [fst snd]. exact Hbuf1. }
  reflexivity.
Qed.

Lemma fixstr_then_str8_concatenates_witness :
  ∃ d1 d2,
    Decode no_user_types (Pointer TString)
      (reading ((0xa0 + len [0x61]) :: [0x61]
                ++ 0xd9 :: len [0x62] :: [0x62] ++ [])
               None empty_pool)
      = (Ok (VString (string_of_bytes [0x61])), d1) ∧
    Decode no_user_types (Pointer TString) d1
      = (Ok (VString (string_of_bytes ([0x61] ++ [0x62]))), d2) ∧
    unread (r d2) = [].
Proof.
  apply (fixstr_then_str8_concatenates no_user_types [0x61] [0x62] []
           None empty_pool).
  - reflexivity.
  - vm_compute. reflexivity.
  - vm_compute. reflexivity.
Defined.

(** The Bin decoders read no payload.  On a Bin8, Bin16 or Bin32 frame
    [Decode] reads the tag and the length field and then returns, as the
    byte string, the contents of the buffer it has just taken from the pool
    -- empty when that buffer is fresh -- whatever the length says: the
    payload stays in the stream, and the buffer is not given back. *)
Theorem Decode_bin_reads_no_payload (env : Env) (T : GoType) (k : nat)
    (ls rest : list Z) (last : option Z) (pool : Pool) :
  DecodeMsgpack env (TPtr T) = None →
  (k = 1 ∨ k = 2 ∨ k = 4)%nat →
  List.length ls = k →
  T = TSlice (TUint W8) ∨ T = TInterface →
  Decode env (Pointer T) (reading (bin_code k :: ls ++ rest) last pool)
  = (Ok (VBytes (buf_bytes (pool_get pool).2 (pool_get pool).1)),
     reading rest (list.last ls) (pool_get pool).2).
Proof.
  intros Hself Hk Hlen HT.
  rewrite (Decode_leaf env T (bin_code k) (strDecoder (bin_code k)));
    [|assumption|destruct Hk as [->|[->| ->]]; reflexivity
     |destruct Hk as [->|[->| ->]]; vm_compute; reflexivity].
  unfold bind at 1, wrap at 1. cbn [valueDecoder_Decode].
  unfold strDecoder_Decode.
  assert (∀ msg,
    wrap (bs' <- io.ReadFull k ;; ret (from_big_endian bs')) msg
      (reading (ls ++ rest) (Some (bin_code k)) pool)
    = (Ok (from_big_endian ls), reading rest (list.last ls) pool)) as Hread.
  { intros msg. unfold wrap, bind.
    destruct k as [|k']; [lia|].
    rewrite (ReadFull_exact k' ls) by exact Hlen. reflexivity. }
  destruct (pool_get pool) as [h p1] eqn:Hget. cbn [fst snd].
  destruct Hk as [->|[->| ->]]; cbn [bin_code] in *;
    repeat match goal with
           | |- context [?c =? ?c'] =>
               let b := eval vm_compute in (c =? c') in
               change (c =? c') with b
           end;
    cbn [orb]; cbv iota;
    unfold bind at 1, Reader.ReadUint8, Reader.ReadUint16, Reader.ReadUint32;
    rewrite Hread;
    unfold bind, bufferpool.Get, buf_Bytes, ret;
    cbn [the_pool with_pool Decoder_pool dpool reading r]; rewrite Hget;
    cbv beta iota zeta; cbn [the_pool with_pool Decoder_pool dpool r];
    destruct HT as [-> | ->]; reflexivity.
Qed.

Lemma Decode_bin_reads_no_payload_witness :
  Decode no_user_types (Pointer (TSlice (TUint W8)))
    (reading (bin_code 1 :: [0x02] ++ [0x68; 0x69]) None empty_pool)
  = (Ok (VBytes (buf_bytes (pool_get empty_pool).2 (pool_get empty_pool).1)),
     reading [0x68; 0x69] (list.last [0x02]) (pool_get empty_pool).2).
Proof.
  apply (Decode_bin_reads_no_payload no_user_types (TSlice (TUint W8)) 1
           [0x02] [0x68; 0x69] None empty_pool).
  - reflexivity.
  - left; reflexivity.
  - reflexivity.
  - left; reflexivity.
Defined.

(** ** Arrays *)

(** A leaf decoder calls no [Decode]: how much fuel the engine has left
    makes no difference to it. *)
Lemma Decode_fuel_leaf (env : Env) (T : GoType) (code : Z) (dec : valueDecoder)
    (rest : list Z) (last : option Z) (pool : Pool) (fuel : nat) :
  DecodeMsgpack env (TPtr T) = None →
  Code.IsMapFamily code = false →
  decoders !! code = Some dec →
  is_leaf dec = true →
  Decode_ env (S fuel) (Pointer T) (reading (code :: rest) last pool)
  = Decode env (Pointer T) (reading (code :: rest) last pool).
Proof.
  intros Hself Hm Hd Hleaf.
  rewrite (Decode_leaf env T code dec) by assumption.
  cbn [Decode_]. unfold Decode_body. cbn [Target_type mbind option_bind].
  rewrite Hself.
  change ((code0 <- wrap PeekCode "msgpack: failed to peek code" ;;
           unchecked bufio.ReadByte ;;
           dec0 <- select_decoder code0 T ;;
           decoded <- wrap (valueDecoder_Decode env (Decode_ env fuel) fuel dec0)
                           "msgpack: failed to decode value" ;;
           assign_decoded T decoded) (reading (code :: rest) last pool))
    with ((dec0 <- select_decoder code T ;;
           decoded <- wrap (valueDecoder_Decode env (Decode_ env fuel) fuel dec0)
                           "msgpack: failed to decode value" ;;
           assign_decoded T decoded) (reading rest (Some code) pool)).
  unfold bind at 1. rewrite (select_decoder_table _ _ dec) by assumption.
  destruct dec; try discriminate Hleaf; reflexivity.
Qed.

Lemma Decode_fuel_uint (env : Env) (x : width * Z) (rest : list Z)
    (last : option Z) (pool : Pool) (fuel : nat) :
  DecodeMsgpack env (TPtr TInterface) = None →
  uint_fits x →
  Decode_ env (S fuel) (Pointer TInterface)
    (reading (uint_frame x ++ rest) last pool)
  = (Ok (uint_value x),
     reading rest (list.last (big_endian (octets x.1) x.2)) pool).
Proof.
  intros Hself [Hw Hx]. destruct x as [w n]. cbn [fst snd] in *.
  unfold uint_frame, uint_value. cbn [fst snd app].
  rewrite (Decode_fuel_leaf env TInterface (uint_code w) (uintDecoder (uint_code w)));
    [|assumption|destruct w; reflexivity|destruct w; vm_compute; reflexivity
     |reflexivity].
  rewrite Decode_uint_frame; [|assumption|apply big_endian_length].
  rewrite from_big_endian_big_endian.
  replace (8 * Z.of_nat (octets w)) with (bits w) by (destruct w; reflexivity).
  rewrite Z.mod_small by lia.
  destruct w; try contradiction; reflexivity.
Qed.

Lemma array_loop_uints (env : Env) (fuel0 : nat) (xs : list (width * Z)) :
  DecodeMsgpack env (TPtr TInterface) = None →
  Forall uint_fits xs →
  ∀ (fuel : nat) (i : Z) (acc : list Value) (rest : list Z)
    (last : option Z) (pool : Pool),
    (List.length xs <= fuel)%nat →
    ∃ last',
      array_loop (Decode_ env (S fuel0)) fuel i (i + len xs) acc
        (reading (List.concat (uint_frame <$> xs) ++ rest) last pool)
      = (Ok (acc ++ (uint_value <$> xs)), reading rest last' pool).
Proof.
  intros Hself Hall. induction Hall as [|x xs Hx Hall IH];
    intros fuel i acc rest last pool Hfuel.
  - exists last. change (len (@nil (width * Z))) with 0. rewrite Z.add_0_r.
    destruct fuel; cbn [array_loop]; rewrite Z.ltb_irrefl, app_nil_r;
      reflexivity.
  - destruct fuel as [|fuel]; [cbn in Hfuel; lia|].
    cbn [array_loop].
    assert (len (x :: xs) = 1 + len xs) as Hlen by (unfold len; cbn; lia).
    assert (0 <= len xs) as Hnn by (unfold len; lia).
    destruct (Z.ltb_spec i (i + len (x :: xs))); [|lia].
    cbn [fmap list_fmap List.concat]. rewrite <- app_assoc.
    unfold bind at 1, wrap at 1.
    rewrite Decode_fuel_uint by assumption.
    destruct (IH fuel (i + 1) (acc ++ [uint_value x]) rest
                (list.last (big_endian (octets x.1) x.2)) pool)
      as (last' & Hrun); [cbn in Hfuel; lia|].
    exists last'.
    replace (i + len (x :: xs)) with (i + 1 + len xs) by lia.
    rewrite Hrun, <- app_assoc. reflexivity.
Qed.

Lemma forM_uints (env : Env) (xs : list (width * Z)) (e : Encoder) :
  forM_ (λ x, wrap (Encode env x) "msgpack: failed to write array payload")
        (uint_value <$> xs) e
  = (Ok tt, emit (List.concat (uint_frame <$> xs)) e).
Proof.
  revert e. induction xs as [|x xs IH]; intros e.
  - cbn. unfold emit. rewrite app_nil_r. destruct e; reflexivity.
  - cbn [fmap list_fmap forM_ List.concat]. unfold bind at 1, wrap at 1.
    unfold uint_value at 1. rewrite Encode_uint.
    change (forM_ ?f (list_fmap _ _ uint_value xs)) with (forM_ f (uint_value <$> xs)).
    rewrite IH, emit_emit. reflexivity.
Qed.

(** A slice whose type has no encoder of its own goes to [EncodeArray]. *)
Lemma Encode_slice (env : Env) (elem : GoType) (l : list Value) (e : Encoder) :
  isExtType env (TSlice elem) = None →
  EncodeMsgpack env (TSlice elem) = None →
  Encode env (VSlice elem l) e = EncodeArray env (VSlice elem l) e.
Proof.
  intros Hext Henc. unfold Encode, EncodeArray, Encode_, indirect.
  cbn [reflect.TypeOf]. rewrite Hext. unfold isEncodeMsgpacker. rewrite Henc.
  reflexivity.
Qed.

Lemma fixarray_codes (n : Z) :
  0 <= n < 16 →
  decoders !! (0x90 + n) = Some (arrayDecoder (0x90 + n))
  ∧ Code.IsMapFamily (0x90 + n) = false
  ∧ array_size (0x90 + n) = ret n
  ∧ Z.lor Code.FixArray0 (uint8 n) = 0x90 + n.
Proof.
  intros Hn.
  assert (n ∈ seqZ 0 16) as Hin by (apply elem_of_seqZ; lia).
  revert Hin. generalize n. apply Forall_forall.
  vm_compute. repeat constructor.
Qed.

(** Short arrays of unsigned integers.  [Encode] of a [[]interface{}] of
    fewer than 16 unsigned integers of declared widths writes the FixArray
    tag that carries the count and then the frame of each element in
    order; [Decode] of these bytes into an empty interface or a
    [[]interface{}] gives the slice back, element by element, and stops at
    the end of the last frame. *)
Theorem roundtrip_array_of_uints (env : Env) (xs : list (width * Z))
    (T : GoType) (rest : list Z) (last : option Z) (pool : Pool) :
  Forall uint_fits xs →
  len xs < 16 →
  T = TSlice TInterface ∨ T = TInterface →
  isExtType env (TSlice TInterface) = None →
  EncodeMsgpack env (TSlice TInterface) = None →
  DecodeMsgpack env (TPtr T) = None →
  DecodeMsgpack env (TPtr TInterface) = None →
  ∃ wire d',
    Encode env (VSlice TInterface (uint_value <$> xs)) NewEncoder
      = (Ok tt, mkEncoder wire empty_pool) ∧
    wire = (0x90 + len xs) :: List.concat (uint_frame <$> xs) ∧
    Decode env (Pointer T) (reading (wire ++ rest) last pool)
      = (Ok (VSlice TInterface (uint_value <$> xs)), d') ∧
    unread (r d') = rest ∧ dpool d' = pool.
Proof.
  intros Hall Hn HT Hext Henc Hself HselfI.
  assert (0 <= len xs) as Hnn by (unfold len; lia).
  destruct (fixarray_codes (len xs)) as (Hdec & Hmap & Hsize & Hlor); [lia|].
  exists ((0x90 + len xs) :: List.concat (uint_frame <$> xs)).
  assert (∃ last',
    Decode env (Pointer T)
      (reading (((0x90 + len xs) :: List.concat (uint_frame <$> xs)) ++ rest)
               last pool)
    = (Ok (VSlice TInterface (uint_value <$> xs)), reading rest last' pool))
    as (last' & Hrun).
  { cbn [app]. rewrite (Decode_leaf env T _ _ _ _ _ Hself Hmap Hdec).
    unfold bind at 1, wrap at 1. cbn [valueDecoder_Decode].
    unfold arrayDecoder_Decode. rewrite Hsize. unfold bind at 1. cbn [ret].
    destruct (array_loop_uints env
                (List.length (List.concat (uint_frame <$> xs) ++ rest)) xs
                HselfI Hall
                (S (List.length (List.concat (uint_frame <$> xs) ++ rest)))
                0 [] rest (Some (0x90 + len xs)) pool) as (last' & Hloop).
    { rewrite length_app. clear. induction xs as [|x xs IH]; cbn; [lia|].
      rewrite length_app in *. cbn. lia. }
    exists last'. rewrite Z.add_0_l in Hloop.
    unfold bind at 1. rewrite Hloop. cbn [app ret].
    destruct HT as [-> | ->]; reflexivity. }
  exists (reading rest last' pool).
  split; [|split; [reflexivity|split; [exact Hrun|split; reflexivity]]].
  rewrite Encode_slice by assumption. unfold EncodeArray, EncodeArray_.
  change (has_fast_path (reflect.KindOf TInterface)) with false. cbv iota.
  unfold bind at 1, EncodeArrayHeader, wrap at 1, Writer.WriteArrayHeader.
  assert (len (uint_value <$> xs) = len xs) as ->
    by (unfold len; rewrite length_fmap; reflexivity).
  destruct (Z.ltb_spec (len xs) 16); [|lia].
  unfold Writer.WriteByte. rewrite Write_emit, Hlor.
  rewrite forM_uints, emit_emit. reflexivity.
Qed.

Lemma roundtrip_array_of_uints_witness :
  ∃ wire d',
    Encode no_user_types
      (VSlice TInterface (uint_value <$> [(W8, 7); (W16, 300)])) NewEncoder
      = (Ok tt, mkEncoder wire empty_pool) ∧
    wire = (0x90 + len [(W8, 7); (W16, 300)])
           :: List.concat (uint_frame <$> [(W8, 7); (W16, 300)]) ∧
    Decode no_user_types (Pointer TInterface)
      (reading (wire ++ [0xc0]) None empty_pool)
      = (Ok (VSlice TInterface (uint_value <$> [(W8, 7); (W16, 300)])), d') ∧
    unread (r d') = [0xc0] ∧ dpool d' = empty_pool.
Proof.
  apply (roundtrip_array_of_uints no_user_types [(W8, 7); (W16, 300)]
           TInterface [0xc0] None empty_pool).
  - repeat constructor; cbn; try discriminate; lia.
  - vm_compute. reflexivity.
  - right; reflexivity.
  - reflexivity.
  - reflexivity.
  - reflexivity.
  - reflexivity.
Defined.

Lemma array_codes (code : Z) :
  0x90 <= code <= 0x9f ∨ code = 0xdc ∨ code = 0xdd →
  decoders !! code = Some (arrayDecoder code)
  ∧ Code.IsMapFamily code = false.
Proof.
  intros Hc.
  assert (code ∈ seqZ 0x90 16 ++ [0xdc; 0xdd]) as Hin.
  { apply elem_of_app. destruct Hc as [?|[->| ->]].
    - left. apply elem_of_seqZ. lia.
    - right. constructor.
    - right. constructor. constructor. }
  revert Hin. generalize code. apply Forall_forall.
  vm_compute. repeat constructor.
Qed.

Lemma map_codes (code : Z) :
  Code.IsMapFamily code = true →
  decoders !! code = Some (mapDecoder code).
Proof.
  intros Hc.
  assert (code ∈ seqZ 0x80 16 ++ [0xde; 0xdf]) as Hin.
  { apply elem_of_app. unfold Code.IsMapFamily in Hc.
    apply orb_true_iff in Hc as [Hc|Hc];
      [apply orb_true_iff in Hc as [Hc|Hc]|].
    - left. apply elem_of_seqZ. apply andb_true_iff in Hc as [H1 H2].
      apply Z.leb_le in H1, H2. unfold Code.FixMap0, Code.FixMap15 in *. lia.
    - right. apply Z.eqb_eq in Hc as ->. constructor.
    - right. apply Z.eqb_eq in Hc as ->. constructor. constructor. }
  revert Hin. generalize code. apply Forall_forall.
  vm_compute. repeat constructor.
Qed.

Lemma Kind_eqb_neq (a b : reflect.Kind) :
  a ≠ b → reflect.Kind_eqb a b = false.
Proof.
  intros Hab. destruct (reflect.Kind_eqb a b) eqn:E; [|reflexivity].
  apply Kind_eqb_eq in E. contradiction.
Qed.

(** What the array and map decoders make is generic: a [[]interface{}], a
    [map[string]interface{}].  [Decode] stores it with [reflect.Set], so an
    array frame read into a slice of any other element type, or a map frame
    read into a map of any other type, never succeeds, whatever the frame
    holds: where the elements decode, the assignment panics. *)
Theorem Decode_composite_needs_generic_sink (env : Env) (T : GoType)
    (code : Z) (rest : list Z) (last : option Z) (pool : Pool) :
  DecodeMsgpack env (TPtr T) = None →
  reflect.KindOf T ≠ reflect.Interface →
  ((0x90 <= code <= 0x9f ∨ code = 0xdc ∨ code = 0xdd)
   ∧ type_eqb (TSlice TInterface) T = false)
  ∨ (Code.IsMapFamily code = true
     ∧ reflect.KindOf T ≠ reflect.Struct
     ∧ type_eqb (TMap TString TInterface) T = false) →
  ∀ v d', Decode env (Pointer T) (reading (code :: rest) last pool) ≠ (Ok v, d').
Proof.
  intros Hself Hiface Hcase v d'.
  pose proof (Kind_eqb_neq _ _ Hiface) as Hk.
  destruct Hcase as [[Hcode Hneq]|(Hmap & Hstruct & Hneq)].
  - destruct (array_codes code Hcode) as [Hdec Hm].
    rewrite (Decode_leaf env T _ _ _ _ _ Hself Hm Hdec).
    unfold bind at 1, wrap at 1. cbn [valueDecoder_Decode].
    unfold arrayDecoder_Decode, bind.
    destruct (array_size code _) as [[size|?|?|] d1]; try discriminate.
    destruct (array_loop _ _ _ _ _ _) as [[l|?|?|] d2]; try discriminate.
    cbn [ret]. unfold assign_decoded, Value_Set, assignable.
    cbn [reflect.IsValid reflect.TypeOf]. rewrite Hneq, Hk. discriminate.
  - pose proof (map_codes code Hmap) as Hdec.
    unfold reading. rewrite Decode_unfold by exact Hself.
    unfold bind at 1, select_decoder. rewrite Hmap.
    rewrite (Kind_eqb_neq _ _ Hstruct).
    cbn [andb]. unfold wrap at 1, lookupDecoder. rewrite Hdec. cbn [ret].
    unfold bind at 1, wrap at 1. cbn [valueDecoder_Decode].
    unfold mapDecoder_Decode, bind.
    destruct (map_size code _) as [[size|?|?|] d1]; try discriminate.
    destruct (map_loop _ _ _ _ _ _) as [[m|?|?|] d2]; try discriminate.
    cbn [ret]. unfold assign_decoded, Value_Set, assignable.
    cbn [reflect.IsValid reflect.TypeOf]. rewrite Hneq, Hk. discriminate.
Qed.

Lemma Decode_composite_needs_generic_sink_witness :
  ∃ o d',
    Decode no_user_types (Pointer (TSlice (TUint W8)))
      (reading [0x91; 0xcc; 0x07] None empty_pool) = (o, d')
    ∧ ∀ v, o ≠ Ok v.
Proof.
  eexists _, _. split; [apply surjective_pairing|].
  intros v Hv.
  apply (Decode_composite_needs_generic_sink no_user_types (TSlice (TUint W8))
           0x91 [0xcc; 0x07] None empty_pool eq_refl) with
    (v := v)
    (d' := (Decode no_user_types (Pointer (TSlice (TUint W8)))
              (reading [0x91; 0xcc; 0x07] None empty_pool)).2).
  - discriminate.
  - left. split; [left; lia|reflexivity].
  - rewrite <- Hv. apply surjective_pairing.
Defined.

(** ** The struct binder *)

Lemma Decode_fuel_fixstr (env : Env) (key : string) (rest : list Z)
    (last : option Z) (pool : Pool) (fuel : nat) :
  DecodeMsgpack env (TPtr TString) = None →
  strlen key < 32 →
  ∃ d', Decode_ env (S fuel) (Pointer TString)
          (reading ((0xa0 + strlen key) :: bytes_of_string key ++ rest)
                   last pool)
        = (Ok (VString key), d')
        ∧ unread (r d') = rest.
Proof.
  intros Hself Hshort.
  assert (0 <= strlen key) as Hnn by (unfold strlen; lia).
  destruct (fixstr_codes (strlen key)) as (Hdec & Hmap & _); [lia|].
  rewrite (Decode_fuel_leaf env TString _ _ _ _ _ _ Hself Hmap Hdec eq_refl).
  pose proof (strlen_bytes key) as Hlen.
  destruct (Decode_fixstr_frame env TString (bytes_of_string key) rest last
              pool Hself) as (d' & Hrun & Hrest & _); [lia|].
  rewrite Hlen, string_of_bytes_of_string in Hrun.
  exists d'. split; [exact Hrun|exact Hrest].
Qed.

(** [Decode] of a one-pair map into a struct: the struct binder is chosen
    and makes one round over the zero value of the struct. *)
Lemma Decode_struct_one_pair (env : Env) (name : string)
    (fields : list StructField) (rest : list Z) (last : option Z)
    (pool : Pool) :
  DecodeMsgpack env (TPtr (TStruct name fields)) = None →
  ∃ zeros,
    reflect.Zero (TStruct name fields) = VStruct name fields zeros ∧
    Decode env (Pointer (TStruct name fields))
      (reading (0x81 :: rest) last pool)
    = match wrap (struct_round (Decode_ env (S (List.length rest)))
                    fields (name2field_from 0 fields ∅) zeros)
                 "msgpack: failed to decode value"
                 (reading rest (Some 0x81) pool) with
      | (Ok vals, d') => (Ok (VStruct name fields vals), d')
      | (Fail e, d') => (Fail e, d')
      | (Panic msg, d') => (Panic msg, d')
      | (OutOfFuel, d') => (OutOfFuel, d')
      end.
Proof.
  intros Hself.
  exists (match reflect.Zero (TStruct name fields) with
          | VStruct _ _ vals => vals
          | _ => []
          end).
  split; [reflexivity|].
  unfold reading. rewrite Decode_unfold by exact Hself.
  unfold bind at 1, select_decoder.
  change (Code.IsMapFamily 129) with true. cbn [reflect.KindOf andb
    reflect.Kind_eqb ret].
  unfold bind at 1, wrap at 1. cbn [valueDecoder_Decode].
  unfold structDecoder_Decode. unfold bind at 1.
  change (map_size 129) with (@ret Decoder Z 1). cbn [ret].
  cbn [struct_loop]. change (0 <? 1) with true. cbv iota.
  unfold bind, wrap.
  destruct (struct_round _ _ _ _ _) as [[vals|e|msg|] d1]; try reflexivity.
  change (0 + 1 <? 1) with false.
  destruct (List.length rest); cbn [struct_loop ret];
    change (0 + 1 <? 1) with false; cbv iota; cbn [ret].
  all: unfold assign_decoded, Value_Set, assignable;
    cbn [reflect.IsValid reflect.TypeOf type_eqb].
  all: rewrite String.eqb_refl; cbn [orb ret]; reflexivity.
Qed.

(** A key that names no field is skipped; its value is not.  A map of one
    pair whose key the struct does not bind decodes without error into the
    untouched struct, and the stream is left at the frame of the value,
    where the next [Decode] will start. *)
Theorem Decode_struct_unknown_key (env : Env) (name key : string)
    (fields : list StructField) (rest : list Z) (last : option Z)
    (pool : Pool) :
  DecodeMsgpack env (TPtr (TStruct name fields)) = None →
  DecodeMsgpack env (TPtr TString) = None →
  strlen key < 32 →
  name2field_from 0 fields ∅ !! key = None →
  ∃ d',
    Decode env (Pointer (TStruct name fields))
      (reading (0x81 :: (0xa0 + strlen key) :: bytes_of_string key ++ rest)
               last pool)
    = (Ok (reflect.Zero (TStruct name fields)), d')
    ∧ unread (r d') = rest.
Proof.
  intros Hself HselfS Hshort Hkey.
  destruct (Decode_struct_one_pair env name fields
              ((0xa0 + strlen key) :: bytes_of_string key ++ rest) last pool
              Hself) as (zeros & Hzero & Hrun).
  rewrite Hrun, Hzero. clear Hrun.
  destruct (Decode_fuel_fixstr env key rest (Some 0x81) pool
              (List.length ((0xa0 + strlen key) :: bytes_of_string key ++ rest))
              HselfS Hshort) as (d1 & Hdec & Hrest).
  exists d1. unfold wrap.
  rewrite (struct_round_unknown_key (Decode_ env _) fields _ zeros _ d1 key
             Hdec Hkey).
  split; [reflexivity|exact Hrest].
Qed.

Lemma Decode_struct_unknown_key_witness :
  ∃ d',
    Decode no_user_types (Pointer (TStruct "Named" Named_fields))
      (reading (0x81 :: (0xa0 + strlen "x") :: bytes_of_string "x" ++ [0xc3])
               None empty_pool)
    = (Ok (reflect.Zero (TStruct "Named" Named_fields)), d')
    ∧ unread (r d') = [0xc3].
Proof.
  apply (Decode_struct_unknown_key no_user_types "Named" "x" Named_fields
           [0xc3] None empty_pool).
  - reflexivity.
  - reflexivity.
  - vm_compute. reflexivity.
  - vm_compute. reflexivity.
Defined.

(** A nil for a plain field is fatal.  When the key names a field that is
    neither a struct nor a pointer to one and the value on the wire is nil
    (0xc0), the binder asks the type of the nil it has decoded: [Decode]
    panics, where a nil at the top level would have reset the variable. *)
Theorem Decode_struct_nil_field_panics (env : Env) (name key : string)
    (fields : list StructField) (i : nat) (field : StructField)
    (rest : list Z) (last : option Z) (pool : Pool) :
  DecodeMsgpack env (TPtr (TStruct name fields)) = None →
  DecodeMsgpack env (TPtr TString) = None →
  DecodeMsgpack env (TPtr TInterface) = None →
  strlen key < 32 →
  name2field_from 0 fields ∅ !! key = Some i →
  fields !! i = Some field →
  reflect.KindOf (Typ field) ≠ reflect.Struct →
  is_ptr_to_struct (Typ field) = false →
  ∃ d',
    Decode env (Pointer (TStruct name fields))
      (reading (0x81 :: (0xa0 + strlen key) :: bytes_of_string key
                ++ 0xc0 :: rest) last pool)
    = (Panic "reflect: call of reflect.Value.Type on zero Value", d')
    ∧ unread (r d') = rest.
Proof.
  intros Hself HselfS HselfI Hshort Hkey Hfield Hstruct Hptr.
  destruct (Decode_struct_one_pair env name fields
              ((0xa0 + strlen key) :: bytes_of_string key ++ 0xc0 :: rest)
              last pool Hself) as (zeros & Hzero & Hrun).
  rewrite Hrun. clear Hrun.
  set (fuel := List.length
                 ((0xa0 + strlen key) :: bytes_of_string key ++ 0xc0 :: rest)).
  destruct (Decode_fuel_fixstr env key (0xc0 :: rest) (Some 0x81) pool fuel
              HselfS Hshort) as (d1 & Hdec & Hrest).
  destruct d1 as [[u1 l1] p1]. cbn [r unread] in Hrest. subst u1.
  exists (reading rest (Some 0xc0) p1).
  unfold wrap at 1, struct_round. unfold bind at 1, wrap at 1.
  rewrite Hdec. cbn [as_string]. rewrite Hkey, Hfield.
  cbn [fmap option_fmap option_map default from_option]. unfold id.
  rewrite (Kind_eqb_neq _ _ Hstruct), Hptr.
  unfold bind at 1, wrap at 1.
  change (mkDecoder (mkReader (0xc0 :: rest) l1) p1)
    with (reading (0xc0 :: rest) l1 p1).
  rewrite (Decode_fuel_leaf env TInterface 0xc0 nilDecoder);
    [|assumption|reflexivity|vm_compute; reflexivity|reflexivity].
  rewrite (Decode_leaf env TInterface 0xc0 nilDecoder);
    [|assumption|reflexivity|vm_compute; reflexivity].
  split; reflexivity.
Qed.

Lemma Decode_struct_nil_field_panics_witness :
  ∃ d',
    Decode no_user_types (Pointer (TStruct "Named" Named_fields))
      (reading (0x81 :: (0xa0 + strlen "n") :: bytes_of_string "n"
                ++ 0xc0 :: []) None empty_pool)
    = (Panic "reflect: call of reflect.Value.Type on zero Value", d')
    ∧ unread (r d') = [].
Proof.
  apply (Decode_struct_nil_field_panics no_user_types "Named" "n" Named_fields
           0 (mkField "Name" "" "n" TString) [] None empty_pool).
  - reflexivity.
  - reflexivity.
  - reflexivity.
  - vm_compute. reflexivity.
  - vm_compute. reflexivity.
  - reflexivity.
  - discriminate.
  - reflexivity.
Defined.

Lemma Zero_struct_field (name : string) (fields : list StructField)
    (zeros : list Value) (i : nat) (field : StructField) :
  reflect.Zero (TStruct name fields) = VStruct name fields zeros →
  fields !! i = Some field →
  zeros !! i = Some (reflect.Zero (Typ field)).
Proof.
  intros Hzero. cbn [reflect.Zero] in Hzero. injection Hzero as <-.
  revert i. induction fields as [|[n p t ty] fs IH]; intros [|i] Hf;
    try discriminate Hf.
  - injection Hf as <-. reflexivity.
  - exact (IH i Hf).
Qed.

(** A field that is a pointer to a struct cannot be decoded.  The binder
    starts from the zero value of the struct, where such a field is a nil
    pointer, and hands that nil pointer to [Decode], which refuses it: the
    call fails with an [InvalidDecodeError], wrapped by the binder and by
    [Decode], and nothing of the value is read. *)
Theorem Decode_struct_pointer_field_fails (env : Env) (name key : string)
    (fields : list StructField) (i : nat) (field : StructField)
    (n' : string) (fs' : list StructField)
    (rest : list Z) (last : option Z) (pool : Pool) :
  DecodeMsgpack env (TPtr (TStruct name fields)) = None →
  DecodeMsgpack env (TPtr TString) = None →
  DecodeMsgpack env (TPtr (TStruct n' fs')) = None →
  strlen key < 32 →
  name2field_from 0 fields ∅ !! key = Some i →
  fields !! i = Some field →
  Typ field = TPtr (TStruct n' fs') →
  ∃ d',
    Decode env (Pointer (TStruct name fields))
      (reading (0x81 :: (0xa0 + strlen key) :: bytes_of_string key ++ rest)
               last pool)
    = (Fail (Wrapped "msgpack: failed to decode value"
               (Wrapped "msgpack: failed to decode struct value for key %s"
                  InvalidDecodeError)), d')
    ∧ unread (r d') = rest.
Proof.
  intros Hself HselfS HselfP Hshort Hkey Hfield Htyp.
  destruct (Decode_struct_one_pair env name fields
              ((0xa0 + strlen key) :: bytes_of_string key ++ rest)
              last pool Hself) as (zeros & Hzero & Hrun).
  rewrite Hrun. clear Hrun.
  set (fuel := List.length
                 ((0xa0 + strlen key) :: bytes_of_string key ++ rest)).
  destruct (Decode_fuel_fixstr env key rest (Some 0x81) pool fuel
              HselfS Hshort) as (d1 & Hdec & Hrest).
  exists d1. split; [|exact Hrest].
  unfold wrap at 1, struct_round. unfold bind at 1, wrap at 1.
  rewrite Hdec. cbn [as_string]. rewrite Hkey, Hfield.
  rewrite (Zero_struct_field name fields zeros i field Hzero Hfield).
  cbn [fmap option_fmap option_map default from_option]. unfold id.
  rewrite Htyp. cbn [reflect.KindOf reflect.Kind_eqb is_ptr_to_struct
    reflect.Zero].
  unfold bind at 1, wrap at 1. cbn [Decode_]. unfold Decode_body.
  cbn [Target_type mbind option_bind]. rewrite HselfP. reflexivity.
Qed.

Lemma Decode_struct_pointer_field_fails_witness :
  ∃ d',
    Decode no_user_types
      (Pointer (TStruct "Outer" [mkField "In" "" "in" (TPtr Named)]))
      (reading (0x81 :: (0xa0 + strlen "in") :: bytes_of_string "in"
                ++ [0x80]) None empty_pool)
    = (Fail (Wrapped "msgpack: failed to decode value"
               (Wrapped "msgpack: failed to decode struct value for key %s"
                  InvalidDecodeError)), d')
    ∧ unread (r d') = [0x80].
Proof.
  apply (Decode_struct_pointer_field_fails no_user_types "Outer" "in"
           [mkField "In" "" "in" (TPtr Named)] 0
           (mkField "In" "" "in" (TPtr Named)) "Named" Named_fields
           [0x80] None empty_pool).
  - reflexivity.
  - reflexivity.
  - reflexivity.
  - vm_compute. reflexivity.
  - vm_compute. reflexivity.
  - reflexivity.
  - reflexivity.
Defined.

Lemma name2field_from_cons (i : nat) (field : StructField)
    (fields : list StructField) (m : gmap string nat) :
  name2field_from i (field :: fields) m
  = name2field_from (S i) fields
      (match wire_name field with
       | Some name => <[name := i]> m
       | None => m
       end).
Proof.
  cbn [name2field_from]. unfold wire_name.
  destruct (negb (String.eqb (PkgPath field) "")); [reflexivity|].
  cbv zeta. destruct (String.eqb (parseMsgpackTag field).1 "-"); reflexivity.
Qed.

Lemma name2field_from_lookup (key : string) (fields : list StructField) :
  ∀ (k : nat) (m : gmap string nat) (i : nat),
    name2field_from k fields m !! key = Some i ↔
    (∃ j field,
        i = (k + j)%nat ∧ fields !! j = Some field
        ∧ wire_name field = Some key
        ∧ ∀ j' g, (j < j')%nat → fields !! j' = Some g →
                  wire_name g ≠ Some key)
    ∨ (m !! key = Some i
       ∧ ∀ j' g, fields !! j' = Some g → wire_name g ≠ Some key).
Proof.
  induction fields as [|f fs IH]; intros k m i.
  - cbn [name2field_from]. split.
    + intros H. right. split; [exact H|]. intros j' g Hg. discriminate Hg.
    + intros [(j & field & _ & Hf & _)|[H _]]; [discriminate Hf|exact H].
  - rewrite name2field_from_cons, IH. clear IH. split.
    + intros [(j & field & -> & Hf & Hw & Hlater)|[Hm Hnone]].
      * left. exists (S j), field. split; [lia|]. split; [exact Hf|].
        split; [exact Hw|]. intros [|j'] g Hj Hg; [lia|].
        apply (Hlater j' g); [lia|exact Hg].
      * destruct (wire_name f) as [name|] eqn:Hw.
        -- destruct (decide (name = key)) as [->|Hne].
           ++ rewrite lookup_insert_eq in Hm. injection Hm as <-.
              left. exists 0%nat, f. split; [lia|]. split; [reflexivity|].
              split; [exact Hw|]. intros [|j'] g Hj Hg; [lia|].
              exact (Hnone j' g Hg).
           ++ rewrite lookup_insert_ne in Hm by exact Hne.
              right. split; [exact Hm|]. intros [|j'] g Hg.
              ** injection Hg as <-. rewrite Hw. congruence.
              ** exact (Hnone j' g Hg).
        -- right. split; [exact Hm|]. intros [|j'] g Hg.
           ++ injection Hg as <-. rewrite Hw. discriminate.
           ++ exact (Hnone j' g Hg).
    + intros [(j & field & -> & Hf & Hw & Hlater)|[Hm Hnone]].
      * destruct j as [|j].
        -- injection Hf as ->. right. rewrite Hw, lookup_insert_eq.
           split; [f_equal; lia|]. intros j' g Hg.
           apply (Hlater (S j') g); [lia|exact Hg].
        -- left. exists j, field. split; [lia|]. split; [exact Hf|].
           split; [exact Hw|]. intros j' g Hj Hg.
           apply (Hlater (S j') g); [lia|exact Hg].
      * right. pose proof (Hnone 0%nat f eq_refl) as Hf.
        split; [|intros j' g Hg; exact (Hnone (S j') g Hg)].
        destruct (wire_name f) as [name|]; [|exact Hm].
        rewrite lookup_insert_ne by congruence. exact Hm.
Qed.

(** The table of the struct binder.  A key is bound to the field at
    position [i] exactly when that field is exported, goes by that key
    after its tag, a key of "-" apart, and no later field goes by the same
    key: of two fields with one name the later one is filled, the earlier
    one never. *)
Theorem name2field_last_wins (fields : list StructField) (key : string)
    (i : nat) :
  name2field_from 0 fields ∅ !! key = Some i ↔
  ∃ field,
    fields !! i = Some field ∧ wire_name field = Some key
    ∧ ∀ j g, (i < j)%nat → fields !! j = Some g → wire_name g ≠ Some key.
Proof.
  rewrite name2field_from_lookup. split.
  - intros [(j & field & -> & Hf & Hw & Hlater)|[Hm _]].
    + exists field. auto.
    + rewrite lookup_empty in Hm. discriminate Hm.
  - intros (field & Hf & Hw & Hlater). left. exists i, field. auto.
Qed.

(** ** Struct tags *)

Lemma comma_free_cons (c : ascii) (s : string) :
  comma_free (String c s) → Ascii.eqb c "," = false ∧ comma_free s.
Proof.
  unfold comma_free. cbn [list_ascii_of_string In]. intros H. split.
  - destruct (Ascii.eqb_spec c ","); [|reflexivity]. subst. tauto.
  - tauto.
Qed.

Lemma Split_comma_free (s : string) : comma_free s → Split_comma s = [s].
Proof.
  induction s as [|c s IH]; intros H; [reflexivity|].
  apply comma_free_cons in H as [Hc Hs]. cbn [Split_comma].
  rewrite Hc, (IH Hs). reflexivity.
Qed.

Lemma Split_comma_app (a b : string) :
  comma_free a → Split_comma (a ++ String "," b) = a :: Split_comma b.
Proof.
  induction a as [|c a IH]; intros H; [reflexivity|].
  apply comma_free_cons in H as [Hc Ha].
  change (String c a ++ String "," b)%string
    with (String c (a ++ String "," b)).
  cbn [Split_comma]. rewrite Hc, (IH Ha). reflexivity.
Qed.

(** What a field tag means.  The text before the first comma is the name
    on the wire, the name of the field when that text is empty; the field
    is "omitempty" exactly when the text between the first comma and the
    second (or the end) is that very word: an option in third place is not
    looked at. *)
Theorem parseMsgpackTag_spec (field : StructField) (name opt : string)
    (more : option string) :
  comma_free name →
  comma_free opt →
  (Tag field = name →
   parseMsgpackTag field
   = (if String.eqb name "" then Name field else name, false)) ∧
  (Tag field
   = (name ++ String "," (opt ++ match more with
                                 | Some t => String "," t
                                 | None => ""
                                 end))%string →
   parseMsgpackTag field
   = (if String.eqb name "" then Name field else name,
      String.eqb opt "omitempty")).
Proof.
  intros Hname Hopt. unfold parseMsgpackTag. split; intros ->.
  - destruct (String.eqb_spec name "") as [->|Hne]; [reflexivity|].
    cbv zeta. rewrite (Split_comma_free name Hname).
    destruct (String.eqb_spec name ""); [contradiction|]. reflexivity.
  - assert (String.eqb (name ++ String "," (opt ++ match more with
                                                   | Some t => String "," t
                                                   | None => ""
                                                   end))%string "" = false)
      as -> by (destruct name; reflexivity).
    cbv zeta. rewrite (Split_comma_app name _ Hname).
    assert (∃ tail, Split_comma (opt ++ match more with
                                        | Some t => String "," t
                                        | None => ""
                                        end)%string = opt :: tail)
      as (tail & ->).
    { destruct more as [t|].
      - exists (Split_comma t). apply Split_comma_app, Hopt.
      - exists []. replace (opt ++ "")%string with opt.
        + apply Split_comma_free, Hopt.
        + clear. induction opt as [|c o IH]; [reflexivity|].
          change (String c o ++ "")%string with (String c (o ++ "")).
          rewrite <- IH. reflexivity. }
    destruct (String.eqb name ""); reflexivity.
Qed.

Lemma parseMsgpackTag_spec_witness :
  parseMsgpackTag (mkField "Age" "" "age,omitempty,string" (TInt W8))
  = (if String.eqb "age" "" then "Age" else "age",
     String.eqb "omitempty" "omitempty").
Proof.
  destruct (parseMsgpackTag_spec
              (mkField "Age" "" "age,omitempty,string" (TInt W8))
              "age" "omitempty" (Some "string")) as [_ H].
  - unfold comma_free. cbn. intros H.
    repeat (destruct H as [H|H]; [discriminate H|]). exact H.
  - unfold comma_free. cbn. intros H.
    repeat (destruct H as [H|H]; [discriminate H|]). exact H.
  - apply H. reflexivity.
Defined.

(** ** Extensions *)

(** The frame [EncodeExt] writes, in one piece: header, type byte,
    payload. *)
Lemma EncodeExt_wire (typ : Z) (written : list Z) (e : Encoder) :
  let scratch := pool_get (epool e) in
  let payload := buf_bytes scratch.2 scratch.1 ++ written in
  len payload <= 2 ^ 32 - 1 →
  ∃ e', EncodeExt typ (written, None) e = (Ok tt, e')
        ∧ dst e' = dst e ++ ext_header (len payload) ++ uint8 typ :: payload.
Proof.
  intros scratch payload Hfit.
  set (L := len payload) in *.
  assert (0 <= L) as HL0 by (unfold L, len; lia).
  destruct scratch as [h p] eqn:Hs. cbn [fst snd] in payload.
  set (e1 := mkEncoder (dst e) (buf_write h written p)).
  assert (buf_bytes (epool e1) h = payload) as Hpay by apply buf_bytes_write.
  assert (dst e1 = dst e) as Hdst by reflexivity.
  unfold EncodeExt, bind at 1, bufferpool.Get.
  cbn [the_pool Encoder_pool]. fold scratch. rewrite Hs.
  unfold defer. unfold bind at 1. unfold buf_Write at 1.
  cbn [fst snd the_pool with_pool Encoder_pool dst epool].
  unfold bind at 1. cbn [fst snd Wrapf Wrap return_with ret].
  unfold bind at 1. unfold buf_Len at 1.
  cbn [the_pool with_pool Encoder_pool dst epool].
  rewrite buf_bytes_write. fold payload. fold L. fold e1.
  rewrite <- Hpay, <- Hdst. unfold uint8 at 2, to_uint.
  apply (EncodeExt_tail typ h (ext_header L)).
  unfold ext_header, MaxUint8, MaxUint16, MaxUint32 in *.
  destruct (Z.eqb_spec L 1); [reflexivity|].
  destruct (Z.eqb_spec L 2); [reflexivity|].
  destruct (Z.eqb_spec L 4); [reflexivity|].
  destruct (Z.eqb_spec L 8); [reflexivity|].
  destruct (Z.eqb_spec L 16); [reflexivity|].
  unfold bind, wrap, Writer.WriteByte, Writer.WriteUint16, Writer.WriteUint32,
    uint8, uint16, uint32, to_uint.
  destruct (Z.leb_spec L (2 ^ 8 - 1));
    [|destruct (Z.leb_spec L (2 ^ 16 - 1));
      [|destruct (Z.leb_spec L (2 ^ 32 - 1)); [|lia]]];
    rewrite !Write_emit, emit_emit; cbn [app].
  - rewrite big_endian_1, Z.mod_small by lia.
    rewrite Z.mod_small by lia. reflexivity.
  - rewrite (big_endian_mod 2 2) by lia. reflexivity.
  - rewrite (big_endian_mod 4 4) by lia. reflexivity.
Qed.

(** A value whose type is registered as an extension goes to [EncodeExt]
    with the type's code and what the type's own encoder wrote. *)
Lemma Encode_registered (env : Env) (name : string)
    (fields : list StructField) (vals : list Value) (typ : Z)
    (method : Value → list Z * option error) (e : Encoder) :
  extEncodeRegistry env (TStruct name fields) = Some typ →
  EncodeMsgpackExt env (TStruct name fields) = Some method →
  Encode env (VStruct name fields vals) e
  = EncodeExt typ (method (VStruct name fields vals)) e.
Proof.
  intros Hreg Hm. unfold Encode, Encode_, indirect. cbn [reflect.TypeOf].
  unfold isExtType. rewrite Hreg, Hm. reflexivity.
Qed.

Lemma Decode_no_decoder (env : Env) (T : GoType) (code : Z) (rest : list Z)
    (last : option Z) (pool : Pool) :
  DecodeMsgpack env (TPtr T) = None →
  decoders !! code = None →
  Decode env (Pointer T) (reading (code :: rest) last pool)
  = (Fail (Wrapped "msgpack: failed to lookup decoder for code %s"
             (Errorf "msgpack: decoder for %s not found")),
     reading rest (Some code) pool).
Proof.
  intros Hself Hnone. unfold reading. rewrite Decode_unfold by exact Hself.
  unfold bind at 1, select_decoder.
  destruct (Code.IsMapFamily code) eqn:Hmap.
  - rewrite (map_codes code Hmap) in Hnone. discriminate Hnone.
  - cbn [andb]. unfold wrap, lookupDecoder. rewrite Hnone. reflexivity.
Qed.

(** Six of the eight extension formats are written and never read.  Let
    the payload be what the scratch buffer holds once the encoder of a
    registered type has returned: the bytes it wrote, after whatever the
    buffer held when the pool handed it out (nothing, when it was empty).
    When the payload has 1, 2, 4 or 16 bytes, or more than 255, [Encode]
    succeeds, in every state of the encoder, with a frame whose tag is
    FixExt1 (d4), FixExt2 (d5), FixExt4 (d6), FixExt16 (d8), Ext16 (c8) or
    Ext32 (c9) by that length; [Decode] of that frame, whatever is
    registered for decoding and whatever the variable, fails at the lookup
    of the decoder, the tag being the only byte read. *)
Theorem ext_frame_without_decoder (env : Env) (name : string)
    (fields : list StructField) (vals : list Value) (typ : Z)
    (method : Value → list Z * option error) (written : list Z)
    (e : Encoder) (T : GoType) (rest : list Z) (last : option Z)
    (pool : Pool) :
  let scratch := pool_get (epool e) in
  let payload := buf_bytes scratch.2 scratch.1 ++ written in
  let L := len payload in
  extEncodeRegistry env (TStruct name fields) = Some typ →
  EncodeMsgpackExt env (TStruct name fields) = Some method →
  method (VStruct name fields vals) = (written, None) →
  L ∈ [1; 2; 4; 16] ∨ 255 < L <= 2 ^ 32 - 1 →
  DecodeMsgpack env (TPtr T) = None →
  ∃ e' tag tail d',
    Encode env (VStruct name fields vals) e = (Ok tt, e')
    ∧ dst e' = dst e ++ tag :: tail
    ∧ tag = (if L =? 1 then 0xd4 else if L =? 2 then 0xd5
             else if L =? 4 then 0xd6 else if L =? 16 then 0xd8
             else if L <=? 65535 then 0xc8 else 0xc9)
    ∧ tail ++ rest
      = (if L <=? 255 then [] else if L <=? 65535 then big_endian 2 L
         else big_endian 4 L) ++ typ mod 2 ^ 8 :: payload ++ rest
    ∧ Decode env (Pointer T) (reading (tag :: tail ++ rest) last pool)
      = (Fail (Wrapped "msgpack: failed to lookup decoder for code %s"
                 (Errorf "msgpack: decoder for %s not found")), d')
    ∧ unread (r d') = tail ++ rest.
Proof.
  intros scratch payload L Hreg Hm Hrun HL Hself.
  rewrite (Encode_registered env name fields vals typ method) by assumption.
  rewrite Hrun.
  destruct (EncodeExt_wire typ written e) as (e' & Henc & Hdst).
  { fold scratch. fold payload. fold L.
    rewrite !elem_of_cons, elem_of_nil in HL. lia. }
  fold scratch in Hdst. fold payload in Hdst. fold L in Hdst.
  unfold uint8, to_uint in Hdst.
  assert (0 <= L) as HL0 by (unfold L, len; lia).
  set (tag := if L =? 1 then 0xd4 else if L =? 2 then 0xd5
              else if L =? 4 then 0xd6 else if L =? 16 then 0xd8
              else if L <=? 65535 then 0xc8 else 0xc9).
  set (lenf := if L <=? 255 then [] else if L <=? 65535 then big_endian 2 L
               else big_endian 4 L).
  assert (ext_header L = tag :: lenf ∧ decoders !! tag = None)
    as [Hhdr Hnone].
  { unfold ext_header, MaxUint8, MaxUint16, tag, lenf.
    rewrite !elem_of_cons, elem_of_nil in HL.
    destruct (Z.eqb_spec L 1) as [->|];
      [split; [reflexivity|vm_compute; reflexivity]|].
    destruct (Z.eqb_spec L 2) as [->|];
      [split; [reflexivity|vm_compute; reflexivity]|].
    destruct (Z.eqb_spec L 4) as [->|];
      [split; [reflexivity|vm_compute; reflexivity]|].
    destruct (Z.eqb_spec L 8); [lia|].
    destruct (Z.eqb_spec L 16) as [->|];
      [split; [reflexivity|vm_compute; reflexivity]|].
    change (2 ^ 8 - 1) with 255. change (2 ^ 16 - 1) with 65535.
    destruct (Z.leb_spec L 255); [lia|].
    destruct (Z.leb_spec L 65535);
      (split; [reflexivity|vm_compute; reflexivity]). }
  rewrite Hhdr in Hdst. cbn [app] in Hdst.
  exists e', tag, (lenf ++ typ mod 2 ^ 8 :: payload),
    (reading ((lenf ++ typ mod 2 ^ 8 :: payload) ++ rest) (Some tag) pool).
  split; [exact Henc|]. split; [exact Hdst|]. split; [reflexivity|].
  split; [rewrite <- app_assoc; reflexivity|].
  rewrite Decode_no_decoder by assumption. split; reflexivity.
Qed.

Lemma ext_frame_without_decoder_witness :
  ∃ e' tag tail d',
    Encode with_Stamp (VStruct "Stamp" Stamp_fields [VBytes [0xaa; 0xbb]])
      NewEncoder = (Ok tt, e')
    ∧ dst e' = [] ++ tag :: tail
    ∧ tag = 0xd5
    ∧ tail ++ [0xc0] = [] ++ 5 mod 2 ^ 8 :: ([] ++ [0xaa; 0xbb]) ++ [0xc0]
    ∧ Decode with_Stamp (Pointer TInterface)
        (reading (tag :: tail ++ [0xc0]) None empty_pool)
      = (Fail (Wrapped "msgpack: failed to lookup decoder for code %s"
                 (Errorf "msgpack: decoder for %s not found")), d')
    ∧ unread (r d') = tail ++ [0xc0].
Proof.
  apply (ext_frame_without_decoder with_Stamp "Stamp" Stamp_fields
           [VBytes [0xaa; 0xbb]] 5 Stamp_EncodeMsgpackExt [0xaa; 0xbb]
           NewEncoder TInterface [0xc0] None empty_pool).
  - reflexivity.
  - reflexivity.
  - reflexivity.
  - left. cbn [fst snd app]. change (len [0xaa; 0xbb]) with 2.
    rewrite !elem_of_cons. auto.
  - reflexivity.
Defined.

(** For FixExt8, as for Ext8, the decoder does what is expected of it: the
    type byte is read and the user decoder of the registered type gets the
    next eight bytes and no more. *)
Lemma Decode_FixExt8_bounded (env : Env) (typ : Z) (rest : list Z)
    (T : GoType) (method : list Z → nat * (Value + error)) (n : nat)
    (v : Value) (last : option Z) (pool : Pool) :
  DecodeMsgpack env (TPtr TInterface) = None →
  extDecodeRegistry env !! typ = Some T →
  type_eqb T TInterface = false →
  DecodeMsgpackExt env (TPtr T) = Some method →
  method (take 8 rest) = (n, inl v) →
  ∃ d', Decode env (Pointer TInterface)
          (mkDecoder (mkReader (0xd7 :: typ :: rest) last) pool)
        = (Ok (VPtr T v), d')
        ∧ unread (r d') = drop (n `min` List.length (take 8 rest)) rest.
Proof.
  intros Hself Hreg HT Hmeth Hrun.
  rewrite Decode_unfold by exact Hself.
  unfold bind at 1, select_decoder, wrap at 1, lookupDecoder.
  replace (decoders !! 215) with (Some (extDecoder Code.FixExt8))
    by (vm_compute; reflexivity).
  change (Code.IsMapFamily 215) with false. cbn [andb ret].
  unfold bind at 1, wrap at 1. cbn [valueDecoder_Decode].
  unfold extDecoder_Decode. cbv zeta.
  change (Code.FixExt8 =? Code.Ext8) with false. cbv iota.
  change (0 <? 0) with false. cbv iota beta.
  change (Code.FixExt8 =? Code.FixExt8) with true. cbv iota.
  unfold bind at 1. cbn [ret].
  unfold bind at 1, catch at 1. rewrite ReadByte_cons.
  cbn [default from_option id]. unfold id. rewrite Hreg, Hmeth.
  unfold io.LimitReader. cbn [unread r].
  change (Z.to_nat 8) with 8%nat. rewrite Hrun.
  unfold bind at 1, bufio.Read. cbn [unread r fst snd with_reader dpool ret].
  unfold assign_decoded. cbn [reflect.IsValid type_eqb].
  unfold Value_Set. cbn [reflect.TypeOf assignable type_eqb orb reflect.KindOf
    reflect.Kind_eqb ret].
  rewrite HT. eexists. split; reflexivity.
Qed.

(** Extensions that do come back.  Let the payload be what the scratch
    buffer holds once the encoder of a registered type has returned: the
    bytes it wrote, after whatever the buffer held when the pool handed it
    out (nothing, when it was empty).  When the payload has eight bytes, or
    at most 255 but not 1, 2, 4 or 16, and the type is registered for
    decoding under the same code, then in every state of the encoder
    [Encode] writes a frame from which the decoder of the type is handed
    exactly that payload, [Decode] into an empty interface yields a pointer
    to what it made of it, and the bytes of the payload that the type's
    decoder did not read stay in the stream. *)
Theorem roundtrip_ext (env : Env) (name : string)
    (fields : list StructField) (vals : list Value) (typ : Z)
    (encode : Value → list Z * option error) (written : list Z)
    (decode : list Z → nat * (Value + error)) (n : nat) (v' : Value)
    (e : Encoder) (rest : list Z) (last : option Z) (pool : Pool) :
  let scratch := pool_get (epool e) in
  let payload := buf_bytes scratch.2 scratch.1 ++ written in
  extEncodeRegistry env (TStruct name fields) = Some typ →
  EncodeMsgpackExt env (TStruct name fields) = Some encode →
  encode (VStruct name fields vals) = (written, None) →
  len payload = 8 ∨ (len payload <= 255 ∧ len payload ∉ [1; 2; 4; 16]) →
  0 <= typ < 256 →
  extDecodeRegistry env !! typ = Some (TStruct name fields) →
  DecodeMsgpackExt env (TPtr (TStruct name fields)) = Some decode →
  decode payload = (n, inl v') →
  DecodeMsgpack env (TPtr TInterface) = None →
  ∃ e' frame d',
    Encode env (VStruct name fields vals) e = (Ok tt, e')
    ∧ dst e' = dst e ++ frame
    ∧ frame = (if len payload =? 8 then [0xd7] else [0xc7; len payload])
              ++ typ :: payload
    ∧ Decode env (Pointer TInterface) (reading (frame ++ rest) last pool)
      = (Ok (VPtr (TStruct name fields) v'), d')
    ∧ unread (r d') = drop n payload ++ rest.
Proof.
  intros scratch payload Hreg Hm Hrun HL Htyp Hdreg Hdm Hdec Hself.
  assert (0 <= len payload) as Hnn by (unfold len; lia).
  rewrite (Encode_registered env name fields vals typ encode) by assumption.
  rewrite Hrun.
  destruct (EncodeExt_wire typ written e) as (e' & Henc & Hdst).
  { fold scratch. fold payload. lia. }
  fold scratch in Hdst. fold payload in Hdst.
  unfold uint8, to_uint in Hdst.
  rewrite Z.mod_small in Hdst by lia.
  exists e'.
  assert (drop (n `min` List.length payload) (payload ++ rest)
          = drop n payload ++ rest) as Hdrop.
  { destruct (Nat.le_gt_cases n (List.length payload)).
    - rewrite Nat.min_l by lia. rewrite drop_app_le by lia. reflexivity.
    - rewrite Nat.min_r by lia. rewrite drop_app_length.
      rewrite drop_ge by lia. reflexivity. }
  destruct (Z.eqb_spec (len payload) 8) as [H8|Hne8].
  - assert (take 8 (payload ++ rest) = payload) as Htake.
    { replace 8%nat with (List.length payload) by (unfold len in H8; lia).
      apply take_app_length. }
    destruct (Decode_FixExt8_bounded env typ (payload ++ rest)
                (TStruct name fields) decode n v' last pool Hself Hdreg
                eq_refl Hdm) as (d' & Hrun' & Hrest).
    { rewrite Htake. exact Hdec. }
    exists ([0xd7] ++ typ :: payload), d'. split; [exact Henc|].
    unfold ext_header in Hdst. rewrite H8 in Hdst.
    change (8 =? 1) with false in Hdst. change (8 =? 2) with false in Hdst.
    change (8 =? 4) with false in Hdst. change (8 =? 8) with true in Hdst.
    cbv iota in Hdst.
    split; [exact Hdst|]. split; [reflexivity|].
    cbn [app]. unfold reading. rewrite Hrun'.
    split; [reflexivity|]. rewrite Hrest, Htake. exact Hdrop.
  - destruct HL as [?|[Hle Hnot]]; [contradiction|].
    rewrite !elem_of_cons, elem_of_nil in Hnot.
    assert (take (Z.to_nat (len payload)) (payload ++ rest) = payload)
      as Htake.
    { replace (Z.to_nat (len payload)) with (List.length payload)
        by (unfold len; lia).
      apply take_app_length. }
    destruct (Decode_Ext8_bounded env (len payload) typ (payload ++ rest)
                (TStruct name fields) decode n v' last pool Hself Hdreg
                eq_refl Hdm) as (d' & Hrun' & Hrest).
    { rewrite Htake. exact Hdec. }
    exists ([0xc7; len payload] ++ typ :: payload), d'.
    split; [exact Henc|].
    unfold ext_header, MaxUint8 in Hdst.
    destruct (Z.eqb_spec (len payload) 1); [tauto|].
    destruct (Z.eqb_spec (len payload) 2); [tauto|].
    destruct (Z.eqb_spec (len payload) 4); [tauto|].
    destruct (Z.eqb_spec (len payload) 8); [contradiction|].
    destruct (Z.eqb_spec (len payload) 16); [tauto|].
    destruct (Z.leb_spec (len payload) (2 ^ 8 - 1)); [|lia].
    rewrite big_endian_1, Z.mod_small in Hdst by lia.
    split; [exact Hdst|]. split; [reflexivity|].
    cbn [app]. unfold reading. rewrite Hrun'.
    split; [reflexivity|]. rewrite Hrest, Htake. exact Hdrop.
Qed.

Lemma roundtrip_ext_witness :
  ∃ e' frame d',
    Encode with_Stamp
      (VStruct "Stamp" Stamp_fields [VBytes [1; 2; 3]]) NewEncoder
      = (Ok tt, e')
    ∧ dst e' = [] ++ frame
    ∧ frame = [0xc7; 3] ++ 5 :: [1; 2; 3]
    ∧ Decode with_Stamp (Pointer TInterface)
        (reading (frame ++ [0xc0]) None empty_pool)
      = (Ok (VPtr (TStruct "Stamp" Stamp_fields)
               (VStruct "Stamp" Stamp_fields [VBytes [1; 2; 3]])), d')
    ∧ unread (r d') = drop 3 [1; 2; 3] ++ [0xc0].
Proof.
  apply (roundtrip_ext with_Stamp "Stamp" Stamp_fields [VBytes [1; 2; 3]] 5
           Stamp_EncodeMsgpackExt [1; 2; 3] Stamp_DecodeMsgpackExt 3
           (VStruct "Stamp" Stamp_fields [VBytes [1; 2; 3]])
           NewEncoder [0xc0] None empty_pool).
  - reflexivity.
  - reflexivity.
  - reflexivity.
  - right. split; [vm_compute; discriminate|].
    rewrite !elem_of_cons, elem_of_nil. intros H. vm_compute in H.
    repeat (destruct H as [H|H]; [discriminate H|]). exact H.
  - lia.
  - reflexivity.
  - reflexivity.
  - reflexivity.
  - reflexivity.
Defined.

(** An extension of a type that is not registered is no error.  On an Ext8
    or FixExt8 frame whose type byte names no registered type, [Decode]
    returns without error once the type byte is read: the variable,
    whatever its type, is reset to its zero value, and the payload is left
    in the stream. *)
Theorem Decode_unregistered_ext (env : Env) (T : GoType) (L typ : Z)
    (rest : list Z) (last : option Z) (pool : Pool) :
  DecodeMsgpack env (TPtr T) = None →
  extDecodeRegistry env !! typ = None →
  Decode env (Pointer T) (reading (0xc7 :: L :: typ :: rest) last pool)
    = (Ok (reflect.Zero T), reading rest (Some typ) pool) ∧
  Decode env (Pointer T) (reading (0xd7 :: typ :: rest) last pool)
    = (Ok (reflect.Zero T), reading rest (Some typ) pool).
Proof.
  intros Hself Hreg. split.
  - rewrite (Decode_leaf env T 0xc7 (extDecoder Code.Ext8));
      [|assumption|reflexivity|vm_compute; reflexivity].
    unfold bind at 1, wrap at 1. cbn [valueDecoder_Decode].
    unfold extDecoder_Decode. cbv zeta.
    change (Code.Ext8 =? Code.Ext8) with true. cbv iota.
    change (0 <? 1) with true. cbv iota beta.
    unfold bind at 1, wrap at 1. unfold reading. rewrite ReadUint8_cons.
    unfold bind at 1, catch at 1. rewrite ReadByte_cons.
    cbn [default from_option id]. unfold id. rewrite Hreg. reflexivity.
  - rewrite (Decode_leaf env T 0xd7 (extDecoder Code.FixExt8));
      [|assumption|reflexivity|vm_compute; reflexivity].
    unfold bind at 1, wrap at 1. cbn [valueDecoder_Decode].
    unfold extDecoder_Decode. cbv zeta.
    change (Code.FixExt8 =? Code.Ext8) with false. cbv iota.
    change (0 <? 0) with false. cbv iota beta.
    change (Code.FixExt8 =? Code.FixExt8) with true. cbv iota.
    unfold bind at 1. cbn [ret].
    unfold bind at 1, catch at 1. unfold reading. rewrite ReadByte_cons.
    cbn [default from_option id]. unfold id. rewrite Hreg. reflexivity.
Qed.

Lemma Decode_unregistered_ext_witness :
  Decode with_Stamp (Pointer (TUint W8))
    (reading (0xc7 :: 2 :: 9 :: [0xaa; 0xbb]) None empty_pool)
    = (Ok (reflect.Zero (TUint W8)), reading [0xaa; 0xbb] (Some 9) empty_pool) ∧
  Decode with_Stamp (Pointer (TUint W8))
    (reading (0xd7 :: 9 :: [0xaa; 0xbb]) None empty_pool)
    = (Ok (reflect.Zero (TUint W8)), reading [0xaa; 0xbb] (Some 9) empty_pool).
Proof.
  apply (Decode_unregistered_ext with_Stamp (TUint W8) 2 9 [0xaa; 0xbb]
           None empty_pool).
  - reflexivity.
  - reflexivity.
Defined.

(** ** Maps *)

Lemma map_assign_fresh (key : string) (value : Value)
    (m : list (Value * Value)) :
  Forall (λ kx : Value * Value, as_string kx.1 ≠ key) m →
  map_assign key value m = m ++ [(VString key, value)].
Proof.
  induction 1 as [|[k x] m Hk _ IH]; [reflexivity|].
  cbn [map_assign app]. cbn [fst] in Hk.
  destruct (String.eqb_spec (as_string k) key); [contradiction|].
  rewrite IH. reflexivity.
Qed.

Lemma foldl_map_assign_fresh (kvs : list (string * (width * Z))) :
  NoDup kvs.*1 →
  ∀ acc : list (Value * Value),
    Forall (λ kx : Value * Value, as_string kx.1 ∉ kvs.*1) acc →
    foldl (λ m kv, map_assign kv.1 (uint_value kv.2) m) acc kvs
    = acc ++ (pair_value <$> kvs).
Proof.
  induction kvs as [|[key x] kvs IH]; intros Hnd acc Hacc.
  - cbn. rewrite app_nil_r. reflexivity.
  - cbn [fmap list_fmap fst] in Hnd. apply NoDup_cons in Hnd as [Hkey Hnd].
    cbn [foldl fst snd].
    rewrite map_assign_fresh.
    + rewrite (IH Hnd).
      * rewrite <- app_assoc. reflexivity.
      * apply Forall_app. split.
        -- eapply Forall_impl; [exact Hacc|]. intros [k v] Hk.
           cbn [fst fmap list_fmap] in *.
           intros Hin. apply Hk. right. exact Hin.
        -- constructor; [exact Hkey|constructor].
    + eapply Forall_impl; [exact Hacc|]. intros [k v] Hk.
      cbn [fst fmap list_fmap] in *.
      intros Heq. apply Hk. rewrite Heq. left.
Qed.

Lemma map_loop_pairs (env : Env) (fuel0 : nat)
    (kvs : list (string * (width * Z))) :
  DecodeMsgpack env (TPtr TString) = None →
  DecodeMsgpack env (TPtr TInterface) = None →
  Forall pair_fits kvs →
  ∀ (fuel : nat) (i : Z) (acc : list (Value * Value)) (rest : list Z)
    (last : option Z) (pool : Pool),
    (List.length kvs <= fuel)%nat →
    ∃ d',
      map_loop (Decode_ env (S fuel0)) fuel i (i + len kvs) acc
        (reading (List.concat (pair_frame <$> kvs) ++ rest) last pool)
      = (Ok (foldl (λ m kv, map_assign kv.1 (uint_value kv.2) m) acc kvs), d')
      ∧ unread (r d') = rest.
Proof.
  intros HselfS HselfI Hall. induction Hall as [|[key x] kvs [Hk Hx] Hall IH];
    intros fuel i acc rest last pool Hfuel.
  - exists (reading rest last pool).
    change (len (@nil (string * (width * Z)))) with 0. rewrite Z.add_0_r.
    destruct fuel; cbn [map_loop]; rewrite Z.ltb_irrefl; split; reflexivity.
  - destruct fuel as [|fuel]; [cbn in Hfuel; lia|].
    cbn [map_loop].
    assert (len ((key, x) :: kvs) = 1 + len kvs) as Hlen
      by (unfold len; cbn; lia).
    assert (0 <= len kvs) as Hnn by (unfold len; lia).
    destruct (Z.ltb_spec i (i + len ((key, x) :: kvs))); [|lia].
    cbn [fmap list_fmap List.concat]. unfold pair_frame at 1.
    cbn [fst snd] in *. rewrite <- !app_assoc. cbn [app].
    destruct (Decode_fuel_fixstr env key
                (uint_frame x ++ List.concat (pair_frame <$> kvs) ++ rest)
                last pool fuel0 HselfS Hk) as (d1 & Hkey & Hrest1).
    unfold bind at 1, wrap at 1.
    change (list_fmap _ _ pair_frame kvs) with (pair_frame <$> kvs).
    rewrite Hkey.
    destruct d1 as [[u1 l1] p1]. cbn [r unread] in Hrest1. subst u1.
    unfold bind at 1, wrap at 1.
    change (mkDecoder (mkReader ?u l1) p1) with (reading u l1 p1).
    rewrite Decode_fuel_uint by assumption.
    destruct (IH fuel (i + 1) (map_assign key (uint_value x) acc) rest
                (list.last (big_endian (octets x.1) x.2)) p1)
      as (d' & Hrun & Hrest); [cbn in Hfuel; lia|].
    exists d'. cbn [as_string foldl fst snd].
    replace (i + len ((key, x) :: kvs)) with (i + 1 + len kvs) by lia.
    rewrite Hrun. split; [reflexivity|exact Hrest].
Qed.

Lemma forM_pairs (env : Env) (kvs : list (string * (width * Z)))
    (e : Encoder) :
  Forall pair_fits kvs →
  forM_ (encodeMapPair (Encode env)) (pair_value <$> kvs) e
  = (Ok tt, emit (List.concat (pair_frame <$> kvs)) e).
Proof.
  intros Hall. revert e.
  induction Hall as [|[key x] kvs [Hk Hx] Hall IH]; intros e.
  - cbn. unfold emit. rewrite app_nil_r. destruct e; reflexivity.
  - cbn [fmap list_fmap forM_ List.concat]. unfold bind at 1.
    unfold encodeMapPair at 1, pair_value at 1. cbn [fst snd] in *.
    unfold bind at 1, wrap at 1.
    pose proof (EncodeString_short env key e Hk) as Hs.
    change (Encode env (VString key) e) with (EncodeString key e) in Hs.
    rewrite Hs. unfold pair_value, uint_value. cbn [fst snd].
    unfold wrap at 1. rewrite Encode_uint.
    change (list_fmap _ _ (λ kv, (VString kv.1, VUint kv.2.1 kv.2.2)) kvs)
      with (pair_value <$> kvs).
    rewrite IH, !emit_emit. unfold pair_frame, uint_frame.
    cbn [fst snd]. rewrite <- ?app_assoc. reflexivity.
Qed.

(** A map whose type has no encoder of its own goes to [EncodeMap]. *)
Lemma Encode_map (env : Env) (key elem : GoType) (m : list (Value * Value))
    (e : Encoder) :
  isExtType env (TMap key elem) = None →
  EncodeMsgpack env (TMap key elem) = None →
  Encode env (VMap key elem m) e = EncodeMap env (VMap key elem m) e.
Proof.
  intros Hext Henc. unfold Encode, EncodeMap, Encode_, indirect.
  cbn [reflect.TypeOf]. rewrite Hext. unfold isEncodeMsgpacker. rewrite Henc.
  reflexivity.
Qed.

Lemma fixmap_codes (n : Z) :
  0 <= n < 16 →
  Code.IsMapFamily (0x80 + n) = true
  ∧ map_size (0x80 + n) = ret n
  ∧ Z.lor Code.FixMap0 (uint8 n) = 0x80 + n.
Proof.
  intros Hn.
  assert (n ∈ seqZ 0 16) as Hin by (apply elem_of_seqZ; lia).
  revert Hin. generalize n. apply Forall_forall.
  vm_compute. repeat constructor.
Qed.

(** Small maps of unsigned integers.  [Encode] of a
    [map[string]interface{}] of fewer than 16 entries, the keys shorter
    than 32 bytes and the values unsigned integers of declared widths,
    writes the FixMap tag that carries the count and then, pair by pair,
    the frame of the key and the frame of the value; [Decode] of these
    bytes into an empty interface or a [map[string]interface{}] gives the
    same pairs back and stops at the end of the last frame. *)
Theorem roundtrip_map_of_uints (env : Env)
    (kvs : list (string * (width * Z))) (T : GoType)
    (rest : list Z) (last : option Z) (pool : Pool) :
  Forall pair_fits kvs →
  NoDup kvs.*1 →
  len kvs < 16 →
  T = TMap TString TInterface ∨ T = TInterface →
  isExtType env (TMap TString TInterface) = None →
  EncodeMsgpack env (TMap TString TInterface) = None →
  DecodeMsgpack env (TPtr T) = None →
  DecodeMsgpack env (TPtr TString) = None →
  DecodeMsgpack env (TPtr TInterface) = None →
  ∃ wire d',
    Encode env (VMap TString TInterface (pair_value <$> kvs)) NewEncoder
      = (Ok tt, mkEncoder wire empty_pool) ∧
    wire = (0x80 + len kvs) :: List.concat (pair_frame <$> kvs) ∧
    Decode env (Pointer T) (reading (wire ++ rest) last pool)
      = (Ok (VMap TString TInterface (pair_value <$> kvs)), d') ∧
    unread (r d') = rest.
Proof.
  intros Hall Hnd Hn HT Hext Henc Hself HselfS HselfI.
  assert (0 <= len kvs) as Hnn by (unfold len; lia).
  destruct (fixmap_codes (len kvs)) as (Hmap & Hsize & Hlor); [lia|].
  pose proof (map_codes _ Hmap) as Hdec.
  exists ((0x80 + len kvs) :: List.concat (pair_frame <$> kvs)).
  assert (∃ d',
    Decode env (Pointer T)
      (reading (((0x80 + len kvs) :: List.concat (pair_frame <$> kvs)) ++ rest)
               last pool)
    = (Ok (VMap TString TInterface (pair_value <$> kvs)), d')
    ∧ unread (r d') = rest) as (d' & Hrun & Hrest).
  { cbn [app]. unfold reading. rewrite Decode_unfold by exact Hself.
    unfold bind at 1, select_decoder. rewrite Hmap.
    assert (reflect.Kind_eqb (reflect.KindOf T) reflect.Struct = false) as ->
      by (destruct HT as [-> | ->]; reflexivity).
    cbn [andb]. unfold wrap at 1, lookupDecoder. rewrite Hdec. cbn [ret].
    unfold bind at 1, wrap at 1. cbn [valueDecoder_Decode].
    unfold mapDecoder_Decode. rewrite Hsize. unfold bind at 1. cbn [ret].
    destruct (map_loop_pairs env
                (List.length (List.concat (pair_frame <$> kvs) ++ rest)) kvs
                HselfS HselfI Hall
                (S (List.length (List.concat (pair_frame <$> kvs) ++ rest)))
                0 [] rest (Some (0x80 + len kvs)) pool) as (d' & Hloop & Hrest).
    { rewrite length_app. clear. induction kvs as [|x xs IH]; cbn; [lia|].
      rewrite length_app in *. cbn. lia. }
    exists d'. rewrite Z.add_0_l in Hloop.
    unfold bind at 1. unfold reading in Hloop. rewrite Hloop. cbn [ret].
    rewrite (foldl_map_assign_fresh kvs Hnd []) by constructor.
    cbn [app]. split; [|exact Hrest].
    destruct HT as [-> | ->]; reflexivity. }
  exists d'.
  split; [|split; [reflexivity|split; [exact Hrun|exact Hrest]]].
  rewrite Encode_map by assumption. unfold EncodeMap, EncodeMap_.
  cbn [reflect.KindOf reflect.Kind_eqb negb].
  change (has_fast_path reflect.Interface) with false. cbv iota.
  unfold bind at 1, unchecked at 1, Writer.WriteMapHeader.
  assert (len (pair_value <$> kvs) = len kvs) as ->
    by (unfold len; rewrite length_fmap; reflexivity).
  destruct (Z.ltb_spec (len kvs) 16); [|lia].
  unfold Writer.WriteByte. rewrite Write_emit, Hlor.
  rewrite forM_pairs by exact Hall. rewrite emit_emit. reflexivity.
Qed.

Lemma roundtrip_map_of_uints_witness :
  ∃ wire d',
    Encode no_user_types
      (VMap TString TInterface
         (pair_value <$> [("a", (W8, 1)); ("b", (W16, 300))])) NewEncoder
      = (Ok tt, mkEncoder wire empty_pool) ∧
    wire = (0x80 + len [("a", (W8, 1)); ("b", (W16, 300))])
           :: List.concat (pair_frame <$> [("a", (W8, 1)); ("b", (W16, 300))]) ∧
    Decode no_user_types (Pointer TInterface)
      (reading (wire ++ [0xc0]) None empty_pool)
      = (Ok (VMap TString TInterface
               (pair_value <$> [("a", (W8, 1)); ("b", (W16, 300))])), d') ∧
    unread (r d') = [0xc0].
Proof.
  apply (roundtrip_map_of_uints no_user_types
           [("a", (W8, 1)); ("b", (W16, 300))] TInterface [0xc0] None
           empty_pool).
  - repeat constructor; cbn; try discriminate; lia.
  - cbn. repeat constructor; rewrite ?elem_of_cons, ?elem_of_nil;
      intros H; repeat (destruct H as [H|H]; try discriminate H); exact H.
  - vm_compute. reflexivity.
  - right; reflexivity.
  - reflexivity.
  - reflexivity.
  - reflexivity.
  - reflexivity.
  - reflexivity.
Defined.

(** ** The typed entry points and the encoder façade *)

(** The typed entry points convert nothing and check nothing beyond
    [Decode].  On the frame of an unsigned integer, the entry point of the
    very width of the frame returns the integer; that of any other width
    panics in [reflect.Set], a wider one included; and [DecodeNil], which
    decodes into an empty interface, takes the integer for its nil and
    returns no error. *)
Theorem typed_decoders_on_uint (env : Env) (x : width * Z) (w : width)
    (rest : list Z) (last : option Z) (pool : Pool) :
  uint_fits x →
  w ≠ Wplatform →
  DecodeMsgpack env (TPtr (TUint w)) = None →
  DecodeMsgpack env (TPtr TInterface) = None →
  let d := reading (uint_frame x ++ rest) last pool in
  let d' := reading rest (list.last (big_endian (octets x.1) x.2)) pool in
  DecodeUint_of env w d
    = (if width_eqb x.1 w then Ok (uint_value x)
       else Panic "reflect.Set: value is not assignable to type", d')
  ∧ DecodeNil env d = (Ok tt, d').
Proof.
  intros [Hw Hx] Hw' Hself HselfI d d'. subst d d'.
  destruct x as [wx n]. cbn [fst snd] in *.
  unfold uint_frame, uint_value. cbn [fst snd app].
  assert (from_big_endian (big_endian (octets wx) n) = n) as Hn.
  { rewrite from_big_endian_big_endian.
    replace (8 * Z.of_nat (octets wx)) with (bits wx)
      by (destruct wx; reflexivity).
    apply Z.mod_small. lia. }
  split.
  - assert (DecodeUint_of env w
            = wrap (Decode env (Pointer (TUint w))) (match w with
                | W8 => "failed to decode uint8"
                | W16 => "failed to decode uint16"
                | W32 => "failed to decode uint32"
                | _ => "failed to decode uint64"
                end)) as -> by (destruct w; try contradiction; reflexivity).
    unfold wrap. rewrite Decode_uint_frame;
      [|assumption|apply big_endian_length].
    rewrite Hn. unfold assign_decoded, Value_Set, assignable.
    cbn [reflect.IsValid reflect.TypeOf type_eqb].
    destruct wx; try contradiction; destruct w; try contradiction; reflexivity.
  - unfold DecodeNil, bind, wrap. rewrite Decode_uint_frame;
      [|assumption|apply big_endian_length].
    rewrite Hn. destruct wx; try contradiction; reflexivity.
Qed.

Lemma typed_decoders_on_uint_witness :
  DecodeUint_of no_user_types W16
    (reading (uint_frame (W8, 7) ++ [0xc0]) None empty_pool)
    = (if width_eqb (W8, 7).1 W16 then Ok (uint_value (W8, 7))
       else Panic "reflect.Set: value is not assignable to type",
       reading [0xc0] (list.last (big_endian (octets (W8, 7).1) (W8, 7).2))
               empty_pool)
  ∧ DecodeNil no_user_types
      (reading (uint_frame (W8, 7) ++ [0xc0]) None empty_pool)
    = (Ok tt,
       reading [0xc0] (list.last (big_endian (octets (W8, 7).1) (W8, 7).2))
               empty_pool).
Proof.
  apply (typed_decoders_on_uint no_user_types (W8, 7) W16 [0xc0] None
           empty_pool).
  - split; cbn; [discriminate|lia].
  - discriminate.
  - reflexivity.
  - reflexivity.
Defined.

(** [Encode] follows a pointer to a struct, a slice or a map, and to
    nothing else.  Given a pointer to a boolean, a number or a string, it
    strips the pointer, finds no kind it encodes by reflection and returns
    the "encode unimplemented" error, nothing being written -- though it
    would have encoded the pointee itself; given a pointer to a struct, a
    slice other than [[]byte], or a map, it does what it does for the
    pointee. *)
Theorem Encode_through_pointer (env : Env) (T : GoType) (x : Value)
    (e : Encoder) :
  reflect.TypeOf x = Some T →
  isExtType env (TPtr T) = None →
  EncodeMsgpack env (TPtr T) = None →
  isExtType env T = None →
  EncodeMsgpack env T = None →
  (scalar_value x = true →
   Encode env (VPtr T x) e
   = (Fail (Errorf "msgpack: encode unimplemented for type %s"), e)) ∧
  (composite_value x = true →
   Encode env (VPtr T x) e = Encode env x e).
Proof.
  intros HT HextP HencP Hext Henc.
  assert (Encode env (VPtr T x) e = indirect env x e) as ->.
  { unfold Encode, Encode_. cbn [indirect reflect.TypeOf].
    rewrite HextP. unfold isEncodeMsgpacker. rewrite HencP. reflexivity. }
  split; intros Hx.
  - destruct x; try discriminate Hx; cbn [indirect]; rewrite HT, Hext;
      unfold isEncodeMsgpacker; rewrite Henc; reflexivity.
  - destruct x; try discriminate Hx; reflexivity.
Qed.

Lemma Encode_through_pointer_witness :
  Encode no_user_types (VPtr (TUint W8) (VUint W8 7)) NewEncoder
  = (Fail (Errorf "msgpack: encode unimplemented for type %s"), NewEncoder).
Proof.
  apply (Encode_through_pointer no_user_types (TUint W8) (VUint W8 7)
           NewEncoder eq_refl eq_refl eq_refl eq_refl eq_refl).
  reflexivity.
Defined.
